(** * Quiz / mock-test engine of targetjee-backend

    A shallow embedding of the quiz engine found in
    [src/controllers/quiz.controller.js] and in the mock-test controller
    (the second half of [src/controllers/auth.controller.js]): the seeded
    generator and the Fisher-Yates pass, quiz lookup and view assembly,
    the grading loop of an attempt, quiz creation, update and deletion,
    the lookup of an attempt and the counts of the statistics; and of the
    token middlewares ([verifyToken], [optionalAuth], [isAdmin],
    [isInstructor]) with the routes they guard.

    Conventions of the embedding.
    - A JavaScript number that holds an integer is a [Z]; this is exact as
      long as the integer stays below 2^53 in magnitude, which the
      generator state always does (|hash * 9301 + 49297| < 2^45).
    - A JavaScript number that is the result of a division is an IEEE 754
      binary64 value, modelled by Rocq's primitive [float].
    - A JavaScript string is a Rocq [string], read as a sequence of
      Latin-1 code units (0..255).
    - [undefined] in an array slot is [None]. *)

From Stdlib Require Import ZArith Floats Uint63 Ascii String Sorted.
From stdpp Require Import base option list gmap strings pretty.

Local Open Scope Z_scope.

(** ** JavaScript numbers *)

Module JS.

(** [ToInt32]: wrap to the signed 32-bit range. *)
Definition ToInt32 (z : Z) : Z := (z + 2 ^ 31) mod 2 ^ 32 - 2 ^ 31.

(** [x << n] and [x & y] on 32-bit signed integers. *)
Definition shl (x n : Z) : Z := ToInt32 (Z.shiftl (ToInt32 x) n).
Definition and (x y : Z) : Z := Z.land (ToInt32 x) (ToInt32 y).

(** [x % y]: the remainder takes the sign of the dividend. *)
Definition rem (x y : Z) : Z := Z.rem x y.

(** An integer as a binary64 value (exact below 2^53 in magnitude). *)
Definition of_Z (z : Z) : float :=
  match z with
  | Z0 => PrimFloat.zero
  | Zpos _ => PrimFloat.of_uint63 (Uint63.of_Z z)
  | Zneg p => PrimFloat.opp (PrimFloat.of_uint63 (Uint63.of_Z (Zpos p)))
  end.

(** A property key computed from a number: an integer, or the name of
    one of the three values that are not finite. *)
Inductive key := KInt (z : Z) | KNaN | KInfinity (neg : bool).

(** [Math.floor], read as the key it denotes when it indexes an array.
    [Z.shiftl] by a negative amount is the division that rounds down. *)
Definition SFfloor (x : spec_float) : key :=
  match x with
  | S754_zero _ => KInt 0
  | S754_finite s m e => KInt (Z.shiftl (if s then Zneg m else Zpos m) e)
  | S754_infinity s => KInfinity s
  | S754_nan => KNaN
  end.

Definition floor (x : float) : key := SFfloor (Prim2SF x).

(** [s.charCodeAt(i)] for every [i], in order. *)
Definition charCodes (s : string) : list Z :=
  (fun c => Z.of_N (N_of_ascii c)) <$> list_ascii_of_string s.

End JS.

(** ** Seeded generator ([createSeededRandom]) *)

(** The loop body of the seed hash:
    [hash = ((hash << 5) - hash) + char; hash = hash & hash]. *)
Definition hashStep (hash char : Z) : Z :=
  let hash := (JS.shl hash 5 - hash) + char in
  JS.and hash hash.

Definition seedHash (seed : string) : Z :=
  foldl hashStep 0 (JS.charCodes seed).

(** The body of the returned closure:
    [hash = (hash * 9301 + 49297) % 233280; return hash / 233280].
    Where JavaScript has [-0] (a negative dividend that is a multiple of
    233280) the model has [0]; the two index and compare alike. *)
Definition nextHash (hash : Z) : Z := JS.rem (hash * 9301 + 49297) 233280.

Definition emit (hash : Z) : float :=
  PrimFloat.div (JS.of_Z hash) (JS.of_Z 233280).

(** Every call of [createSeededRandom] builds a closure with a [hash]
    variable of its own.  The store holds one cell per closure; a
    generator is the address of its cell. *)
Abbreviation store := (list Z) (only parsing).
Abbreviation generator := nat (only parsing).

Definition M (A : Type) : Type := store -> option (A * store).

Definition ret {A} (a : A) : M A := fun st => Some (a, st).
Definition bind {A B} (m : M A) (k : A -> M B) : M B :=
  fun st => match m st with
            | Some (a, st') => k a st'
            | None => None
            end.

Notation "'let*' x ':=' m 'in' k" := (bind m (fun x => k))
  (at level 10, x name, m at level 100, k at level 200).

Definition createSeededRandom (seed : string) : M generator :=
  fun st => Some (length st, st ++ [seedHash seed]).

Definition random (g : generator) : M float :=
  fun st => match st !! g with
            | Some hash =>
                let hash := nextHash hash in
                Some (emit hash, <[g := hash]> st)
            | None => None
            end.

(** [n] calls of the generator in a row, with the values they return. *)
Fixpoint draws (g : generator) (n : nat) : M (list float) :=
  match n with
  | O => ret []
  | S n' => let* v := random g in let* vs := draws g n' in ret (v :: vs)
  end.

(** ** Arrays and the Fisher-Yates pass ([shuffleArray]) *)

Global Instance key_eq_dec : EqDecision JS.key.
Proof. solve_decision. Defined.

Global Instance key_countable : Countable JS.key.
Proof.
  refine (inj_countable'
    (fun k => match k with
              | JS.KInt z => inl z
              | JS.KNaN => inr None
              | JS.KInfinity b => inr (Some b)
              end)
    (fun s => match s with
              | inl z => JS.KInt z
              | inr None => JS.KNaN
              | inr (Some b) => JS.KInfinity b
              end) _).
  by intros [].
Defined.

(** A JavaScript array: its elements, where [None] is [undefined], and
    the properties that are not array indices (a write to [a[-1]] creates
    the property ["-1"] and leaves [a.length] alone). *)
Record jsarray (A : Type) := JSArray {
  elems : list (option A);
  props : gmap JS.key (option A)
}.
Arguments JSArray {A} _ _.
Arguments elems {A} _.
Arguments props {A} _.

Section Arrays.
Context {A : Type}.

(** [[...array]]: a fresh array with the elements of [array]. *)
Definition spread (array : list A) : jsarray A :=
  JSArray (Some <$> array) ∅.

(** [a[k]] as an expression. *)
Definition aget (a : jsarray A) (k : JS.key) : option A :=
  match k with
  | JS.KInt z =>
      if decide (0 <= z) then mjoin (elems a !! Z.to_nat z)
      else mjoin (props a !! k)
  | _ => mjoin (props a !! k)
  end.

(** [a[k] = v]; a write past the end extends the array with holes. *)
Definition aset (a : jsarray A) (k : JS.key) (v : option A) : jsarray A :=
  match k with
  | JS.KInt z =>
      if decide (0 <= z) then
        let n := Z.to_nat z in
        if decide (n < length (elems a))%nat
        then JSArray (<[n := v]> (elems a)) (props a)
        else JSArray (elems a ++ replicate (n - length (elems a)) None ++ [v])
                     (props a)
      else JSArray (elems a) (<[k := v]> (props a))
  | _ => JSArray (elems a) (<[k := v]> (props a))
  end.

(** [[a[i], a[j]] = [a[j], a[i]]]: both reads, then both writes. *)
Definition swap (a : jsarray A) (i j : JS.key) : jsarray A :=
  let x := aget a j in
  let y := aget a i in
  aset (aset a i x) j y.

(** The loop [for (let i = shuffled.length - 1; i > 0; i--)], by
    recursion on [i]. *)
Fixpoint shuffleLoop (g : generator) (i : nat) (shuffled : jsarray A)
  : M (jsarray A) :=
  match i with
  | O => ret shuffled
  | S i' =>
      let* r := random g in
      let j := JS.floor (PrimFloat.mul r (JS.of_Z (Z.of_nat i + 1))) in
      shuffleLoop g i' (swap shuffled (JS.KInt (Z.of_nat i)) j)
  end.

Definition shuffleArray (array : list A) (g : generator) : M (list (option A)) :=
  let shuffled := spread array in
  let* shuffled := shuffleLoop g (length (elems shuffled) - 1) shuffled in
  ret (elems shuffled).

End Arrays.

(** The same loop with the state of the generator threaded by hand. *)
Fixpoint shuffleFrom {A} (hash : Z) (i : nat) (a : jsarray A) : jsarray A * Z :=
  match i with
  | O => (a, hash)
  | S i' =>
      let hash := nextHash hash in
      let j := JS.floor (PrimFloat.mul (emit hash) (JS.of_Z (Z.of_nat i + 1))) in
      shuffleFrom hash i' (swap a (JS.KInt (Z.of_nat i)) j)
  end.

(** ** Strings *)

Module Str.

Definition code (c : ascii) : Z := Z.of_N (N_of_ascii c).

(** White space and line terminators of ECMAScript with a code unit
    below 256: TAB, LF, VT, FF, CR, SP, NBSP. *)
Definition isWhiteSpace (c : ascii) : bool :=
  bool_decide (code c ∈ [9; 10; 11; 12; 13; 32; 160]).

Fixpoint trimStart (s : string) : string :=
  match s with
  | String c s' => if isWhiteSpace c then trimStart s' else s
  | EmptyString => EmptyString
  end.

Definition trimEnd (s : string) : string :=
  String.rev (trimStart (String.rev s)).

Definition trim (s : string) : string := trimEnd (trimStart s).

(** Upper-case letters with a code unit below 256: A-Z, and the
    accented capitals 192-222 except the multiplication sign 215. *)
Definition lowerChar (c : ascii) : ascii :=
  let n := code c in
  if bool_decide (65 <= n <= 90 \/ (192 <= n <= 222 /\ n <> 215))
  then ascii_of_N (Z.to_N (n + 32)) else c.

Fixpoint toLowerCase (s : string) : string :=
  match s with
  | String c s' => String (lowerChar c) (toLowerCase s')
  | EmptyString => EmptyString
  end.

(** The value of [c] as a digit in [radix], if it is one. *)
Definition digit (radix : Z) (c : ascii) : option Z :=
  let n := code c in
  let d := if bool_decide (48 <= n <= 57) then Some (n - 48)
           else if bool_decide (97 <= n <= 122) then Some (n - 87)
           else if bool_decide (65 <= n <= 90) then Some (n - 55)
           else None in
  d ≫= fun d => if bool_decide (d < radix) then Some d else None.

(** The longest prefix of digits, as a number; [acc] is [None] until a
    digit has been read. *)
Fixpoint digits (radix : Z) (s : string) (acc : option Z) : option Z :=
  match s with
  | String c s' =>
      match digit radix c with
      | Some d => digits radix s' (Some (default 0 acc * radix + d))
      | None => acc
      end
  | EmptyString => acc
  end.

(** [parseInt(s)] without a radix; [None] is [NaN]. *)
Definition parseInt (s : string) : option Z :=
  let s := trimStart s in
  let '(sign, s) :=
    match s with
    | String "-" s' => (-1, s')
    | String "+" s' => (1, s')
    | _ => (1, s)
    end in
  let '(radix, s) :=
    match s with
    | String "0" (String "x" s') | String "0" (String "X" s') => (16, s')
    | _ => (10, s)
    end in
  Z.mul sign <$> digits radix s None.

End Str.

(** ** Values read from a request *)

(** An identifier in a request body: absent, a number or a string. *)
Inductive idval := IdAbsent | IdNum (z : Z) | IdStr (s : string).

(** The first digit of the shortest decimal numeral that reads back as
    the binary64 number [z], for an integer [z >= 10^21]: the first
    digit of [z], or the digit after it when the numeral [c] that ends
    the run of this digit is no further from [z] than half the gap to
    the next binary64 number (as for the number nearest to 10^23, which
    prints as ["1e+23"]). *)
Definition leadingDigit (z : Z) : Z :=
  let ulp := 2 ^ (Z.log2 z - 52) in
  let unit := 10 ^ (Z.of_nat (String.length (pretty z)) - 1) in
  let d := z / unit in
  let c := (d + 1) * unit in
  let reached := if Z.even (z / ulp) then 2 * (c - z) <=? ulp
                 else 2 * (c - z) <? ulp in
  if reached then (if d =? 9 then 1 else d + 1) else d.

(** [parseInt(v)]; [None] is [NaN].  A number is first printed: an
    integer below 10^21 in magnitude prints as its decimal numeral, and
    a larger one with one digit before the point and an exponent, of
    which [parseInt] reads the digit. *)
Definition parseInt (v : idval) : option Z :=
  match v with
  | IdAbsent => None
  | IdNum z =>
      if Z.abs z <? 10 ^ 21 then Some z
      else Some (Z.sgn z * leadingDigit (Z.abs z))
  | IdStr s => Str.parseInt s
  end.

(** Truthiness of an optional string and of an identifier. *)
Definition truthyStr (s : option string) : bool :=
  match s with
  | Some s => negb (bool_decide (s = ""))
  | None => false
  end.

Definition truthyNum (n : option Z) : bool :=
  match n with
  | Some z => negb (z =? 0)
  | None => false
  end.

Definition truthyId (v : idval) : bool :=
  match v with
  | IdAbsent => false
  | IdNum z => negb (z =? 0)
  | IdStr s => negb (bool_decide (s = ""))
  end.

(** ** JSON *)

#[local] Set Warnings "-register-all".

Inductive json :=
| JNull
| JBool (b : bool)
| JNum (z : Z)
| JStr (s : string)
| JArr (items : list json)
| JObj (fields : list (string * json)).

Module Obj.

Definition get (k : string) (o : list (string * json)) : option json :=
  snd <$> List.find (fun kv => String.eqb kv.1 k) o.

(** [{...o, k: v}]: an existing key keeps its place. *)
Fixpoint set (k : string) (v : json) (o : list (string * json))
  : list (string * json) :=
  match o with
  | [] => [(k, v)]
  | (k', v') :: o' => if String.eqb k' k then (k, v) :: o'
                      else (k', v') :: set k v o'
  end.

(** The attributes named in [attrs], in that order. *)
Definition pick (attrs : list string) (o : list (string * json))
  : list (string * json) :=
  omap (fun k => pair k <$> get k o) attrs.

End Obj.

(** Every property name that occurs in a value, at any depth. *)
Fixpoint keys (v : json) : list string :=
  match v with
  | JArr items => (fix go l := match l with
                               | [] => []
                               | x :: l' => keys x ++ go l'
                               end) items
  | JObj fields => (fix go l := match l with
                                | [] => []
                                | (k, x) :: l' => k :: keys x ++ go l'
                                end) fields
  | _ => []
  end.

Definition optJ {A} (f : A -> json) (o : option A) : json :=
  match o with Some a => f a | None => JNull end.

(** ** Persistent store *)

(** The five tables of the quiz engine.  The columns [createdAt] and
    [updatedAt] carry no behaviour and are left out; a table is the list
    of its rows in storage order. *)

Inductive QuestionType := multiple_choice | single_choice | true_false | fill_blank.

Global Instance QuestionType_eq_dec : EqDecision QuestionType.
Proof. solve_decision. Defined.

Definition QuestionType_name (t : QuestionType) : string :=
  match t with
  | multiple_choice => "multiple_choice"
  | single_choice => "single_choice"
  | true_false => "true_false"
  | fill_blank => "fill_blank"
  end.

Module Quiz.
Record t := Build {
  id : Z;
  lessonId : option Z;
  category : option string;
  difficulty : option string;
  title : string;
  description : option string;
  timeLimit : option Z;
  passingScore : option Z
}.

Definition toJSON (q : t) : list (string * json) :=
  [("id", JNum (id q)); ("lessonId", optJ JNum (lessonId q));
   ("category", optJ JStr (category q));
   ("difficulty", optJ JStr (difficulty q));
   ("title", JStr (title q)); ("description", optJ JStr (description q));
   ("timeLimit", optJ JNum (timeLimit q));
   ("passingScore", optJ JNum (passingScore q))].
End Quiz.

Module QuizQuestion.
Record t := Build {
  id : Z;
  quizId : Z;
  questionText : string;
  questionType : QuestionType;
  points : Z;
  explanation : option string;
  position : Z
}.

Definition toJSON (q : t) : list (string * json) :=
  [("id", JNum (id q)); ("quizId", JNum (quizId q));
   ("questionText", JStr (questionText q));
   ("questionType", JStr (QuestionType_name (questionType q)));
   ("points", JNum (points q));
   ("explanation", optJ JStr (explanation q));
   ("position", JNum (position q))].
End QuizQuestion.

Module QuizAnswer.
Record t := Build {
  id : Z;
  questionId : Z;
  answerText : string;
  isCorrect : bool;
  explanation : option string
}.

Definition toJSON (a : t) : list (string * json) :=
  [("id", JNum (id a)); ("questionId", JNum (questionId a));
   ("answerText", JStr (answerText a)); ("isCorrect", JBool (isCorrect a));
   ("explanation", optJ JStr (explanation a))].
End QuizAnswer.

Module QuizAttempt.
Record t := Build {
  id : Z;
  userId : option Z;
  quizId : Z;
  score : option Z;
  maxScore : option Z;
  percentageScore : option float;
  passed : option bool;
  startedAt : Z;
  completedAt : Z;
  timeSpentSeconds : Z
}.
End QuizAttempt.

Module UserQuizAnswer.
Record t := Build {
  attemptId : Z;
  questionId : Z;
  answerId : option Z;
  textAnswer : option string;
  isCorrect : bool;
  pointsEarned : Z
}.
End UserQuizAnswer.

Inductive Role := student | instructor | admin.

Global Instance Role_eq_dec : EqDecision Role.
Proof. solve_decision. Defined.

(** The columns of a user that the handlers and the middleware read. *)
Module User.
Record t := Build {
  id : Z;
  role : Role
}.
End User.

Record DB := {
  quizzes : list Quiz.t;
  quiz_questions : list QuizQuestion.t;
  quiz_answers : list QuizAnswer.t;
  quiz_attempts : list QuizAttempt.t;
  user_quiz_answers : list UserQuizAnswer.t
}.

(** ** The rules of the store

    The tables are made by [sequelize.sync()] from the models.  A column
    declared with [references] carries a foreign key, which the store
    enforces: an insertion that names a row that does not exist throws.
    Numbers and texts are taken to fit the columns that hold them.
    Two things are settled where the models are loaded and the database
    is configured, in files that are not among these sources
    ([models/index.js] and the configuration it reads), and are taken as
    parameters here:
    - how the store reads a string that is bound to an INTEGER column
      ([None] when it rejects the statement); a number is stored as it
      is;
    - what the foreign keys of [user_quiz_answers] do when the answer or
      the question they name is deleted.  [QuizAnswer.hasMany] and
      [UserQuizAnswer.belongsTo] both declare the key [answerId], and
      each gives it an ON DELETE action of its own when it is the first
      to be called; likewise for [questionId]. *)
Inductive OnDelete := NoAction | SetNull | Cascade.

Record Schema := {
  integer : string -> option Z;
  answerId_onDelete : OnDelete;
  questionId_onDelete : OnDelete
}.

(** The value of an INTEGER column to which [v] is bound. *)
Definition column (schema : Schema) (v : idval) : option Z :=
  match v with
  | IdAbsent => None
  | IdNum z => Some z
  | IdStr s => integer schema s
  end.

(** ** Queries *)

(** [ORDER BY key ASC], as a stable insertion sort of the storage order. *)
Fixpoint insertBy {A} (key : A -> Z) (x : A) (l : list A) : list A :=
  match l with
  | [] => [x]
  | y :: l' => if key x <=? key y then x :: l else y :: insertBy key x l'
  end.

Definition orderBy {A} (key : A -> Z) (l : list A) : list A :=
  foldr (insertBy key) [] l.

(** [Quiz.findByPk(id)]. *)
Definition findByPk (db : DB) (id : Z) : option Quiz.t :=
  List.find (fun q => Quiz.id q =? id) (quizzes db).

(** [Quiz.findOne({ where: { id, lessonId: null } })]. *)
Definition findMockTest (db : DB) (id : Z) : option Quiz.t :=
  List.find (fun q => (Quiz.id q =? id) && bool_decide (Quiz.lessonId q = None))
            (quizzes db).

(** [QuizQuestion.findAll({ where: { quizId } })] and the answers of one
    question. *)
Definition questionsOf (db : DB) (quizId : Z) : list QuizQuestion.t :=
  List.filter (fun q => QuizQuestion.quizId q =? quizId) (quiz_questions db).

Definition answersOf (db : DB) (questionId : Z) : list QuizAnswer.t :=
  List.filter (fun a => QuizAnswer.questionId a =? questionId) (quiz_answers db).

(** [QuizAttempt.count({ where: { quizId } })]. *)
Definition attemptCount (db : DB) (quizId : Z) : nat :=
  length (List.filter (fun a => QuizAttempt.quizId a =? quizId) (quiz_attempts db)).

(** ** Responses *)

(** [res.status(status).json({ success: true, ... })] with what it
    carries (the data, or the message of a deletion), and
    [res.status(status).json({ success: false, message })]. *)
Inductive Response (A : Type) :=
| Success (status : Z) (data : A)
| Failure (status : Z) (message : string).
Arguments Success {A} _ _.
Arguments Failure {A} _ _.

(** ** Quiz assembly ([getQuizById], [getMockTestById]) *)

Record ViewRequest := {
  params_id : Z;
  randomize : option string;
  questionCount : option string;
  userSeed : option string;
  shuffleAnswers : option string;
  req_userId : option Z;
  req_ip : option string
}.

(** The included answers of a question, with
    [attributes: ['id', 'answerText']], ordered by [id]. *)
Definition viewAnswers (db : DB) (questionId : Z) : list json :=
  (fun a => JObj (Obj.pick ["id"; "answerText"] (QuizAnswer.toJSON a)))
    <$> orderBy QuizAnswer.id (answersOf db questionId).

(** The included questions of a quiz, with [attributes: ['id',
    'questionText', 'questionType', 'points', 'position']], ordered by
    [position]. *)
Definition viewQuestion (db : DB) (q : QuizQuestion.t) : json :=
  JObj (Obj.pick ["id"; "questionText"; "questionType"; "points"; "position"]
                 (QuizQuestion.toJSON q)
        ++ [("answers", JArr (viewAnswers db (QuizQuestion.id q)))]).

Definition viewQuestions (db : DB) (quizId : Z) : list json :=
  viewQuestion db <$> orderBy QuizQuestion.position (questionsOf db quizId).

(** [a || b || 'anonymous'] for the requester, and the seed
    [`${userId}-${id}-${userSeed || 'default'}`]. *)
Definition requester (req : ViewRequest) : string :=
  match req_userId req with
  | Some u => if u =? 0 then
                (if truthyStr (req_ip req) then default "" (req_ip req)
                 else "anonymous")
              else pretty u
  | None => if truthyStr (req_ip req) then default "" (req_ip req)
            else "anonymous"
  end.

Definition seedOf (req : ViewRequest) : string :=
  requester req +:+ "-" +:+ pretty (params_id req) +:+ "-"
  +:+ (if truthyStr (userSeed req) then default "" (userSeed req) else "default").

(** Reading a property of [undefined] throws a [TypeError]. *)
Definition defined {A} (x : option A) : M A :=
  fun st => match x with Some a => Some (a, st) | None => None end.

Fixpoint mapM {A B} (f : A -> M B) (l : list A) : M (list B) :=
  match l with
  | [] => ret []
  | x :: l' => let* y := f x in let* ys := mapM f l' in ret (y :: ys)
  end.

(** An array with holes, as [JSON.stringify] prints it. *)
Definition holesToNull (l : list (option json)) : list json :=
  default JNull <$> l.

Definition fieldsOf (v : json) : list (string * json) :=
  match v with JObj fields => fields | _ => [] end.

Definition itemsOf (v : json) : list json :=
  match v with JArr items => items | _ => [] end.

(** The callback of the first [questions.map] (answer shuffling). *)
Definition shuffleAnswersOf (random : generator) (question : option json)
  : M (option json) :=
  let* question := defined question in
  let answers := itemsOf (default (JArr []) (Obj.get "answers" (fieldsOf question))) in
  if bool_decide (0 < length answers)%nat then
    let* shuffledAnswers := shuffleArray answers random in
    ret (Some (JObj (Obj.set "answers" (JArr (holesToNull shuffledAnswers))
                             (fieldsOf question))))
  else ret (Some question).

(** The callback of the second [questions.map] (positions). *)
Definition reposition (index : nat) (question : option json) : M json :=
  let* question := defined question in
  ret (JObj (Obj.set "position" (JNum (Z.of_nat index)) (fieldsOf question))).

Fixpoint mapiM {A B} (f : nat -> A -> M B) (index : nat) (l : list A) : M (list B) :=
  match l with
  | [] => ret []
  | x :: l' => let* y := f index x in
               let* ys := mapiM f (S index) l' in ret (y :: ys)
  end.

(** The block guarded by [randomize === 'true' && questions.length > 0]. *)
Definition randomizeQuestions (req : ViewRequest) (questions : list json)
  : M (list json) :=
  let* random := createSeededRandom (seedOf req) in
  let* questions := shuffleArray questions random in
  let questions :=
    match questionCount req with
    | Some qc =>
        if truthyStr (Some qc) && bool_decide (0 < default 0 (Str.parseInt qc))
        then take (Z.to_nat (Z.min (default 0 (Str.parseInt qc))
                                   (Z.of_nat (length questions)))) questions
        else questions
    | None => questions
    end in
  let* questions :=
    if bool_decide (shuffleAnswers req = Some "true")
    then mapM (shuffleAnswersOf random) questions
    else ret questions in
  mapiM reposition 0 questions.

(** The handler after the quiz has been loaded; [None] at the end of the
    run is the [catch] branch. *)
Definition assemble (failed : string) (db : DB) (req : ViewRequest) (quiz : Quiz.t)
  : Response json :=
  let all := viewQuestions db (Quiz.id quiz) in
  let randomized := bool_decide (randomize req = Some "true") in
  let run : M (list json) :=
    if randomized && bool_decide (0 < length all)%nat
    then randomizeQuestions req all
    else ret all in
  match run [] with
  | None => Failure 500 failed
  | Some (questions, _) =>
      Success 200
        (JObj (Obj.set "questions" (JArr questions)
                 (Quiz.toJSON quiz ++ [("questions", JArr all)])
               ++ [("metadata", JObj
                    [("totalAvailableQuestions", JNum (Z.of_nat (length all)));
                     ("returnedQuestions", JNum (Z.of_nat (length questions)));
                     ("randomized", JBool randomized);
                     ("answersShuffled",
                        JBool (bool_decide (shuffleAnswers req = Some "true")));
                     ("seed", if randomized then JStr (seedOf req) else JNull)])]))
  end.

Definition getQuizById (db : DB) (req : ViewRequest) : Response json :=
  match findByPk db (params_id req) with
  | None => Failure 404 "Quiz not found"
  | Some quiz => assemble "Failed to get quiz" db req quiz
  end.

Definition getMockTestById (db : DB) (req : ViewRequest) : Response json :=
  match findMockTest db (params_id req) with
  | None => Failure 404 "Mock test not found"
  | Some mockTest => assemble "Failed to get mock test" db req mockTest
  end.

(** ** Deletion ([deleteQuiz], [deleteMockTest]) *)

(** Writes made with [{ transaction }] go to a working copy of the store;
    [commit] installs the working copy and [rollback] drops it. *)
Record Txn := { committed : DB; working : DB }.

Definition begin (db : DB) : Txn := {| committed := db; working := db |}.
Definition commit (tx : Txn) : DB := working tx.
Definition rollback (tx : Txn) : DB := committed tx.

Definition onWorking (f : DB -> DB) (tx : Txn) : Txn :=
  {| committed := committed tx; working := f (working tx) |}.

(** The rows of [user_quiz_answers] once the answers with a key in
    [gone] are deleted: [None] when the foreign key of [answerId] stops
    the deletion. *)
Definition answersGone (schema : Schema) (gone : list Z)
    (rows : list UserQuizAnswer.t) : option (list UserQuizAnswer.t) :=
  let named (row : UserQuizAnswer.t) :=
    match UserQuizAnswer.answerId row with
    | Some a => bool_decide (a ∈ gone)
    | None => false
    end in
  match answerId_onDelete schema with
  | NoAction => if existsb named rows then None else Some rows
  | SetNull =>
      Some ((fun row =>
               if named row then
                 {| UserQuizAnswer.attemptId := UserQuizAnswer.attemptId row;
                    UserQuizAnswer.questionId := UserQuizAnswer.questionId row;
                    UserQuizAnswer.answerId := None;
                    UserQuizAnswer.textAnswer := UserQuizAnswer.textAnswer row;
                    UserQuizAnswer.isCorrect := UserQuizAnswer.isCorrect row;
                    UserQuizAnswer.pointsEarned := UserQuizAnswer.pointsEarned row |}
               else row) <$> rows)
  | Cascade => Some (List.filter (fun row => negb (named row)) rows)
  end.

(** The same for the questions with a key in [gone]; the column
    [question_id] does not take NULL, so that [SetNull] stops the
    deletion as well. *)
Definition questionsGone (schema : Schema) (gone : list Z)
    (rows : list UserQuizAnswer.t) : option (list UserQuizAnswer.t) :=
  let named (row : UserQuizAnswer.t) :=
    bool_decide (UserQuizAnswer.questionId row ∈ gone) in
  match questionId_onDelete schema with
  | Cascade => Some (List.filter (fun row => negb (named row)) rows)
  | _ => if existsb named rows then None else Some rows
  end.

(** [QuizAnswer.destroy({ where: { questionId }, transaction })]; [None]
    when it throws. *)
Definition destroyAnswers (schema : Schema) (questionId : Z) (db : DB) : option DB :=
  let gone := QuizAnswer.id <$> answersOf db questionId in
  rows ← answersGone schema gone (user_quiz_answers db);
  Some {| quizzes := quizzes db;
          quiz_questions := quiz_questions db;
          quiz_answers :=
            List.filter (fun a => negb (QuizAnswer.questionId a =? questionId))
                        (quiz_answers db);
          quiz_attempts := quiz_attempts db;
          user_quiz_answers := rows |}.

(** [QuizQuestion.destroy({ where: { quizId }, transaction })]; [None]
    when it throws.  The handler has deleted the answers of these
    questions by then, so that the foreign key of [quiz_answers] has
    nothing to act on. *)
Definition destroyQuestions (schema : Schema) (quizId : Z) (db : DB) : option DB :=
  let gone := QuizQuestion.id <$> questionsOf db quizId in
  rows ← questionsGone schema gone (user_quiz_answers db);
  Some {| quizzes := quizzes db;
          quiz_questions :=
            List.filter (fun q => negb (QuizQuestion.quizId q =? quizId))
                        (quiz_questions db);
          quiz_answers := quiz_answers db;
          quiz_attempts := quiz_attempts db;
          user_quiz_answers := rows |}.

(** [quiz.destroy({ transaction })]: the row with the primary key of
    [quiz].  No question and no attempt of the quiz is left by then. *)
Definition destroyQuiz (quiz : Quiz.t) (db : DB) : DB :=
  {| quizzes := List.filter (fun q => negb (Quiz.id q =? Quiz.id quiz)) (quizzes db);
     quiz_questions := quiz_questions db;
     quiz_answers := quiz_answers db;
     quiz_attempts := quiz_attempts db;
     user_quiz_answers := user_quiz_answers db |}.

(** A statement run with [{ transaction }]: it writes to the working
    copy, or it throws. *)
Definition run (f : DB -> option DB) (tx : Txn) : option Txn :=
  db ← f (working tx);
  Some {| committed := committed tx; working := db |}.

(** The loop [for (const question of questions)]. *)
Fixpoint destroyAnswersOf (schema : Schema) (questions : list QuizQuestion.t)
    (transaction : Txn) : option Txn :=
  match questions with
  | [] => Some transaction
  | question :: questions' =>
      transaction ← run (destroyAnswers schema (QuizQuestion.id question)) transaction;
      destroyAnswersOf schema questions' transaction
  end.

(** The handler after the lookup; the result is the response and the
    store the request leaves behind.  A statement that throws takes the
    handler to its [catch] branch. *)
Definition deleteFound (schema : Schema) (blocked deleted failed : string)
    (db : DB) (id : Z) (quiz : Quiz.t) : Response string * DB :=
  let transaction := begin db in
  if bool_decide (0 < attemptCount db id)%nat then
    (Failure 400 blocked, rollback transaction)
  else
    let questions := questionsOf db id in
    match
      transaction ← destroyAnswersOf schema questions transaction;
      transaction ← run (destroyQuestions schema id) transaction;
      Some (onWorking (destroyQuiz quiz) transaction)
    with
    | Some transaction => (Success 200 deleted, commit transaction)
    | None => (Failure 500 failed, rollback transaction)
    end.

Definition deleteQuiz (schema : Schema) (db : DB) (id : Z) : Response string * DB :=
  match findByPk db id with
  | None => (Failure 404 "Quiz not found", rollback (begin db))
  | Some quiz =>
      deleteFound schema "Cannot delete quiz with existing attempts"
                  "Quiz deleted successfully" "Failed to delete quiz" db id quiz
  end.

Definition deleteMockTest (schema : Schema) (db : DB) (id : Z)
  : Response string * DB :=
  match findMockTest db id with
  | None => (Failure 404 "Mock test not found", rollback (begin db))
  | Some mockTest =>
      deleteFound schema "Cannot delete mock test with existing attempts"
                  "Mock test deleted successfully" "Failed to delete mock test"
                  db id mockTest
  end.

(** ** Scoring and attempt submission ([submitQuizAttempt],
    [submitMockTestAttempt]) *)

(** One element of the [answers] array of the request body.  A
    [textAnswer] is a string when it is present. *)
Record Submission := {
  questionId : idval;
  answerId : idval;
  textAnswer : option string
}.

Record SubmitRequest := {
  body_quizId : option Z;
  body_startedAt : option Z;
  body_answers : option (list Submission);
  submit_userId : option Z
}.

(** A question with its included answers ([include] without
    [attributes]: every column is loaded). *)
Record LoadedQuestion := {
  question : QuizQuestion.t;
  answers : list QuizAnswer.t
}.

Definition loadQuestions (db : DB) (quizId : Z) : list LoadedQuestion :=
  (fun q => {| question := q; answers := answersOf db (QuizQuestion.id q) |})
    <$> questionsOf db quizId.

(** The variables of the grading loop. *)
Record Grading := {
  totalScore : Z;
  maxScore : Z;
  grading_transaction : Txn
}.

(** [UserQuizAnswer.create(row, { transaction })]: [None] when the row
    names an attempt, a question or an answer that the store does not
    hold, and the insertion throws. *)
Definition createUserAnswer (row : UserQuizAnswer.t) (db : DB) : option DB :=
  if bool_decide (UserQuizAnswer.attemptId row ∈ QuizAttempt.id <$> quiz_attempts db)
     && bool_decide (UserQuizAnswer.questionId row
                     ∈ QuizQuestion.id <$> quiz_questions db)
     && match UserQuizAnswer.answerId row with
        | Some a => bool_decide (a ∈ QuizAnswer.id <$> quiz_answers db)
        | None => true
        end
  then Some {| quizzes := quizzes db;
               quiz_questions := quiz_questions db;
               quiz_answers := quiz_answers db;
               quiz_attempts := quiz_attempts db;
               user_quiz_answers := user_quiz_answers db ++ [row] |}
  else None.

(** [quiz.questions.find(q => q.id === parseInt(questionId))]. *)
Definition findQuestion (questions : list LoadedQuestion) (questionId : idval)
  : option LoadedQuestion :=
  List.find (fun q => match parseInt questionId with
                      | Some n => QuizQuestion.id (question q) =? n
                      | None => false
                      end) questions.

(** [question.answers.filter(a => a.isCorrect)
      .map(a => a.answerText.toLowerCase().trim())]. *)
Definition correctAnswers (q : LoadedQuestion) : list string :=
  (fun a => Str.trim (Str.toLowerCase (QuizAnswer.answerText a)))
    <$> List.filter QuizAnswer.isCorrect (answers q).

(** The test of the [fill_blank] branch:
    [textAnswer && correctAnswers.includes(textAnswer.toLowerCase().trim())]. *)
Definition fillBlankCorrect (q : LoadedQuestion) (textAnswer : option string) : bool :=
  truthyStr textAnswer
  && bool_decide (Str.trim (Str.toLowerCase (default "" textAnswer))
                  ∈ correctAnswers q).

(** The test of the other branch. *)
Definition choiceCorrect (q : LoadedQuestion) (answerId : idval) : bool :=
  match List.find (fun a => match parseInt answerId with
                            | Some n => QuizAnswer.id a =? n
                            | None => false
                            end) (answers q) with
  | Some selectedAnswer => QuizAnswer.isCorrect selectedAnswer
  | None => false
  end.

(** The value of [isCorrect] once both branches have run. *)
Definition judge (q : LoadedQuestion) (answer : Submission) : bool :=
  if bool_decide (QuizQuestion.questionType (question q) = fill_blank)
  then fillBlankCorrect q (textAnswer answer)
  else choiceCorrect q (answerId answer).

(** The body of [for (const answer of answers)]; [None] when the
    insertion of the row throws.  The row is given [questionId] as the
    request has it and [answerId || null]. *)
Definition gradeAnswer (schema : Schema) (questions : list LoadedQuestion)
    (attemptId : Z) (st : Grading) (answer : Submission) : option Grading :=
  match findQuestion questions (questionId answer) with
  | None => Some st
  | Some q =>
      let maxScore := maxScore st + QuizQuestion.points (question q) in
      let isCorrect := judge q answer in
      let pointsEarned := if isCorrect then QuizQuestion.points (question q) else 0 in
      let totalScore := if isCorrect then totalScore st + pointsEarned
                        else totalScore st in
      questionId' ← column schema (questionId answer);
      answerId' ← (if truthyId (answerId answer)
                   then Some <$> column schema (answerId answer)
                   else Some None);
      transaction ←
        run (createUserAnswer
               {| UserQuizAnswer.attemptId := attemptId;
                  UserQuizAnswer.questionId := questionId';
                  UserQuizAnswer.answerId := answerId';
                  UserQuizAnswer.textAnswer :=
                    if truthyStr (textAnswer answer) then textAnswer answer else None;
                  UserQuizAnswer.isCorrect := isCorrect;
                  UserQuizAnswer.pointsEarned := pointsEarned |})
            (grading_transaction st);
      Some {| totalScore := totalScore;
              maxScore := maxScore;
              grading_transaction := transaction |}
  end.

(** The loop [for (const answer of answers)]. *)
Fixpoint gradeAnswers (schema : Schema) (questions : list LoadedQuestion)
    (attemptId : Z) (st : Grading) (answers : list Submission) : option Grading :=
  match answers with
  | [] => Some st
  | answer :: answers' =>
      st ← gradeAnswer schema questions attemptId st answer;
      gradeAnswers schema questions attemptId st answers'
  end.

(** [maxScore > 0 ? (totalScore / maxScore) * 100 : 0]. *)
Definition percentage (totalScore maxScore : Z) : float :=
  if 0 <? maxScore
  then PrimFloat.mul (PrimFloat.div (JS.of_Z totalScore) (JS.of_Z maxScore))
                     (JS.of_Z 100)
  else JS.of_Z 0.

(** [passingScore ? percentageScore >= passingScore : true]. *)
Definition hasPassed (passingScore : option Z) (percentageScore : float) : bool :=
  match passingScore with
  | Some p => if p =? 0 then true else PrimFloat.leb (JS.of_Z p) percentageScore
  | None => true
  end.

(** The primary key given to a new attempt. *)
Definition nextAttemptId (db : DB) : Z :=
  1 + foldr Z.max 0 (QuizAttempt.id <$> quiz_attempts db).

(** [QuizAttempt.create(row, { transaction })]: [None] when the row
    names a user or a quiz that does not exist, and the insertion
    throws. *)
Definition createAttempt (users : list User.t) (row : QuizAttempt.t) (db : DB)
  : option DB :=
  if match QuizAttempt.userId row with
     | Some u => bool_decide (u ∈ User.id <$> users)
     | None => true
     end
     && bool_decide (QuizAttempt.quizId row ∈ Quiz.id <$> quizzes db)
  then Some {| quizzes := quizzes db;
               quiz_questions := quiz_questions db;
               quiz_answers := quiz_answers db;
               quiz_attempts := quiz_attempts db ++ [row];
               user_quiz_answers := user_quiz_answers db |}
  else None.

(** [attempt.update({ score, maxScore, percentageScore, passed })]. *)
Definition updateAttempt (id score maxScore : Z) (percentageScore : float)
    (passed : bool) (db : DB) : DB :=
  {| quizzes := quizzes db;
     quiz_questions := quiz_questions db;
     quiz_answers := quiz_answers db;
     quiz_attempts :=
       (fun a => if QuizAttempt.id a =? id then
                   {| QuizAttempt.id := QuizAttempt.id a;
                      QuizAttempt.userId := QuizAttempt.userId a;
                      QuizAttempt.quizId := QuizAttempt.quizId a;
                      QuizAttempt.score := Some score;
                      QuizAttempt.maxScore := Some maxScore;
                      QuizAttempt.percentageScore := Some percentageScore;
                      QuizAttempt.passed := Some passed;
                      QuizAttempt.startedAt := QuizAttempt.startedAt a;
                      QuizAttempt.completedAt := QuizAttempt.completedAt a;
                      QuizAttempt.timeSpentSeconds := QuizAttempt.timeSpentSeconds a |}
                 else a) <$> quiz_attempts db;
     user_quiz_answers := user_quiz_answers db |}.

(** The [result] object of the response, with [requiresLogin]. *)
Record AttemptResult := {
  result_score : Z;
  result_maxScore : Z;
  result_percentageScore : float;
  result_passed : bool;
  result_timeSpentSeconds : Z;
  requiresLogin : bool
}.

(** The handler after the quiz has been loaded; [now] is the value of
    [new Date()] and [users] the table of the users.  A statement that
    throws takes the handler to its [catch] branch. *)
Definition submitFound (schema : Schema) (users : list User.t) (failed : string)
    (db : DB) (now : Z) (req : SubmitRequest)
    (quizId startedAt : Z) (answers : list Submission) (quiz : Quiz.t)
  : Response AttemptResult * DB :=
  let transaction := begin db in
  let questions := loadQuestions db quizId in
  let completedAt := now in
  let timeSpentSeconds := (completedAt - startedAt) / 1000 in
  let attemptId := nextAttemptId db in
  match
    created ←
      run (createAttempt users
             {| QuizAttempt.id := attemptId;
                QuizAttempt.userId := submit_userId req;
                QuizAttempt.quizId := quizId;
                QuizAttempt.score := None;
                QuizAttempt.maxScore := None;
                QuizAttempt.percentageScore := None;
                QuizAttempt.passed := None;
                QuizAttempt.startedAt := startedAt;
                QuizAttempt.completedAt := completedAt;
                QuizAttempt.timeSpentSeconds := timeSpentSeconds |}) transaction;
    gradeAnswers schema questions attemptId
      {| totalScore := 0; maxScore := 0; grading_transaction := created |} answers
  with
  | None => (Failure 500 failed, rollback transaction)
  | Some st =>
      let percentageScore := percentage (totalScore st) (maxScore st) in
      let passed := hasPassed (Quiz.passingScore quiz) percentageScore in
      let transaction :=
        onWorking (updateAttempt attemptId (totalScore st) (maxScore st)
                                 percentageScore passed) (grading_transaction st) in
      (Success 201
         {| result_score := totalScore st;
            result_maxScore := maxScore st;
            result_percentageScore := percentageScore;
            result_passed := passed;
            result_timeSpentSeconds := timeSpentSeconds;
            requiresLogin := negb (truthyNum (submit_userId req)) && passed |},
       commit transaction)
  end.

(** The guard [!quizId || !startedAt || !answers || !Array.isArray(answers)];
    [body_answers] is [None] when the field is absent or not an array. *)
Definition validated (req : SubmitRequest) : option (Z * Z * list Submission) :=
  match body_quizId req, body_startedAt req, body_answers req with
  | Some quizId, Some startedAt, Some answers =>
      if truthyNum (Some quizId) && truthyNum (Some startedAt)
      then Some (quizId, startedAt, answers) else None
  | _, _, _ => None
  end.

Definition missingFields : string :=
  "Missing required fields: quizId, startedAt, and answers array".

Definition submitQuizAttempt (schema : Schema) (users : list User.t) (db : DB)
    (now : Z) (req : SubmitRequest) : Response AttemptResult * DB :=
  match validated req with
  | None => (Failure 400 missingFields, rollback (begin db))
  | Some (quizId, startedAt, answers) =>
      match findByPk db quizId with
      | None => (Failure 404 "Quiz not found", rollback (begin db))
      | Some quiz =>
          submitFound schema users "Failed to submit quiz attempt"
                      db now req quizId startedAt answers quiz
      end
  end.

Definition submitMockTestAttempt (schema : Schema) (users : list User.t) (db : DB)
    (now : Z) (req : SubmitRequest) : Response AttemptResult * DB :=
  match validated req with
  | None => (Failure 400 missingFields, rollback (begin db))
  | Some (quizId, startedAt, answers) =>
      match findMockTest db quizId with
      | None => (Failure 404 "Mock test not found", rollback (begin db))
      | Some mockTest =>
          submitFound schema users "Failed to submit mock test attempt"
                      db now req quizId startedAt answers mockTest
      end
  end.

(** ** Vocabulary of the statements *)

(** The rows written so far by the grading loop. *)
Definition written (st : Grading) : list UserQuizAnswer.t :=
  user_quiz_answers (working (grading_transaction st)).

(** The [questionId] of a submission names a question of the quiz. *)
Definition matches (questions : list LoadedQuestion) (answer : Submission) : Prop :=
  exists q, q ∈ questions
            /\ parseInt (questionId answer) = Some (QuizQuestion.id (question q)).

(** The submissions that the grading loop does not skip. *)
Definition graded (questions : list LoadedQuestion) (answers : list Submission)
  : list Submission :=
  List.filter (fun a => bool_decide
                 (is_Some (findQuestion questions (questionId a)))) answers.

(** A row of [user_quiz_answers] names a question of the store and,
    when it names an answer, an answer of the store. *)
Definition referring (db : DB) (row : UserQuizAnswer.t) : Prop :=
  UserQuizAnswer.questionId row ∈ QuizQuestion.id <$> quiz_questions db
  /\ forall a, UserQuizAnswer.answerId row = Some a ->
                a ∈ QuizAnswer.id <$> quiz_answers db.

(** The store [db] can take the row of the submission [answer]: it
    reads [questionId] as the key of a question and [answerId], when one
    is given, as the key of an answer. *)
Definition storable (schema : Schema) (db : DB) (answer : Submission) : Prop :=
  (exists q, column schema (questionId answer) = Some q
             /\ q ∈ QuizQuestion.id <$> quiz_questions db)
  /\ (truthyId (answerId answer) = true ->
      exists a, column schema (answerId answer) = Some a
                /\ a ∈ QuizAnswer.id <$> quiz_answers db).

(** The row of the submission [answer] in the attempt [attemptId] on a
    quiz with the questions [questions]: it holds the question and the
    answer as the store has read them from the submission, the verdict
    on the submission against the question it was matched with, and the
    points of that question when the verdict is [true] and none when it
    is not. *)
Definition rowOf (schema : Schema) (questions : list LoadedQuestion) (attemptId : Z)
    (answer : Submission) (row : UserQuizAnswer.t) : Prop :=
  UserQuizAnswer.attemptId row = attemptId
  /\ column schema (questionId answer) = Some (UserQuizAnswer.questionId row)
  /\ UserQuizAnswer.answerId row
     = (if truthyId (answerId answer) then column schema (answerId answer) else None)
  /\ UserQuizAnswer.textAnswer row
     = (if truthyStr (textAnswer answer) then textAnswer answer else None)
  /\ exists q, q ∈ questions
               /\ parseInt (questionId answer) = Some (QuizQuestion.id (question q))
               /\ UserQuizAnswer.isCorrect row = judge q answer
               /\ UserQuizAnswer.pointsEarned row
                  = if UserQuizAnswer.isCorrect row
                    then QuizQuestion.points (question q) else 0.

(** The store with every correctness flag and every explanation of a
    question or an answer erased. *)
Definition scrubQuestion (q : QuizQuestion.t) : QuizQuestion.t :=
  {| QuizQuestion.id := QuizQuestion.id q;
     QuizQuestion.quizId := QuizQuestion.quizId q;
     QuizQuestion.questionText := QuizQuestion.questionText q;
     QuizQuestion.questionType := QuizQuestion.questionType q;
     QuizQuestion.points := QuizQuestion.points q;
     QuizQuestion.explanation := None;
     QuizQuestion.position := QuizQuestion.position q |}.

Definition scrubAnswer (a : QuizAnswer.t) : QuizAnswer.t :=
  {| QuizAnswer.id := QuizAnswer.id a;
     QuizAnswer.questionId := QuizAnswer.questionId a;
     QuizAnswer.answerText := QuizAnswer.answerText a;
     QuizAnswer.isCorrect := false;
     QuizAnswer.explanation := None |}.

Definition scrub (db : DB) : DB :=
  {| quizzes := quizzes db;
     quiz_questions := scrubQuestion <$> quiz_questions db;
     quiz_answers := scrubAnswer <$> quiz_answers db;
     quiz_attempts := quiz_attempts db;
     user_quiz_answers := user_quiz_answers db |}.

(** An answer as a view may show it: a hole, or an object with an
    identifier and a text and nothing else. *)
Definition bareAnswer (v : json) : Prop :=
  v = JNull \/ exists id text, v = JObj [("id", JNum id); ("answerText", JStr text)].

(** The answers a view returns: the items of the [answers] array of every
    item of its [questions] array. *)
Definition returnedAnswers (data : json) : list json :=
  q ← itemsOf (default JNull (Obj.get "questions" (fieldsOf data)));
  itemsOf (default JNull (Obj.get "answers" (fieldsOf q))).

(** A row of [user_quiz_answers] names one of the questions
    [questions], or an answer that the store [db] holds for one of
    them. *)
Definition questionOf (questions : list QuizQuestion.t) (row : UserQuizAnswer.t)
  : Prop :=
  exists q, q ∈ questions /\ UserQuizAnswer.questionId row = QuizQuestion.id q.

Definition answerOf (questions : list QuizQuestion.t) (db : DB)
    (row : UserQuizAnswer.t) : Prop :=
  exists q a, q ∈ questions /\ a ∈ quiz_answers db
              /\ QuizAnswer.questionId a = QuizQuestion.id q
              /\ UserQuizAnswer.answerId row = Some (QuizAnswer.id a).

(** A row names a question of the quiz [id] of the store [db], or an
    answer of one of its questions. *)
Definition namesQuestion (id : Z) (db : DB) (row : UserQuizAnswer.t) : Prop :=
  questionOf (questionsOf db id) row.

Definition namesAnswer (id : Z) (db : DB) (row : UserQuizAnswer.t) : Prop :=
  answerOf (questionsOf db id) db row.

(** A row with its reference to an answer cleared. *)
Definition unanswered (row : UserQuizAnswer.t) : UserQuizAnswer.t :=
  {| UserQuizAnswer.attemptId := UserQuizAnswer.attemptId row;
     UserQuizAnswer.questionId := UserQuizAnswer.questionId row;
     UserQuizAnswer.answerId := None;
     UserQuizAnswer.textAnswer := UserQuizAnswer.textAnswer row;
     UserQuizAnswer.isCorrect := UserQuizAnswer.isCorrect row;
     UserQuizAnswer.pointsEarned := UserQuizAnswer.pointsEarned row |}.

(** What is left after a cascade on quiz [id] of store [db]: the quiz,
    its questions and their answers are gone and every other quiz,
    question and answer is kept, as is every attempt.  A row of
    [user_quiz_answers] that names none of what is gone is kept; of the
    others nothing is left but, where the foreign key sets NULL, the row
    with its reference to the answer cleared. *)
Definition cascaded (schema : Schema) (id : Z) (db db' : DB) : Prop :=
  (forall q, q ∈ quizzes db' <-> q ∈ quizzes db /\ Quiz.id q <> id)
  /\ (forall q, q ∈ quiz_questions db' <->
                q ∈ quiz_questions db /\ QuizQuestion.quizId q <> id)
  /\ (forall a, a ∈ quiz_answers db' <->
                a ∈ quiz_answers db
                /\ forall q, q ∈ quiz_questions db ->
                             QuizQuestion.quizId q = id ->
                             QuizAnswer.questionId a <> QuizQuestion.id q)
  /\ quiz_attempts db' = quiz_attempts db
  /\ (forall row, row ∈ user_quiz_answers db ->
                  ~ namesQuestion id db row -> ~ namesAnswer id db row ->
                  row ∈ user_quiz_answers db')
  /\ (forall row', row' ∈ user_quiz_answers db' ->
                   ~ namesQuestion id db row' /\ ~ namesAnswer id db row'
                   /\ (row' ∈ user_quiz_answers db
                       \/ exists row, row ∈ user_quiz_answers db
                                      /\ namesAnswer id db row
                                      /\ answerId_onDelete schema = SetNull
                                      /\ row' = unanswered row)).

(** A foreign key of [user_quiz_answers] stands in the way of the
    deletion of quiz [id]: a row names an answer of the quiz and the key
    of [answerId] has no action, or a row names a question of the quiz
    and the key of [questionId] does not cascade. *)
Definition hindered (schema : Schema) (id : Z) (db : DB) : Prop :=
  (answerId_onDelete schema = NoAction
   /\ exists row, row ∈ user_quiz_answers db /\ namesAnswer id db row)
  \/ (questionId_onDelete schema <> Cascade
      /\ exists row, row ∈ user_quiz_answers db /\ namesQuestion id db row).

(** Every defined slot of an array, and every defined property that is
    not an index, satisfies [P]. *)
Definition slotOk {A} (P : A -> Prop) (o : option A) : Prop :=
  forall x, o = Some x -> P x.

Definition arrayOk {A} (P : A -> Prop) (a : jsarray A) : Prop :=
  Forall (slotOk P) (elems a) /\ map_Forall (fun _ v => slotOk P v) (props a).

(** A question as a view may show it: the five loaded attributes and the
    answers, each of them bare. *)
Definition bareQuestion (v : json) : Prop :=
  exists id text type points position answers,
    v = JObj [("id", JNum id); ("questionText", JStr text);
              ("questionType", JStr type); ("points", JNum points);
              ("position", JNum position); ("answers", JArr answers)]
    /\ Forall bareAnswer answers.

(** The property names a view is made of. *)
Definition viewKeys : list string :=
  ["id"; "lessonId"; "category"; "difficulty"; "title"; "description";
   "timeLimit"; "passingScore"; "questions"; "questionText"; "questionType";
   "points"; "position"; "answers"; "answerText"; "metadata";
   "totalAvailableQuestions"; "returnedQuestions"; "randomized";
   "answersShuffled"; "seed"].

(** A binary64 value that is at most [Y / 2^s]: plus zero, or a positive
    number [m * 2^e] with [e <= -s] and [m <= Y * 2^(-s-e)]. *)
Definition le_dyadic (x : spec_float) (Y s : Z) : Prop :=
  x = S754_zero false
  \/ exists m e, x = S754_finite false m e /\ e <= - s
                 /\ Zpos m <= Y * 2 ^ (- s - e).

(** A positive integer [z], held exactly with a full mantissa. *)
Definition holds (x : spec_float) (z : Z) : Prop :=
  exists m e, x = S754_finite false m e /\ -52 <= e <= 0
              /\ Zpos m = z * 2 ^ (- e) /\ digits2_pos m = 53%positive.


(** ** A store for the examples *)

Module Example.

(** A store that reads a string as an integer when the string is the
    decimal numeral of the integer, and whose foreign keys on
    [user_quiz_answers] have no action; and one whose keys cascade. *)
Definition numeral (s : string) : option Z :=
  n ← Str.parseInt s; if String.eqb (pretty n) s then Some n else None.

Definition schema : Schema :=
  {| integer := numeral; answerId_onDelete := NoAction;
     questionId_onDelete := NoAction |}.


(** Quiz 1 belongs to lesson 7 and passes at 58 percent; quiz 2 is a
    standalone mock test. *)
Definition quiz1 : Quiz.t :=
  Quiz.Build 1 (Some 7) None None "Kinematics" None (Some 30) (Some 58).
Definition quiz2 : Quiz.t :=
  Quiz.Build 2 None (Some "Physics") (Some "Easy") "Mock test" None None None.

Definition question1 : QuizQuestion.t :=
  QuizQuestion.Build 1 1 "2 + 2" single_choice 29 (Some "sum") 0.
Definition question2 : QuizQuestion.t :=
  QuizQuestion.Build 2 1 "3 + 3" single_choice 21 None 1.
Definition question3 : QuizQuestion.t :=
  QuizQuestion.Build 3 2 "Capital of France" fill_blank 4 None 0.
Definition question4 : QuizQuestion.t :=
  QuizQuestion.Build 4 2 "Leave blank" fill_blank 1 None 1.

Definition allAnswers : list QuizAnswer.t :=
  [QuizAnswer.Build 10 1 "4" true None;
   QuizAnswer.Build 11 1 "5" false None;
   QuizAnswer.Build 12 2 "6" true None;
   QuizAnswer.Build 13 2 "7" false None;
   QuizAnswer.Build 14 3 "Paris" true None;
   QuizAnswer.Build 15 3 "paris " true None;
   QuizAnswer.Build 16 4 " " true None].

Definition store0 : DB :=
  {| quizzes := [quiz1; quiz2];
     quiz_questions := [question1; question2; question3; question4];
     quiz_answers := allAnswers;
     quiz_attempts := [];
     user_quiz_answers := [] |}.

(** The same store with the correctness flags of question 1 exchanged. *)
Definition store0' : DB :=
  {| quizzes := [quiz1; quiz2];
     quiz_questions := [question1; question2; question3; question4];
     quiz_answers :=
       QuizAnswer.Build 10 1 "4" false None
       :: QuizAnswer.Build 11 1 "5" true None
       :: drop 2 allAnswers;
     quiz_attempts := [];
     user_quiz_answers := [] |}.



Definition plain (id : Z) : ViewRequest :=
  {| params_id := id; randomize := None; questionCount := None;
     userSeed := None; shuffleAnswers := None;
     req_userId := None; req_ip := None |}.

(** Question 1 answered with its correct answer, question 2 with a
    wrong one: 29 points out of 50. *)
Definition submission : SubmitRequest :=
  {| body_quizId := Some 1;
     body_startedAt := Some 1000;
     body_answers :=
       Some [ {| questionId := IdNum 1; answerId := IdNum 10; textAnswer := None |};
              {| questionId := IdStr "2"; answerId := IdNum 13; textAnswer := None |} ];
     submit_userId := Some 5 |}.


Definition capital : LoadedQuestion :=
  {| question := question3; answers := answersOf store0 3 |}.
Definition blank : LoadedQuestion :=
  {| question := question4; answers := answersOf store0 4 |}.

Definition paris : Submission :=
  {| questionId := IdNum 3; answerId := IdAbsent; textAnswer := Some " PARIS " |}.
Definition empty : Submission :=
  {| questionId := IdNum 4; answerId := IdAbsent; textAnswer := Some "" |}.


(** A randomized view of quiz 1 for user 2, answers shuffled too. *)
Definition shuffled : ViewRequest :=
  {| params_id := 1; randomize := Some "true"; questionCount := None;
     userSeed := None; shuffleAnswers := Some "true";
     req_userId := Some 2; req_ip := None |}.

End Example.


(** ** Authentication ([verifyToken], [optionalAuth], [isAdmin],
    [isInstructor]) *)

(** [User.findByPk(id)]; the key is [undefined] when the payload of the
    token carries none. *)
Definition findUser (users : list User.t) (id : option Z) : option User.t :=
  match id with
  | Some id => List.find (fun u => User.id u =? id) users
  | None => None
  end.

(** What [jwt.verify(token, secret)] does: it returns the payload, of
    which [id] is read, or it throws an error whose [name] is
    ['TokenExpiredError'] or another one. *)
Inductive Verified := Decoded (id : option Z) | TokenExpiredError | OtherError.

(** [req.userId] and [req.userRole]. *)
Record Identity := {
  userId : option Z;
  userRole : option Role
}.

(** What a middleware does: it calls [next()] with the request as it has
    left it, or it answers by itself. *)
Inductive Next :=
| Continue (identity : Identity)
| Respond (status : Z) (message : string).

(** [s.split(sep)] for a separator of one character. *)
Fixpoint split (sep : ascii) (s : string) : list string :=
  match s with
  | EmptyString => [EmptyString]
  | String c s' =>
      if Ascii.eqb c sep then EmptyString :: split sep s'
      else match split sep s' with
           | piece :: pieces => String c piece :: pieces
           | [] => [String c EmptyString]
           end
  end.

(** [s.startsWith(prefix)]. *)
Definition startsWith (s prefix : string) : bool := String.prefix prefix s.

Section Authentication.
Variable jwt_verify : string -> Verified.
Variable users : list User.t.

(** [jwt.verify(authHeader.split(' ')[1], config.jwtSecret)]; without a
    token [jwt.verify] throws. *)
Definition decode (authHeader : string) : Verified :=
  match split " "%char authHeader !! 1%nat with
  | Some token => jwt_verify token
  | None => OtherError
  end.

(** The guard [!authHeader || !authHeader.startsWith('Bearer ')]. *)
Definition noToken (authorization : option string) : bool :=
  negb (truthyStr authorization)
  || negb (startsWith (default "" authorization) "Bearer ").

Definition verifyToken (authorization : option string) : Next :=
  if noToken authorization then Respond 401 "No token provided"
  else
    match decode (default "" authorization) with
    | Decoded id =>
        match findUser users id with
        | Some user =>
            Continue {| userId := id; userRole := Some (User.role user) |}
        | None => Respond 401 "User not found"
        end
    | TokenExpiredError => Respond 401 "Token expired"
    | OtherError => Respond 401 "Unauthorized"
    end.

(** [optionalAuth] always calls [next()]; the result is the request as
    the handler sees it. *)
Definition optionalAuth (authorization : option string) : Identity :=
  if noToken authorization then {| userId := None; userRole := None |}
  else
    match decode (default "" authorization) with
    | Decoded id =>
        {| userId := id; userRole := User.role <$> findUser users id |}
    | _ => {| userId := None; userRole := None |}
    end.

End Authentication.

Definition isAdmin (identity : Identity) : Next :=
  if bool_decide (userRole identity <> Some admin)
  then Respond 403 "Requires admin role"
  else Continue identity.

Definition isInstructor (identity : Identity) : Next :=
  if bool_decide (userRole identity <> Some instructor)
     && bool_decide (userRole identity <> Some admin)
  then Respond 403 "Requires instructor role"
  else Continue identity.

(** ** Quiz creation ([createQuiz], [createMockTest]) *)

(** The request body.  A field is [None] when it is absent ([undefined])
    or [null]; a text is a string, a number an integer and [isCorrect] a
    boolean when they are present; [questions] and [answers] are [None]
    when they are absent or not arrays.  The handlers tell an absent
    [isCorrect] from [null], which is [Some None] here. *)
Module AnswerInput.
Record t := Build {
  answerText : option string;
  isCorrect : option (option bool);
  explanation : option string
}.
End AnswerInput.

Module QuestionInput.
Record t := Build {
  questionText : option string;
  questionType : option string;
  points : option Z;
  explanation : option string;
  answers : option (list AnswerInput.t)
}.
End QuestionInput.

Module CreateBody.
Record t := Build {
  lessonId : option Z;
  title : option string;
  description : option string;
  timeLimit : option Z;
  passingScore : option Z;
  category : option string;
  difficulty : option string;
  questions : option (list QuestionInput.t)
}.
End CreateBody.

(** The value of the [ENUM] column that a string names; the store
    rejects any other string, and the insertion throws. *)
Definition questionTypeOf (name : string) : option QuestionType :=
  List.find (fun t => String.eqb (QuestionType_name t) name)
            [multiple_choice; single_choice; true_false; fill_blank].

(** The primary key given to a new row of a table with the keys [ids]. *)
Definition nextId (ids : list Z) : Z := 1 + foldr Z.max 0 ids.

Definition insertQuiz (row : Quiz.t) (db : DB) : DB :=
  {| quizzes := quizzes db ++ [row];
     quiz_questions := quiz_questions db;
     quiz_answers := quiz_answers db;
     quiz_attempts := quiz_attempts db;
     user_quiz_answers := user_quiz_answers db |}.

Definition insertQuestion (row : QuizQuestion.t) (db : DB) : DB :=
  {| quizzes := quizzes db;
     quiz_questions := quiz_questions db ++ [row];
     quiz_answers := quiz_answers db;
     quiz_attempts := quiz_attempts db;
     user_quiz_answers := user_quiz_answers db |}.

Definition insertAnswer (row : QuizAnswer.t) (db : DB) : DB :=
  {| quizzes := quizzes db;
     quiz_questions := quiz_questions db;
     quiz_answers := quiz_answers db ++ [row];
     quiz_attempts := quiz_attempts db;
     user_quiz_answers := user_quiz_answers db |}.

(** Where a loop of the handler stands: it goes on with the transaction,
    or the handler has answered (a [return] from inside the loop, or the
    [catch] branch). *)
Inductive Outcome :=
| Go (transaction : Txn)
| Stop (status : Z) (message : string).

(** The loop [for (const answer of answers)].  The guard lets an
    [isCorrect] that is [null] through, and the column does not take it:
    the insertion throws. *)
Fixpoint createAnswers (failed : string) (questionId : Z)
    (answers : list AnswerInput.t) (transaction : Txn) : Outcome :=
  match answers with
  | [] => Go transaction
  | answer :: answers' =>
      match AnswerInput.isCorrect answer with
      | Some isCorrect =>
          if truthyStr (AnswerInput.answerText answer) then
            match isCorrect with
            | Some isCorrect =>
                createAnswers failed questionId answers'
                  (onWorking
                     (insertAnswer
                        {| QuizAnswer.id :=
                             nextId (QuizAnswer.id
                                       <$> quiz_answers (working transaction));
                           QuizAnswer.questionId := questionId;
                           QuizAnswer.answerText :=
                             default "" (AnswerInput.answerText answer);
                           QuizAnswer.isCorrect := isCorrect;
                           QuizAnswer.explanation := AnswerInput.explanation answer |})
                     transaction)
            | None => Stop 500 failed
            end
          else Stop 400 "Invalid answer: missing required fields"
      | None => Stop 400 "Invalid answer: missing required fields"
      end
  end.

Definition invalidQuestion (i : nat) : string :=
  "Invalid question at index " +:+ pretty i +:+ ": missing required fields".

(** The loop [for (let i = 0; i < questions.length; i++)], from index
    [i] on. *)
Fixpoint createQuestions (failed : string) (quizId : Z) (i : nat)
    (questions : list QuestionInput.t) (transaction : Txn) : Outcome :=
  match questions with
  | [] => Go transaction
  | q :: questions' =>
      match QuestionInput.answers q with
      | Some answers =>
          if truthyStr (QuestionInput.questionText q)
             && truthyStr (QuestionInput.questionType q) then
            match questionTypeOf (default "" (QuestionInput.questionType q)) with
            | Some questionType =>
                let id := nextId (QuizQuestion.id
                                    <$> quiz_questions (working transaction)) in
                let transaction :=
                  onWorking
                    (insertQuestion
                       {| QuizQuestion.id := id;
                          QuizQuestion.quizId := quizId;
                          QuizQuestion.questionText :=
                            default "" (QuestionInput.questionText q);
                          QuizQuestion.questionType := questionType;
                          QuizQuestion.points :=
                            if truthyNum (QuestionInput.points q)
                            then default 0 (QuestionInput.points q) else 1;
                          QuizQuestion.explanation := QuestionInput.explanation q;
                          QuizQuestion.position := Z.of_nat i |})
                    transaction in
                match createAnswers failed id answers transaction with
                | Go transaction =>
                    createQuestions failed quizId (S i) questions' transaction
                | Stop status message => Stop status message
                end
            | None => Stop 500 failed
            end
          else Stop 400 (invalidQuestion i)
      | None => Stop 400 (invalidQuestion i)
      end
  end.

(** A quiz with its included questions and their answers
    ([Quiz.findByPk(id, { include: ... })], every column loaded). *)
Definition loadQuiz (db : DB) (id : Z) : option (Quiz.t * list LoadedQuestion) :=
  (fun quiz => (quiz, loadQuestions db (Quiz.id quiz))) <$> findByPk db id.

(** What a handler that writes a quiz answers with: the message and the
    quiz as it is loaded afterwards. *)
Abbreviation Written :=
  (Response (string * option (Quiz.t * list LoadedQuestion)) * DB)%type
  (only parsing).

(** The handler once the body has passed the first guard; [row] is the
    quiz to insert, but for its primary key. *)
Definition createWith (failed created : string) (db : DB) (row : Z -> Quiz.t)
    (questions : list QuestionInput.t) : Written :=
  let transaction := begin db in
  let id := nextId (Quiz.id <$> quizzes (working transaction)) in
  let transaction := onWorking (insertQuiz (row id)) transaction in
  match createQuestions failed id 0 questions transaction with
  | Stop status message => (Failure status message, rollback transaction)
  | Go transaction =>
      let db := commit transaction in
      (Success 201 (created, loadQuiz db id), db)
  end.

(** [lessons] are the keys of the table of the lessons: [Quiz.create]
    throws when [lessonId] is none of them. *)
Definition createQuiz (lessons : list Z) (db : DB) (body : CreateBody.t) : Written :=
  match CreateBody.questions body with
  | Some (q :: questions) =>
      if truthyNum (CreateBody.lessonId body) && truthyStr (CreateBody.title body)
      then
        if bool_decide (default 0 (CreateBody.lessonId body) ∈ lessons) then
          createWith "Failed to create quiz" "Quiz created successfully" db
            (fun id =>
               {| Quiz.id := id;
                  Quiz.lessonId := CreateBody.lessonId body;
                  Quiz.category := None;
                  Quiz.difficulty := None;
                  Quiz.title := default "" (CreateBody.title body);
                  Quiz.description := CreateBody.description body;
                  Quiz.timeLimit := CreateBody.timeLimit body;
                  Quiz.passingScore := CreateBody.passingScore body |})
            (q :: questions)
        else (Failure 500 "Failed to create quiz", rollback (begin db))
      else
        (Failure 400 "Missing required fields: lessonId, title, and questions array",
         rollback (begin db))
  | _ =>
      (Failure 400 "Missing required fields: lessonId, title, and questions array",
       rollback (begin db))
  end.

Definition createMockTest (db : DB) (body : CreateBody.t) : Written :=
  match CreateBody.questions body with
  | Some (q :: questions) =>
      if truthyStr (CreateBody.title body) then
        createWith "Failed to create mock test" "Mock test created successfully" db
          (fun id =>
             {| Quiz.id := id;
                Quiz.lessonId := None;
                Quiz.category := CreateBody.category body;
                Quiz.difficulty := CreateBody.difficulty body;
                Quiz.title := default "" (CreateBody.title body);
                Quiz.description := CreateBody.description body;
                Quiz.timeLimit := CreateBody.timeLimit body;
                Quiz.passingScore := CreateBody.passingScore body |})
          (q :: questions)
      else
        (Failure 400 "Missing required fields: title and questions array",
         rollback (begin db))
  | _ =>
      (Failure 400 "Missing required fields: title and questions array",
       rollback (begin db))
  end.

(** ** Quiz update ([updateQuiz], [updateMockTest]) *)

(** The request body.  [title] is [None] when it is absent or [null];
    of the other fields [None] is absent ([undefined]) and [Some None]
    is [null]. *)
Module UpdateBody.
Record t := Build {
  title : option string;
  description : option (option string);
  timeLimit : option (option Z);
  passingScore : option (option Z);
  category : option (option string);
  difficulty : option (option string)
}.
End UpdateBody.

(** [x !== undefined ? x : old]. *)
Definition orKeep {A} (x : option A) (old : A) : A :=
  match x with Some x => x | None => old end.

(** [title || quiz.title]. *)
Definition titleOr (title : option string) (old : string) : string :=
  if truthyStr title then default "" title else old.

(** The columns [updateQuiz] passes to [update], computed from the body
    and from the quiz that was found, written to the row [q]; the other
    columns of the row stay. *)
Definition quizValues (body : UpdateBody.t) (quiz q : Quiz.t) : Quiz.t :=
  {| Quiz.id := Quiz.id q;
     Quiz.lessonId := Quiz.lessonId q;
     Quiz.category := Quiz.category q;
     Quiz.difficulty := Quiz.difficulty q;
     Quiz.title := titleOr (UpdateBody.title body) (Quiz.title quiz);
     Quiz.description := orKeep (UpdateBody.description body) (Quiz.description quiz);
     Quiz.timeLimit := orKeep (UpdateBody.timeLimit body) (Quiz.timeLimit quiz);
     Quiz.passingScore :=
       orKeep (UpdateBody.passingScore body) (Quiz.passingScore quiz) |}.

(** The columns [updateMockTest] passes to [update]. *)
Definition mockTestValues (body : UpdateBody.t) (mockTest q : Quiz.t) : Quiz.t :=
  {| Quiz.id := Quiz.id q;
     Quiz.lessonId := Quiz.lessonId q;
     Quiz.category := orKeep (UpdateBody.category body) (Quiz.category mockTest);
     Quiz.difficulty :=
       orKeep (UpdateBody.difficulty body) (Quiz.difficulty mockTest);
     Quiz.title := titleOr (UpdateBody.title body) (Quiz.title mockTest);
     Quiz.description :=
       orKeep (UpdateBody.description body) (Quiz.description mockTest);
     Quiz.timeLimit := orKeep (UpdateBody.timeLimit body) (Quiz.timeLimit mockTest);
     Quiz.passingScore :=
       orKeep (UpdateBody.passingScore body) (Quiz.passingScore mockTest) |}.

(** [quiz.update(values, { transaction })]: the row with the primary key
    [id] takes the columns that [update] was given. *)
Definition updateRow (id : Z) (values : Quiz.t -> Quiz.t) (db : DB) : DB :=
  {| quizzes := (fun q => if Quiz.id q =? id then values q else q) <$> quizzes db;
     quiz_questions := quiz_questions db;
     quiz_answers := quiz_answers db;
     quiz_attempts := quiz_attempts db;
     user_quiz_answers := user_quiz_answers db |}.

(** The handler after the lookup. *)
Definition updateFound (updated : string) (db : DB) (id : Z)
    (values : Quiz.t -> Quiz.t) (quiz : Quiz.t) : Written :=
  let transaction := begin db in
  let transaction := onWorking (updateRow (Quiz.id quiz) values) transaction in
  let db := commit transaction in
  (Success 200 (updated, loadQuiz db id), db).

Definition updateQuiz (db : DB) (id : Z) (body : UpdateBody.t) : Written :=
  match findByPk db id with
  | None => (Failure 404 "Quiz not found", rollback (begin db))
  | Some quiz =>
      updateFound "Quiz updated successfully" db id (quizValues body quiz) quiz
  end.

Definition updateMockTest (db : DB) (id : Z) (body : UpdateBody.t) : Written :=
  match findMockTest db id with
  | None => (Failure 404 "Mock test not found", rollback (begin db))
  | Some mockTest =>
      updateFound "Mock test updated successfully" db id
                  (mockTestValues body mockTest) mockTest
  end.

(** ** One attempt ([getQuizAttempt], [getMockTestAttempt]) *)

Record AttemptRequest := {
  attempt_params_id : Z;
  attempt_userId : option Z;
  attempt_userRole : option Role
}.

(** A row of [user_quiz_answers] with its included question (and the
    answers of the question) and its included answer.  A stored
    identifier is read as the integer it denotes. *)
Record AnsweredView := {
  answered_row : UserQuizAnswer.t;
  answered_question : option LoadedQuestion;
  answered_answer : option QuizAnswer.t
}.

Record AttemptView := {
  view_attempt : QuizAttempt.t;
  view_quiz : option (list (string * json));
  view_userAnswers : list AnsweredView
}.

Definition answeredView (db : DB) (row : UserQuizAnswer.t) : AnsweredView :=
  {| answered_row := row;
     answered_question :=
       (fun q => {| question := q; answers := answersOf db (QuizQuestion.id q) |})
         <$> List.find (fun q => QuizQuestion.id q =? UserQuizAnswer.questionId row)
                       (quiz_questions db);
     answered_answer :=
       n ← UserQuizAnswer.answerId row;
       List.find (fun a => QuizAnswer.id a =? n) (quiz_answers db) |}.

(** The included [userAnswers] of an attempt. *)
Definition userAnswersOf (db : DB) (attemptId : Z) : list AnsweredView :=
  answeredView db
    <$> List.filter (fun row => UserQuizAnswer.attemptId row =? attemptId)
                    (user_quiz_answers db).

(** The test [attempt.userId && (!userId || (attempt.userId !== userId
    && req.userRole !== 'admin'))]. *)
Definition forbidden (req : AttemptRequest) (attempt : QuizAttempt.t) : bool :=
  truthyNum (QuizAttempt.userId attempt)
  && (negb (truthyNum (attempt_userId req))
      || (bool_decide (QuizAttempt.userId attempt <> attempt_userId req)
          && bool_decide (attempt_userRole req <> Some admin))).

(** The handler after the lookup; [quiz] is the included quiz, of which
    [attributes] are loaded. *)
Definition attemptFound (db : DB) (req : AttemptRequest) (attributes : list string)
    (quiz : option Quiz.t) (attempt : QuizAttempt.t) : Response AttemptView :=
  if forbidden req attempt then Failure 403 "Not authorized to view this attempt"
  else
    Success 200
      {| view_attempt := attempt;
         view_quiz := (fun quiz => Obj.pick attributes (Quiz.toJSON quiz)) <$> quiz;
         view_userAnswers := userAnswersOf db (QuizAttempt.id attempt) |}.

Definition getQuizAttempt (db : DB) (req : AttemptRequest) : Response AttemptView :=
  match List.find (fun a => QuizAttempt.id a =? attempt_params_id req)
                  (quiz_attempts db) with
  | None => Failure 404 "Quiz attempt not found"
  | Some attempt =>
      attemptFound db req ["id"; "title"; "description"; "passingScore"]
                   (findByPk db (QuizAttempt.quizId attempt)) attempt
  end.

(** The quiz is included with [where: { lessonId: null }], which makes
    the join an inner one: an attempt whose quiz is not a mock test is
    not found. *)
Definition getMockTestAttempt (db : DB) (req : AttemptRequest)
  : Response AttemptView :=
  match List.find
          (fun a => (QuizAttempt.id a =? attempt_params_id req)
                    && bool_decide (is_Some (findMockTest db (QuizAttempt.quizId a))))
          (quiz_attempts db) with
  | None => Failure 404 "Mock test attempt not found"
  | Some attempt =>
      attemptFound db req
        ["id"; "title"; "description"; "passingScore"; "category"; "difficulty"]
        (findMockTest db (QuizAttempt.quizId attempt)) attempt
  end.

(** ** Statistics ([getQuizStatistics], [getMockTestStatistics]) *)

(** [QuizAttempt.count({ where: { quizId } })] and
    [QuizAttempt.count({ where: { quizId, passed: true } })]. *)
Definition totalAttempts (db : DB) (quizId : Z) : Z :=
  Z.of_nat (attemptCount db quizId).

Definition passedAttempts (db : DB) (quizId : Z) : Z :=
  Z.of_nat (length (List.filter
                      (fun a => (QuizAttempt.quizId a =? quizId)
                                && bool_decide (QuizAttempt.passed a = Some true))
                      (quiz_attempts db))).

(** [totalAttempts > 0 ? (passedAttempts / totalAttempts) * 100 : 0]. *)
Definition passRate (db : DB) (quizId : Z) : float :=
  if 0 <? totalAttempts db quizId
  then PrimFloat.mul (PrimFloat.div (JS.of_Z (passedAttempts db quizId))
                                    (JS.of_Z (totalAttempts db quizId)))
                     (JS.of_Z 100)
  else JS.of_Z 0.

Record QuestionStat := {
  stat_id : Z;
  stat_questionText : string;
  stat_questionType : QuestionType;
  stat_points : Z;
  stat_totalAnswers : Z;
  stat_correctAnswers : Z;
  stat_correctPercentage : float
}.

(** The callback of [questions.map]; [userAnswers] are the included
    rows of the question. *)
Definition questionStat (question : QuizQuestion.t)
    (userAnswers : list UserQuizAnswer.t) : QuestionStat :=
  let totalAnswers := Z.of_nat (length userAnswers) in
  let correctAnswers :=
    Z.of_nat (length (List.filter UserQuizAnswer.isCorrect userAnswers)) in
  let correctPercentage :=
    if 0 <? totalAnswers
    then PrimFloat.mul (PrimFloat.div (JS.of_Z correctAnswers) (JS.of_Z totalAnswers))
                       (JS.of_Z 100)
    else JS.of_Z 0 in
  {| stat_id := QuizQuestion.id question;
     stat_questionText := QuizQuestion.questionText question;
     stat_questionType := QuizQuestion.questionType question;
     stat_points := QuizQuestion.points question;
     stat_totalAnswers := totalAnswers;
     stat_correctAnswers := correctAnswers;
     stat_correctPercentage := correctPercentage |}.

(** [QuizQuestion.findAll({ where: { quizId }, include: userAnswers })]
    mapped to the statistics of each question. *)
Definition questionStats (db : DB) (quizId : Z) : list QuestionStat :=
  (fun question =>
     questionStat question
       (List.filter
          (fun row => UserQuizAnswer.questionId row =? QuizQuestion.id question)
          (user_quiz_answers db)))
    <$> questionsOf db quizId.

(** ** Routes ([quiz.routes.js], [mocktest.routes.js]) *)

Section Routes.
Variable jwt_verify : string -> Verified.
Variable schema : Schema.
Variable users : list User.t.
Variable lessons : list Z.

(** [router.METHOD(path, verifyToken, isInstructor, handler)]. *)
Definition instructorOnly {A} (authorization : option string) (db : DB)
    (handler : Response A * DB) : Response A * DB :=
  match verifyToken jwt_verify users authorization with
  | Respond status message => (Failure status message, db)
  | Continue identity =>
      match isInstructor identity with
      | Respond status message => (Failure status message, db)
      | Continue _ => handler
      end
  end.

Definition post_quiz (authorization : option string) (db : DB)
    (body : CreateBody.t) : Written :=
  instructorOnly authorization db (createQuiz lessons db body).

Definition put_quiz (authorization : option string) (db : DB) (id : Z)
    (body : UpdateBody.t) : Written :=
  instructorOnly authorization db (updateQuiz db id body).

Definition delete_quiz (authorization : option string) (db : DB) (id : Z)
  : Response string * DB :=
  instructorOnly authorization db (deleteQuiz schema db id).

Definition post_mocktest (authorization : option string) (db : DB)
    (body : CreateBody.t) : Written :=
  instructorOnly authorization db (createMockTest db body).

Definition put_mocktest (authorization : option string) (db : DB) (id : Z)
    (body : UpdateBody.t) : Written :=
  instructorOnly authorization db (updateMockTest db id body).

Definition delete_mocktest (authorization : option string) (db : DB) (id : Z)
  : Response string * DB :=
  instructorOnly authorization db (deleteMockTest schema db id).

(** [router.post('/attempts/submit', optionalAuth, handler)]: the
    handler reads [req.userId] as the middleware has left it. *)
Definition identified (identity : Identity) (req : SubmitRequest) : SubmitRequest :=
  {| body_quizId := body_quizId req;
     body_startedAt := body_startedAt req;
     body_answers := body_answers req;
     submit_userId := userId identity |}.

Definition post_quiz_attempt (authorization : option string) (db : DB) (now : Z)
    (req : SubmitRequest) : Response AttemptResult * DB :=
  submitQuizAttempt schema users db now
    (identified (optionalAuth jwt_verify users authorization) req).

Definition post_mocktest_attempt (authorization : option string) (db : DB) (now : Z)
    (req : SubmitRequest) : Response AttemptResult * DB :=
  submitMockTestAttempt schema users db now
    (identified (optionalAuth jwt_verify users authorization) req).

(** [router.get('/attempts/:id', optionalAuth, handler)]. *)
Definition attemptRequest (identity : Identity) (id : Z) : AttemptRequest :=
  {| attempt_params_id := id;
     attempt_userId := userId identity;
     attempt_userRole := userRole identity |}.

Definition get_quiz_attempt (authorization : option string) (db : DB) (id : Z)
  : Response AttemptView :=
  getQuizAttempt db (attemptRequest (optionalAuth jwt_verify users authorization) id).

Definition get_mocktest_attempt (authorization : option string) (db : DB) (id : Z)
  : Response AttemptView :=
  getMockTestAttempt db
    (attemptRequest (optionalAuth jwt_verify users authorization) id).

End Routes.

(** ** Vocabulary of the statements about requests *)

(** The [Authorization] header is ["Bearer "] followed by a token that
    [jwt.verify] accepts, with a payload that names the user [id]. *)
Definition bearer (jwt_verify : string -> Verified) (authorization : option string)
    (id : Z) : Prop :=
  exists authHeader token,
    authorization = Some authHeader
    /\ startsWith authHeader "Bearer " = true
    /\ split " "%char authHeader !! 1%nat = Some token
    /\ jwt_verify token = Decoded (Some id).

(** The header names a user that exists and is an instructor or an
    administrator. *)
Definition authorized (jwt_verify : string -> Verified) (users : list User.t)
    (authorization : option string) : Prop :=
  exists user,
    bearer jwt_verify authorization (User.id user)
    /\ findUser users (Some (User.id user)) = Some user
    /\ (User.role user = instructor \/ User.role user = admin).

(** A response of one of the two middlewares that refuse a request. *)
Definition refused {A} (db : DB) (result : Response A * DB) : Prop :=
  exists status message,
    result = (Failure status message, db) /\ (status = 401 \/ status = 403).

(** ** Vocabulary of the statements about creation *)

(** The keys [news], given one after the other to new rows of a table
    that held the keys [olds]: each is above the ones before it. *)
Definition increasing (olds news : list Z) : Prop :=
  StronglySorted Z.lt news /\ forall o n, o ∈ olds -> n ∈ news -> o < n.

(** The row of an answer of a request, under the question [questionId]. *)
Definition answerRow (questionId : Z) (answer : AnswerInput.t) (row : QuizAnswer.t)
  : Prop :=
  QuizAnswer.questionId row = questionId
  /\ AnswerInput.answerText answer = Some (QuizAnswer.answerText row)
  /\ QuizAnswer.answerText row <> ""
  /\ AnswerInput.isCorrect answer = Some (Some (QuizAnswer.isCorrect row))
  /\ QuizAnswer.explanation row = AnswerInput.explanation answer.

(** The row of a question of a request, with the rows of its answers:
    the question of quiz [quizId] at [position]. *)
Definition questionRow (quizId position : Z) (q : QuestionInput.t)
    (row : LoadedQuestion) : Prop :=
  QuizQuestion.quizId (question row) = quizId
  /\ QuestionInput.questionText q = Some (QuizQuestion.questionText (question row))
  /\ QuizQuestion.questionText (question row) <> ""
  /\ QuestionInput.questionType q
     = Some (QuestionType_name (QuizQuestion.questionType (question row)))
  /\ QuizQuestion.points (question row)
     = match QuestionInput.points q with
       | Some points => if points =? 0 then 1 else points
       | None => 1
       end
  /\ QuizQuestion.explanation (question row) = QuestionInput.explanation q
  /\ QuizQuestion.position (question row) = position
  /\ exists given, QuestionInput.answers q = Some given
                   /\ Forall2 (answerRow (QuizQuestion.id (question row)))
                              given (answers row).

(** The rows of the questions of a request, in the order of the request,
    at the positions from [first] on. *)
Definition questionRows (quizId : Z) (first : nat) (questions : list QuestionInput.t)
    (rows : list LoadedQuestion) : Prop :=
  length rows = length questions
  /\ forall k q row, questions !! k = Some q -> rows !! k = Some row ->
                     questionRow quizId (Z.of_nat (first + k)) q row.

(** The store [db'] is the store [db] with one quiz, its questions and
    their answers added at the end of their tables, under new keys. *)
Definition extended (db db' : DB) (quiz : Quiz.t) (rows : list LoadedQuestion)
  : Prop :=
  quizzes db' = quizzes db ++ [quiz]
  /\ quiz_questions db' = quiz_questions db ++ (question <$> rows)
  /\ quiz_answers db' = quiz_answers db ++ (rows ≫= answers)
  /\ quiz_attempts db' = quiz_attempts db
  /\ user_quiz_answers db' = user_quiz_answers db
  /\ (forall old, old ∈ quizzes db -> Quiz.id old < Quiz.id quiz)
  /\ increasing (QuizQuestion.id <$> quiz_questions db)
                (QuizQuestion.id ∘ question <$> rows)
  /\ increasing (QuizAnswer.id <$> quiz_answers db)
                (QuizAnswer.id <$> (rows ≫= answers)).

(** Every question belongs to a quiz of the store, every answer to a
    question and every attempt to a quiz. *)
Definition consistent (db : DB) : Prop :=
  (forall q, q ∈ quiz_questions db ->
             exists quiz, quiz ∈ quizzes db /\ Quiz.id quiz = QuizQuestion.quizId q)
  /\ (forall a, a ∈ quiz_answers db ->
                exists q, q ∈ quiz_questions db
                          /\ QuizQuestion.id q = QuizAnswer.questionId a)
  /\ (forall t, t ∈ quiz_attempts db ->
                exists quiz, quiz ∈ quizzes db /\ Quiz.id quiz = QuizAttempt.quizId t).

(** The foreign keys of [user_quiz_answers] hold: every row names a
    question and, when it names an answer, an answer of the store. *)
Definition referential (db : DB) : Prop :=
  forall row, row ∈ user_quiz_answers db -> referring db row.

(** The columns of a quiz that a creation request gives. *)
Definition quizRow (body : CreateBody.t) (quiz : Quiz.t) : Prop :=
  CreateBody.title body = Some (Quiz.title quiz)
  /\ Quiz.title quiz <> ""
  /\ Quiz.description quiz = CreateBody.description body
  /\ Quiz.timeLimit quiz = CreateBody.timeLimit body
  /\ Quiz.passingScore quiz = CreateBody.passingScore body.

(** What a creation handler may do on the store [db] with the request
    [body]: refuse and leave the store alone, or answer 201 and add the
    quiz of the request, with its questions and answers, to the store,
    and answer with the quiz as it is loaded from there.  [standalone]
    tells a mock test from the quiz of a lesson. *)
Definition creates (standalone : bool) (db : DB) (body : CreateBody.t)
    (result : Written) : Prop :=
  match result with
  | (Failure status message, db') => (status = 400 \/ status = 500) /\ db' = db
  | (Success status (message, data), db') =>
      status = 201
      /\ exists quiz rows given,
          extended db db' quiz rows
          /\ data = loadQuiz db' (Quiz.id quiz)
          /\ quizRow body quiz
          /\ CreateBody.questions body = Some given
          /\ given <> []
          /\ questionRows (Quiz.id quiz) 0 given rows
          /\ if standalone
             then Quiz.lessonId quiz = None
                  /\ Quiz.category quiz = CreateBody.category body
                  /\ Quiz.difficulty quiz = CreateBody.difficulty body
             else Quiz.lessonId quiz = CreateBody.lessonId body
                  /\ Quiz.lessonId quiz <> None
                  /\ Quiz.category quiz = None
                  /\ Quiz.difficulty quiz = None
  end.

(** A question and an answer as the views show them. *)
Definition shownAnswer (a : QuizAnswer.t) : json :=
  JObj [("id", JNum (QuizAnswer.id a)); ("answerText", JStr (QuizAnswer.answerText a))].

Definition shown (row : LoadedQuestion) : json :=
  JObj [("id", JNum (QuizQuestion.id (question row)));
        ("questionText", JStr (QuizQuestion.questionText (question row)));
        ("questionType",
           JStr (QuestionType_name (QuizQuestion.questionType (question row))));
        ("points", JNum (QuizQuestion.points (question row)));
        ("position", JNum (QuizQuestion.position (question row)));
        ("answers", JArr (shownAnswer <$> answers row))].

(** The [questions] of the data of a view. *)
Definition questionsShown (data : json) : option json :=
  Obj.get "questions" (fieldsOf data).

(** ** Vocabulary of the statements about updates and invariants *)

(** A column after an update that was given [given] for it. *)
Definition takes {A} (given : option A) (old new : A) : Prop :=
  match given with Some x => new = x | None => new = old end.

(** The title after an update: the title of the body when it is a
    string that is not empty, else the old one. *)
Definition takesTitle (given : option string) (old new : string) : Prop :=
  match given with
  | Some title => if bool_decide (title = "") then new = old else new = title
  | None => new = old
  end.

(** The store [db'] is the store [db] but for columns of the quizzes
    with the key [id]; no quiz has changed its key or its lesson. *)
Definition sameButQuiz (id : Z) (db db' : DB) : Prop :=
  quiz_questions db' = quiz_questions db
  /\ quiz_answers db' = quiz_answers db
  /\ quiz_attempts db' = quiz_attempts db
  /\ user_quiz_answers db' = user_quiz_answers db
  /\ Forall2 (fun old new => Quiz.id new = Quiz.id old
                             /\ Quiz.lessonId new = Quiz.lessonId old
                             /\ (Quiz.id old <> id -> new = old))
             (quizzes db) (quizzes db').

(** What an update handler may do on the store [db]: answer 404 and
    leave the store alone when [lookup] finds no quiz, or answer 200 with
    the quiz as it is loaded afterwards, having written the columns
    [title], [description], [timeLimit] and [passingScore] of the quiz
    (and [category] and [difficulty] when [standalone] is set). *)
Definition updates (standalone : bool) (lookup : DB -> Z -> option Quiz.t)
    (db : DB) (id : Z) (body : UpdateBody.t) (result : Written) : Prop :=
  match result with
  | (Failure status message, db') =>
      status = 404 /\ db' = db /\ lookup db id = None
  | (Success status (message, data), db') =>
      status = 200
      /\ sameButQuiz id db db'
      /\ exists old new,
          lookup db id = Some old
          /\ findByPk db' id = Some new
          /\ data = Some (new, loadQuestions db id)
          /\ takesTitle (UpdateBody.title body) (Quiz.title old) (Quiz.title new)
          /\ takes (UpdateBody.description body)
                   (Quiz.description old) (Quiz.description new)
          /\ takes (UpdateBody.timeLimit body) (Quiz.timeLimit old) (Quiz.timeLimit new)
          /\ takes (UpdateBody.passingScore body)
                   (Quiz.passingScore old) (Quiz.passingScore new)
          /\ takes (if standalone then UpdateBody.category body else None)
                   (Quiz.category old) (Quiz.category new)
          /\ takes (if standalone then UpdateBody.difficulty body else None)
                   (Quiz.difficulty old) (Quiz.difficulty new)
  end.

(** The texts of the store are not empty and no question is worth 0
    points. *)
Definition filled (db : DB) : Prop :=
  (forall quiz, quiz ∈ quizzes db -> Quiz.title quiz <> "")
  /\ (forall q, q ∈ quiz_questions db ->
                QuizQuestion.questionText q <> "" /\ QuizQuestion.points q <> 0)
  /\ (forall a, a ∈ quiz_answers db -> QuizAnswer.answerText a <> "").

(** ** Vocabulary of the statements about attempts *)

(** The points earned by the rows of an attempt. *)
Definition earned (rows : list UserQuizAnswer.t) : Z :=
  foldr Z.add 0 (UserQuizAnswer.pointsEarned <$> rows).

(** The row of the submission [answer] in an attempt on the quiz
    [quizId] of the store [db]: the row of the submission against the
    questions of the quiz, which the store has taken, so that it names
    a question and an answer of the store. *)
Definition gradedRow (schema : Schema) (db : DB) (attemptId quizId : Z)
    (answer : Submission) (row : UserQuizAnswer.t) : Prop :=
  rowOf schema (loadQuestions db quizId) attemptId answer row
  /\ storable schema db answer
  /\ referring db row.

(** What a submission handler may do on the store [db]: refuse and
    leave the store alone, or answer 201 and add one attempt, under a
    new key, and one row for each submission that it has graded.  It
    refuses with 400 or 404, or with 500, and this only when the store
    does not take the attempt, whose user is none of [users], or the row
    of a submission. *)
Definition records (schema : Schema) (users : list User.t) (db : DB)
    (req : SubmitRequest) (result : Response AttemptResult * DB) : Prop :=
  match result with
  | (Failure status message, db') =>
      db' = db
      /\ (status = 400 \/ status = 404
          \/ (status = 500
              /\ ((exists u, submit_userId req = Some u /\ u ∉ User.id <$> users)
                  \/ exists quizId answers answer,
                       body_quizId req = Some quizId
                       /\ body_answers req = Some answers
                       /\ answer ∈ graded (loadQuestions db quizId) answers
                       /\ ~ storable schema db answer)))
  | (Success status r, db') =>
      status = 201
      /\ quizzes db' = quizzes db
      /\ quiz_questions db' = quiz_questions db
      /\ quiz_answers db' = quiz_answers db
      /\ exists attempt rows answers,
          quiz_attempts db' = quiz_attempts db ++ [attempt]
          /\ user_quiz_answers db' = user_quiz_answers db ++ rows
          /\ (forall t, t ∈ quiz_attempts db ->
                        QuizAttempt.id t < QuizAttempt.id attempt)
          /\ QuizAttempt.userId attempt = submit_userId req
          /\ (forall u, submit_userId req = Some u -> u ∈ User.id <$> users)
          /\ body_quizId req = Some (QuizAttempt.quizId attempt)
          /\ (exists quiz, quiz ∈ quizzes db
                           /\ Quiz.id quiz = QuizAttempt.quizId attempt)
          /\ QuizAttempt.score attempt = Some (result_score r)
          /\ QuizAttempt.maxScore attempt = Some (result_maxScore r)
          /\ QuizAttempt.passed attempt = Some (result_passed r)
          /\ body_answers req = Some answers
          /\ Forall2 (gradedRow schema db (QuizAttempt.id attempt)
                                (QuizAttempt.quizId attempt))
                     (graded (loadQuestions db (QuizAttempt.quizId attempt)) answers)
                     rows
          /\ result_score r = earned rows
          /\ (requiresLogin r = true <->
              result_passed r = true /\ truthyNum (submit_userId req) = false)
  end.

(** Every row of an answer belongs to an attempt of the store. *)
Definition attributed (db : DB) : Prop :=
  forall row, row ∈ user_quiz_answers db ->
              exists t, t ∈ quiz_attempts db
                        /\ QuizAttempt.id t = UserQuizAnswer.attemptId row.

(** The three together: what the handlers rely on and keep. *)
Definition sound (db : DB) : Prop := consistent db /\ attributed db /\ filled db.

(** A binary64 value that is not above zero: minus zero, a negative
    number, minus infinity or not a number. *)
Definition notAbove (x : spec_float) : Prop :=
  match x with
  | S754_zero s | S754_infinity s | S754_finite s _ _ => s = true
  | S754_nan => True
  end.

(** ** Vocabulary of the statements about views *)

(** A field of the [metadata] of the data of a view. *)
Definition metadataShown (field : string) (data : json) : option json :=
  meta ← Obj.get "metadata" (fieldsOf data); Obj.get field (fieldsOf meta).

(** The number of questions a request asks for, when it asks for a
    number that counts: [questionCount] is read by [parseInt] and is
    above 0. *)
Definition asked (req : ViewRequest) : option Z :=
  count ← (questionCount req ≫= Str.parseInt);
  if bool_decide (0 < count) then Some count else None.

(** What a view may answer for a quiz with [total] questions: 404, 500
    and only when randomization was asked for, or 200 with a list of
    questions and its two counts. *)
Definition counted (req : ViewRequest) (total : nat) (response : Response json)
  : Prop :=
  match response with
  | Failure status message =>
      status = 404 \/ (status = 500 /\ randomize req = Some "true")
  | Success status data =>
      status = 200
      /\ exists questions,
          questionsShown data = Some (JArr questions)
          /\ metadataShown "totalAvailableQuestions" data
             = Some (JNum (Z.of_nat total))
          /\ metadataShown "returnedQuestions" data
             = Some (JNum (Z.of_nat (length questions)))
          /\ Z.of_nat (length questions)
             = match asked req with
               | Some count =>
                   if bool_decide (randomize req = Some "true")
                   then Z.min count (Z.of_nat total) else Z.of_nat total
               | None => Z.of_nat total
               end
  end.

(** A count out of a total with the percentage computed from them: the
    count is within the total; the percentage is 0 when the total is 0,
    and lies between 0 and 100 when binary64 holds the total exactly. *)
Definition share (count total : Z) (percentage : float) : Prop :=
  0 <= count <= total
  /\ (total = 0 -> percentage = JS.of_Z 0)
  /\ (total < 2 ^ 53 ->
      PrimFloat.leb (JS.of_Z 0) percentage = true
      /\ PrimFloat.leb percentage (JS.of_Z 100) = true).

(** The question [q] as a view shows it at [position] with the answers
    [answers], and as a randomized view may show it: at the position,
    with its answers in some order. *)
Definition shownWith (q : QuizQuestion.t) (position : Z) (answers : list json) : json :=
  JObj [("id", JNum (QuizQuestion.id q));
        ("questionText", JStr (QuizQuestion.questionText q));
        ("questionType", JStr (QuestionType_name (QuizQuestion.questionType q)));
        ("points", JNum (QuizQuestion.points q));
        ("position", JNum position);
        ("answers", JArr answers)].

Definition reordered (db : DB) (position : Z) (q : QuizQuestion.t) (out : json)
  : Prop :=
  exists answers,
    out = shownWith q position answers
    /\ answers ≡ₚ viewAnswers db (QuizQuestion.id q).

(** A question as it stands in the list before the positions are
    written: with its own position still, and its answers in some order. *)
Definition shuffled (db : DB) (q : QuizQuestion.t) (o : json) : Prop :=
  exists answers, o = shownWith q (QuizQuestion.position q) answers
                  /\ answers ≡ₚ viewAnswers db (QuizQuestion.id q).

(** What a randomized view may answer for the questions [all] of a
    quiz: 404, or 200 with some of the questions, none of them twice,
    each at the position where it stands in the answer and with its
    answers in some order. *)
Definition reorders (db : DB) (all : list QuizQuestion.t) (response : Response json)
  : Prop :=
  match response with
  | Failure status message => status = 404
  | Success status data =>
      status = 200
      /\ exists out chosen,
          questionsShown data = Some (JArr out)
          /\ chosen ⊆+ all
          /\ length out = length chosen
          /\ forall i q, chosen !! i = Some q ->
                         exists o, out !! i = Some o
                                   /\ reordered db (Z.of_nat i) q o
  end.

(** ** Requests for the examples *)

Module Sample.

(** Four users and the tokens that name three of them; the token
    ["old"] has expired and every other one is refused.  Lesson 7 is the
    one lesson. *)
Definition users : list User.t :=
  [User.Build 5 student; User.Build 7 instructor; User.Build 8 student;
   User.Build 9 admin].

Definition lessons : list Z := [7].

Definition verify (token : string) : Verified :=
  if String.eqb token "teacher" then Decoded (Some 7)
  else if String.eqb token "pupil" then Decoded (Some 8)
  else if String.eqb token "old" then TokenExpiredError
  else OtherError.

(** A quiz of two questions for lesson 7; the second question gives no
    points. *)
Definition body : CreateBody.t :=
  CreateBody.Build (Some 7) (Some "Optics") None (Some 20) (Some 50) None None
    (Some [QuestionInput.Build (Some "Speed of light") (Some "single_choice")
             (Some 3) None
             (Some [AnswerInput.Build (Some "3e8 m/s") (Some (Some true)) None;
                    AnswerInput.Build (Some "3e6 m/s") (Some (Some false)) None]);
           QuestionInput.Build (Some "Unit of focal length") (Some "fill_blank")
             None None
             (Some [AnswerInput.Build (Some "metre") (Some (Some true)) None])]).

(** An update that renames a quiz and clears its time limit. *)
Definition update : UpdateBody.t :=
  UpdateBody.Build (Some "Dynamics") None (Some None) None None None.

(** The example store once user 8 has attempted quiz 1. *)
Definition attempt8 : QuizAttempt.t :=
  QuizAttempt.Build 1 (Some 8) 1 (Some 29) (Some 50) None (Some false) 1000 2000 1.

Definition store8 : DB :=
  {| quizzes := quizzes Example.store0;
     quiz_questions := quiz_questions Example.store0;
     quiz_answers := quiz_answers Example.store0;
     quiz_attempts := [attempt8];
     user_quiz_answers := [] |}.

(** Question 1 of the example store as the submit handlers load it, and
    a submission that selects its correct answer. *)
Definition sum : LoadedQuestion :=
  {| question := Example.question1; answers := answersOf Example.store0 1 |}.

Definition four : Submission :=
  {| questionId := IdNum 1; answerId := IdStr "10"; textAnswer := Some "five" |}.






End Sample.

(** ** The shuffle as a function of the generator state *)

Section ShufflePure.
Context {A : Type}.

Lemma shuffleLoop_from (g : generator) (i : nat) :
  forall (a : jsarray A) (st : store) (hash : Z),
    st !! g = Some hash ->
    shuffleLoop g i a st =
      Some ((shuffleFrom hash i a).1, <[g := (shuffleFrom hash i a).2]> st).
Proof.
  induction i as [|i IH]; intros a st hash Hg.
  - simpl. unfold ret. by rewrite list_insert_id.
  - cbn [shuffleLoop shuffleFrom]. unfold bind at 1, random. rewrite Hg.
    rewrite (IH _ _ (nextHash hash)).
    + by rewrite list_insert_insert_eq.
    + apply list_lookup_insert_eq. by eapply lookup_lt_Some.
Qed.

Lemma shuffleArray_from (g : generator) (array : list A) (st : store) (hash : Z) :
  st !! g = Some hash ->
  let r := shuffleFrom hash (length array - 1) (spread array) in
  shuffleArray array g st = Some (elems r.1, <[g := r.2]> st).
Proof.
  intros Hg r. unfold shuffleArray, bind.
  rewrite (shuffleLoop_from _ _ _ _ hash Hg). unfold ret, r.
  cbn [spread elems]. by rewrite length_fmap.
Qed.

Lemma createSeededRandom_fresh (seed : string) (st : store) :
  exists g st', createSeededRandom seed st = Some (g, st')
                /\ st' !! g = Some (seedHash seed).
Proof.
  exists (length st), (st ++ [seedHash seed]). split; [done|].
  by rewrite lookup_app_r, Nat.sub_diag.
Qed.

End ShufflePure.

(** ** Determinism of the seeded shuffle *)

(** C3. The seeded shuffle is deterministic.  From any store, a generator
    freshly created from [seed] shuffles [array]; then a second generator
    is freshly created from the same [seed] and shuffles [array] again.
    Both runs return, and they return the same sequence: the first run
    leaves nothing behind that the second one reads. *)
Theorem shuffle_deterministic {A : Type} (seed : string) (array : list A) (st : store) :
  exists out st',
    (let* g1 := createSeededRandom seed in
     let* out1 := shuffleArray array g1 in
     let* g2 := createSeededRandom seed in
     let* out2 := shuffleArray array g2 in
     ret (out1, out2)) st = Some ((out, out), st').
Proof.
  destruct (createSeededRandom_fresh seed st) as (g1 & st1 & Hc1 & Hg1).
  pose proof (shuffleArray_from g1 array st1 _ Hg1) as Hs1. cbv zeta in Hs1.
  set (r := shuffleFrom (seedHash seed) (length array - 1) (spread array)) in *.
  destruct (createSeededRandom_fresh seed (<[g1 := r.2]> st1)) as (g2 & st2 & Hc2 & Hg2).
  pose proof (shuffleArray_from g2 array st2 _ Hg2) as Hs2. cbv zeta in Hs2.
  fold r in Hs2.
  exists (elems r.1), (<[g2 := r.2]> st2).
  unfold bind. by rewrite Hc1, Hs1, Hc2, Hs2.
Qed.

(** ** Claims about the grading loop *)

Lemma createUserAnswer_Some (row : UserQuizAnswer.t) (db db' : DB) :
  createUserAnswer row db = Some db' ->
  UserQuizAnswer.attemptId row ∈ QuizAttempt.id <$> quiz_attempts db
  /\ referring db row
  /\ db' = {| quizzes := quizzes db;
              quiz_questions := quiz_questions db;
              quiz_answers := quiz_answers db;
              quiz_attempts := quiz_attempts db;
              user_quiz_answers := user_quiz_answers db ++ [row] |}.
Proof.
  unfold createUserAnswer. destruct (_ && _ && _) eqn:H; [|done]. intros [= <-].
  apply andb_true_iff in H as [H H3]. apply andb_true_iff in H as [H1 H2].
  apply bool_decide_eq_true in H1, H2.
  split; [done|]. split; [|done]. split; [done|].
  intros a Ha. rewrite Ha in H3. by apply bool_decide_eq_true in H3.
Qed.

Lemma createUserAnswer_None (row : UserQuizAnswer.t) (db : DB) :
  createUserAnswer row db = None ->
  ~ (UserQuizAnswer.attemptId row ∈ QuizAttempt.id <$> quiz_attempts db
     /\ referring db row).
Proof.
  unfold createUserAnswer. intros Hnone [Hattempt [Hq Ha]].
  rewrite !bool_decide_eq_true_2 in Hnone by done. cbn [andb] in Hnone.
  destruct (UserQuizAnswer.answerId row) as [a|]; [|done].
  by rewrite bool_decide_eq_true_2 in Hnone by by apply Ha.
Qed.

Section GradingLoop.
Variable schema : Schema.
Variable questions : list LoadedQuestion.
Variable attemptId : Z.

Lemma findQuestion_None (answer : Submission) :
  findQuestion questions (questionId answer) = None <-> ~ matches questions answer.
Proof.
  unfold findQuestion, matches. split.
  - intros Hnone (q & Hq & Hid).
    apply list_elem_of_In in Hq.
    pose proof (find_none _ _ Hnone q Hq) as Hf. cbn beta in Hf.
    rewrite Hid in Hf. lia.
  - intros Hno. destruct (List.find _ _) as [q|] eqn:Hf; [|done].
    exfalso. apply Hno. apply find_some in Hf as [Hq Hid].
    exists q. split; [by apply list_elem_of_In|].
    destruct (parseInt (questionId answer)) as [n|]; [|done].
    f_equal. lia.
Qed.

Lemma findQuestion_Some (answer : Submission) (q : LoadedQuestion) :
  findQuestion questions (questionId answer) = Some q ->
  q ∈ questions
  /\ parseInt (questionId answer) = Some (QuizQuestion.id (question q)).
Proof.
  unfold findQuestion. intros Hf. apply find_some in Hf as [Hq Hid].
  split; [by apply list_elem_of_In|].
  destruct (parseInt (questionId answer)) as [n|]; [|done].
  f_equal. lia.
Qed.



(** One round of the loop on a submission that the loop does not skip:
    what the round leaves when the insertion succeeds. *)
Lemma gradeAnswer_Some (st st' : Grading) (answer : Submission) (q : LoadedQuestion) :
  findQuestion questions (questionId answer) = Some q ->
  gradeAnswer schema questions attemptId st answer = Some st' ->
  exists row,
    maxScore st' = maxScore st + QuizQuestion.points (question q)
    /\ totalScore st' = totalScore st + UserQuizAnswer.pointsEarned row
    /\ grading_transaction st'
       = onWorking (fun db => {| quizzes := quizzes db;
                                 quiz_questions := quiz_questions db;
                                 quiz_answers := quiz_answers db;
                                 quiz_attempts := quiz_attempts db;
                                 user_quiz_answers := user_quiz_answers db ++ [row] |})
                   (grading_transaction st)
    /\ attemptId ∈ QuizAttempt.id <$> quiz_attempts (working (grading_transaction st))
    /\ referring (working (grading_transaction st)) row
    /\ UserQuizAnswer.attemptId row = attemptId
    /\ column schema (questionId answer) = Some (UserQuizAnswer.questionId row)
    /\ UserQuizAnswer.answerId row
       = (if truthyId (answerId answer) then column schema (answerId answer) else None)
    /\ UserQuizAnswer.textAnswer row
       = (if truthyStr (textAnswer answer) then textAnswer answer else None)
    /\ UserQuizAnswer.isCorrect row = judge q answer
    /\ UserQuizAnswer.pointsEarned row
       = if UserQuizAnswer.isCorrect row then QuizQuestion.points (question q) else 0.
Proof.
  intros Hf. unfold gradeAnswer. rewrite Hf.
  destruct (column schema (questionId answer)) as [qid|] eqn:Hqid; [|done].
  cbn [mbind option_bind].
  destruct (if truthyId (answerId answer) then _ else _) as [aid|] eqn:Haid; [|done].
  cbn [mbind option_bind]. unfold run.
  destruct (createUserAnswer _ _) as [db'|] eqn:Hrow; [|done].
  cbn [mbind option_bind]. intros [= <-].
  apply createUserAnswer_Some in Hrow as (Hattempt & Href & ->).
  eexists. cbn [maxScore totalScore grading_transaction].
  split; [done|]. split; [|split; [reflexivity|]].
  { cbn. by destruct (judge q answer); [|lia]. }
  cbn. split; [done|]. split; [done|]. split; [done|]. split; [done|].
  split; [|done].
  destruct (truthyId (answerId answer)).
  - by destruct (column schema (answerId answer)); simplify_eq/=.
  - by simplify_eq.
Qed.

Lemma gradeAnswer_storable (st st' : Grading) (answer : Submission)
    (q : LoadedQuestion) :
  findQuestion questions (questionId answer) = Some q ->
  gradeAnswer schema questions attemptId st answer = Some st' ->
  storable schema (working (grading_transaction st)) answer.
Proof.
  intros Hf. unfold gradeAnswer. rewrite Hf.
  destruct (column schema (questionId answer)) as [qid|] eqn:Hqid; [|done].
  cbn [mbind option_bind].
  destruct (if truthyId (answerId answer) then _ else _) as [aid|] eqn:Haid; [|done].
  cbn [mbind option_bind]. unfold run.
  destruct (createUserAnswer _ _) as [db'|] eqn:Hrow; [|done]. intros _.
  apply createUserAnswer_Some in Hrow as (_ & [Hq Ha] & _). cbn in Hq, Ha.
  split; [eauto|]. intros Ht. rewrite Ht in Haid.
  destruct (column schema (answerId answer)) as [a|]; [|done].
  cbn in Haid. injection Haid as <-. eauto.
Qed.

Lemma gradeAnswer_None (st : Grading) (answer : Submission) :
  gradeAnswer schema questions attemptId st answer = None ->
  matches questions answer
  /\ ~ (attemptId ∈ QuizAttempt.id <$> quiz_attempts (working (grading_transaction st))
        /\ storable schema (working (grading_transaction st)) answer).
Proof.
  unfold gradeAnswer.
  destruct (findQuestion questions (questionId answer)) as [q|] eqn:Hf; [|done].
  intros Hnone. split.
  { destruct (findQuestion_Some _ _ Hf) as [Hq Hid]. by exists q. }
  intros [Hattempt [(qid & Hqid & Hin) Hanswer]].
  rewrite Hqid in Hnone. cbn [mbind option_bind] in Hnone.
  destruct (truthyId (answerId answer)) eqn:Ht.
  - destruct (Hanswer eq_refl) as (a & Ha & Hin').
    rewrite Ha in Hnone. cbn in Hnone. unfold run in Hnone.
    destruct (createUserAnswer _ _) as [db'|] eqn:Hrow; [done|].
    apply createUserAnswer_None in Hrow. apply Hrow. cbn.
    split; [done|]. split; [done|]. by intros ? [= <-].
  - cbn in Hnone. unfold run in Hnone.
    destruct (createUserAnswer _ _) as [db'|] eqn:Hrow; [done|].
    apply createUserAnswer_None in Hrow. apply Hrow. cbn.
    split; [done|]. by split.
Qed.

Lemma referring_frame (db db' : DB) (row : UserQuizAnswer.t) :
  quiz_questions db' = quiz_questions db -> quiz_answers db' = quiz_answers db ->
  referring db row -> referring db' row.
Proof. unfold referring. by intros -> ->. Qed.

Lemma storable_frame (db db' : DB) (answer : Submission) :
  quiz_questions db' = quiz_questions db -> quiz_answers db' = quiz_answers db ->
  storable schema db answer -> storable schema db' answer.
Proof. unfold storable. by intros -> ->. Qed.

(** What the grading loop leaves behind when no insertion throws. *)
Lemma gradeAnswers_Some (answers : list Submission) :
  forall st st',
    gradeAnswers schema questions attemptId st answers = Some st' ->
    committed (grading_transaction st') = committed (grading_transaction st)
    /\ quizzes (working (grading_transaction st'))
       = quizzes (working (grading_transaction st))
    /\ quiz_questions (working (grading_transaction st'))
       = quiz_questions (working (grading_transaction st))
    /\ quiz_answers (working (grading_transaction st'))
       = quiz_answers (working (grading_transaction st))
    /\ quiz_attempts (working (grading_transaction st'))
       = quiz_attempts (working (grading_transaction st))
    /\ exists rows,
        written st' = written st ++ rows
        /\ Forall2 (fun answer row =>
                      rowOf schema questions attemptId answer row
                      /\ storable schema (working (grading_transaction st)) answer
                      /\ referring (working (grading_transaction st)) row)
                   (graded questions answers) rows
        /\ totalScore st' = totalScore st + earned rows.
Proof.
  induction answers as [|answer answers IH]; intros st st'.
  - intros [= <-]. do 5 (split; [done|]). exists [].
    rewrite app_nil_r. split; [done|]. split; [constructor | cbn; lia].
  - cbn [gradeAnswers].
    destruct (gradeAnswer schema questions attemptId st answer) as [st1|] eqn:Hg;
      [|done].
    cbn [mbind option_bind]. intros Hrest.
    destruct (IH st1 st' Hrest) as (H1 & H2 & H3 & H4 & H5 & rows & Hw & Hrows & Hscore).
    rewrite H1, H2, H3, H4, H5, Hw, Hscore. clear IH H1 H2 H3 H4 H5 Hw Hscore Hrest.
    unfold graded. cbn [List.filter].
    destruct (findQuestion questions (questionId answer)) as [q|] eqn:Hf.
    + rewrite bool_decide_eq_true_2 by eauto.
      pose proof (gradeAnswer_storable _ _ _ _ Hf Hg) as Hstorable.
      destruct (gradeAnswer_Some _ _ _ _ Hf Hg)
        as (row & Hmax & Htotal & Htx & _ & Href & Hattempt & Hcol & Haid & Htext
            & Hcorrect & Hpoints).
      destruct (findQuestion_Some _ _ Hf) as [Hq Hid].
      unfold written. rewrite Htx. cbn. do 5 (split; [done|]).
      exists (row :: rows). split; [by rewrite <- app_assoc|]. split.
      * constructor.
        -- split; [|done]. do 4 (split; [done|]). by exists q.
        -- eapply Forall2_impl; [exact Hrows|]. intros a r (Hrow & Hs & Hr).
           rewrite Htx in Hs, Hr. cbn in Hs, Hr. split; [done|]. split.
           ++ by eapply storable_frame; [| |exact Hs].
           ++ by eapply referring_frame; [| |exact Hr].
      * unfold earned. cbn. fold (earned rows). lia.
    + rewrite bool_decide_eq_false_2 by (intros [? ?]; discriminate).
      unfold gradeAnswer in Hg. rewrite Hf in Hg. injection Hg as <-.
      do 5 (split; [done|]). by exists rows.
Qed.

(** The loop throws only at a submission that it grades and whose row
    the store does not take. *)
Lemma gradeAnswers_None (answers : list Submission) :
  forall st,
    gradeAnswers schema questions attemptId st answers = None ->
    exists answer,
      answer ∈ graded questions answers
      /\ ~ (attemptId
              ∈ QuizAttempt.id <$> quiz_attempts (working (grading_transaction st))
            /\ storable schema (working (grading_transaction st)) answer).
Proof.
  induction answers as [|answer answers IH]; intros st; [done|].
  cbn [gradeAnswers].
  destruct (gradeAnswer schema questions attemptId st answer) as [st1|] eqn:Hg.
  - cbn [mbind option_bind]. intros Hrest.
    destruct (IH st1 Hrest) as (a & Hin & Hno).
    destruct (gradeAnswers_Some [answer] st st1) as (_ & _ & Hq & Ha & Ht & _).
    { cbn. by rewrite Hg. }
    exists a. split.
    + unfold graded in *. cbn [List.filter]. destruct (bool_decide _); [|done].
      by apply list_elem_of_further.
    + intros [Hattempt Hs]. apply Hno. split; [by rewrite Ht|].
      by eapply storable_frame; [| |exact Hs].
  - intros _. apply gradeAnswer_None in Hg as [Hm Hno]. exists answer.
    split; [|done]. unfold graded. cbn [List.filter].
    destruct (findQuestion questions (questionId answer)) eqn:Hf;
      [|by apply findQuestion_None in Hf].
    rewrite bool_decide_eq_true_2 by eauto. apply list_elem_of_here.
Qed.

End GradingLoop.

Lemma loadQuestions_elem (db : DB) (quizId : Z) (q : LoadedQuestion) :
  q ∈ loadQuestions db quizId ->
  question q ∈ quiz_questions db /\ QuizQuestion.quizId (question q) = quizId.
Proof.
  unfold loadQuestions, questionsOf. intros Hin.
  apply list_elem_of_fmap in Hin as (row & -> & Hrow). cbn.
  apply list_elem_of_In, filter_In in Hrow as [Hrow Hid].
  split; [by apply list_elem_of_In | lia].
Qed.

Lemma nextId_above (ids : list Z) (n : Z) : n ∈ ids -> n < nextId ids.
Proof.
  unfold nextId. induction ids as [|i ids IH]; intros Hin.
  - by apply elem_of_nil in Hin.
  - cbn. apply elem_of_cons in Hin as [->|Hin]; [lia|]. specialize (IH Hin). lia.
Qed.

Lemma nextAttemptId_above (db : DB) (t : QuizAttempt.t) :
  t ∈ quiz_attempts db -> QuizAttempt.id t < nextAttemptId db.
Proof.
  intros Hin. change (nextAttemptId db) with (nextId (QuizAttempt.id <$> quiz_attempts db)).
  apply nextId_above. by apply list_elem_of_fmap_2.
Qed.

Lemma findByPk_Some db id quiz :
  findByPk db id = Some quiz -> quiz ∈ quizzes db /\ Quiz.id quiz = id.
Proof.
  unfold findByPk. intros Hf. apply find_some in Hf as [Hin Hid].
  split; [by apply list_elem_of_In | lia].
Qed.

Lemma findMockTest_Some db id quiz :
  findMockTest db id = Some quiz ->
  quiz ∈ quizzes db /\ Quiz.id quiz = id /\ Quiz.lessonId quiz = None.
Proof.
  unfold findMockTest. intros Hf. apply find_some in Hf as [Hin Hid].
  apply andb_true_iff in Hid as [Hid Hnull]. apply bool_decide_eq_true in Hnull.
  split; [by apply list_elem_of_In|]. split; [lia | done].
Qed.

Lemma createAttempt_Some (users : list User.t) (row : QuizAttempt.t) (db db' : DB) :
  createAttempt users row db = Some db' ->
  (forall u, QuizAttempt.userId row = Some u -> u ∈ User.id <$> users)
  /\ db' = {| quizzes := quizzes db;
              quiz_questions := quiz_questions db;
              quiz_answers := quiz_answers db;
              quiz_attempts := quiz_attempts db ++ [row];
              user_quiz_answers := user_quiz_answers db |}.
Proof.
  unfold createAttempt. destruct (_ && _) eqn:H; [|done]. intros [= <-].
  apply andb_true_iff in H as [Hu _]. split; [|done].
  intros u Hsome. rewrite Hsome in Hu. by apply bool_decide_eq_true in Hu.
Qed.

Lemma createAttempt_None (users : list User.t) (row : QuizAttempt.t) (db : DB) :
  createAttempt users row db = None ->
  QuizAttempt.quizId row ∈ Quiz.id <$> quizzes db ->
  exists u, QuizAttempt.userId row = Some u /\ u ∉ User.id <$> users.
Proof.
  unfold createAttempt. intros Hnone Hquiz.
  rewrite (bool_decide_eq_true_2 _ Hquiz), andb_true_r in Hnone.
  destruct (QuizAttempt.userId row) as [u|]; [|done].
  exists u. split; [done|]. intros Hin. by rewrite bool_decide_eq_true_2 in Hnone.
Qed.

(** The handler after the lookup: all or nothing. *)
Lemma submitFound_records (schema : Schema) (users : list User.t) (failed : string)
    (db : DB) (now : Z) (req : SubmitRequest)
    (quizId startedAt : Z) (answers : list Submission) (quiz : Quiz.t) :
  body_quizId req = Some quizId -> body_answers req = Some answers ->
  quiz ∈ quizzes db -> Quiz.id quiz = quizId ->
  records schema users db req
    (submitFound schema users failed db now req quizId startedAt answers quiz).
Proof.
  intros HquizId Hanswers Hquiz Hid. unfold records, submitFound, run.
  cbn [begin working committed].
  destruct (createAttempt users _ db) as [db1|] eqn:Hcreate.
  2:{ cbn. split; [done|]. right. right. split; [done|]. left.
      apply createAttempt_None in Hcreate; [done|]. cbn.
      rewrite <- Hid. by apply list_elem_of_fmap_2. }
  apply createAttempt_Some in Hcreate as [Huser ->]. cbn [mbind option_bind].
  match goal with
  | |- context [gradeAnswers schema ?qs ?aid ?st0 answers] =>
      destruct (gradeAnswers schema qs aid st0 answers) as [st|] eqn:Hloop
  end.
  2:{ cbn. split; [done|]. right. right. split; [done|]. right.
      apply gradeAnswers_None in Hloop as (answer & Hin & Hno). cbn in Hno.
      exists quizId, answers, answer. do 3 (split; [done|]).
      intros Hs. apply Hno. split.
      - rewrite fmap_app. apply elem_of_app. right. cbn. apply list_elem_of_here.
      - by eapply storable_frame; [| |exact Hs]. }
  apply gradeAnswers_Some in Hloop
    as (H1 & H2 & H3 & H4 & H5 & rows & Hw & Hrows & Hscore).
  unfold written in Hw.
  cbn [grading_transaction totalScore working committed
       quizzes quiz_questions quiz_answers quiz_attempts user_quiz_answers] in *.
  cbn [commit onWorking working updateAttempt quizzes quiz_questions quiz_answers
       quiz_attempts user_quiz_answers].
  split; [done|]. do 3 (split; [done|]).
  rewrite H5, Hw, fmap_app.
  eexists _, rows, answers. split.
  { cbn [fmap list_fmap QuizAttempt.id]. rewrite Z.eqb_refl. f_equal.
    rewrite <- (list_fmap_id (quiz_attempts db)) at 2. apply list_fmap_ext.
    intros i t Ht. apply list_elem_of_lookup_2, nextAttemptId_above in Ht.
    cbn. destruct (Z.eqb_spec (QuizAttempt.id t) (nextAttemptId db)); [lia|done]. }
  cbn. split; [done|]. split; [apply nextAttemptId_above|].
  split; [done|]. split; [done|]. split; [done|]. split; [by exists quiz|].
  do 3 (split; [done|]). split; [done|]. split.
  { eapply Forall2_impl; [exact Hrows|]. intros a row (Hrow & Hs & Hr).
    split; [done|]. split.
    - by eapply storable_frame; [| |exact Hs].
    - by eapply referring_frame; [| |exact Hr]. }
  split; [lia|].
  rewrite andb_true_iff, negb_true_iff. by split; intros [? ?].
Qed.

Lemma submitQuizAttempt_records (schema : Schema) (users : list User.t) (db : DB)
    (now : Z) (req : SubmitRequest) :
  records schema users db req (submitQuizAttempt schema users db now req).
Proof.
  unfold submitQuizAttempt, validated.
  destruct (body_quizId req) as [quizId|] eqn:HquizId; [|by split; [|left]].
  destruct (body_startedAt req) as [startedAt|]; [|by split; [|left]].
  destruct (body_answers req) as [answers|] eqn:Hanswers; [|by split; [|left]].
  destruct (_ && _); [|by split; [|left]].
  destruct (findByPk db quizId) as [quiz|] eqn:Hf; [|by split; [|right; left]].
  apply findByPk_Some in Hf as [Hin Hid]. by apply submitFound_records.
Qed.

Lemma submitMockTestAttempt_records (schema : Schema) (users : list User.t) (db : DB)
    (now : Z) (req : SubmitRequest) :
  records schema users db req (submitMockTestAttempt schema users db now req).
Proof.
  unfold submitMockTestAttempt, validated.
  destruct (body_quizId req) as [quizId|] eqn:HquizId; [|by split; [|left]].
  destruct (body_startedAt req) as [startedAt|]; [|by split; [|left]].
  destruct (body_answers req) as [answers|] eqn:Hanswers; [|by split; [|left]].
  destruct (_ && _); [|by split; [|left]].
  destruct (findMockTest db quizId) as [quiz|] eqn:Hf; [|by split; [|right; left]].
  apply findMockTest_Some in Hf as (Hin & Hid & _). by apply submitFound_records.
Qed.




(** ** Fill-in-the-blank grading *)

Lemma truthyStr_Some (o : option string) :
  truthyStr o = true <-> exists text, o = Some text /\ text <> "".
Proof.
  destruct o as [text|]; cbn.
  - rewrite negb_true_iff, bool_decide_eq_false. split.
    + intros Hne. by exists text.
    + by intros (? & [= <-] & Hne).
  - split; [done | by intros (? & ? & _)].
Qed.

(** C6, as amended.  Against a [fill_blank] question a submission is
    graded correct exactly when its free text is present and not empty
    and the question has an answer that is marked correct and whose
    text, lower-cased and trimmed of the white space around it, is the
    free text lower-cased and trimmed. *)
Theorem fill_blank_graded (q : LoadedQuestion) (answer : Submission) :
  QuizQuestion.questionType (question q) = fill_blank ->
  (judge q answer = true <->
   exists text a,
     textAnswer answer = Some text /\ text <> ""
     /\ a ∈ answers q
     /\ QuizAnswer.isCorrect a = true
     /\ Str.trim (Str.toLowerCase text)
        = Str.trim (Str.toLowerCase (QuizAnswer.answerText a))).
Proof.
  intros Htype. unfold judge. rewrite bool_decide_eq_true_2 by done.
  unfold fillBlankCorrect, correctAnswers.
  rewrite andb_true_iff, truthyStr_Some, bool_decide_eq_true, list_elem_of_fmap.
  split.
  - intros [(text & Heq & Hne) (a & Htext & Hin)].
    apply list_elem_of_In, filter_In in Hin as [Hin Hcorrect].
    exists text, a. rewrite Heq in Htext. cbn in Htext.
    split; [done|]. split; [done|]. split; [by apply list_elem_of_In|]. done.
  - intros (text & a & Heq & Hne & Hin & Hcorrect & Htext). split; [eauto|].
    exists a. rewrite Heq. cbn. split; [done|].
    apply list_elem_of_In, filter_In. split; [by apply list_elem_of_In | done].
Qed.

(** ** Lookup modes *)

Lemma find_none_iff {A} (f : A -> bool) (l : list A) :
  List.find f l = None <-> forall x, x ∈ l -> f x = false.
Proof.
  split.
  - intros H x Hx. apply (find_none _ _ H). by apply list_elem_of_In.
  - intros H. destruct (List.find f l) as [x|] eqn:Hf; [|done].
    apply find_some in Hf as [Hx Hfx]. apply list_elem_of_In in Hx.
    rewrite (H x Hx) in Hfx. discriminate.
Qed.

Lemma assemble_not_404 failed db req quiz message :
  assemble failed db req quiz <> Failure 404 message.
Proof. unfold assemble. by destruct (_ []) as [[? ?]|]. Qed.

(** C7, as amended.  The mock-test lookup answers NotFound (404) for an
    identifier that no standalone quiz carries, so also for the
    identifier of a lesson-bound quiz.  The quiz lookup does not look at
    the lesson reference: it answers NotFound exactly when no quiz at all
    carries the identifier. *)
Theorem lookup_not_found (db : DB) (req : ViewRequest) :
  ((forall q, q ∈ quizzes db -> Quiz.id q = params_id req ->
              Quiz.lessonId q <> None) ->
   getMockTestById db req = Failure 404 "Mock test not found")
  /\ (getQuizById db req = Failure 404 "Quiz not found" <->
      forall q, q ∈ quizzes db -> Quiz.id q <> params_id req).
Proof.
  split.
  - intros Hbound. unfold getMockTestById, findMockTest.
    destruct (List.find _ _) as [q|] eqn:Hf; [|done].
    apply find_some in Hf as [Hq Hf]. apply list_elem_of_In in Hq.
    apply andb_true_iff in Hf as [Hid Hnull].
    apply bool_decide_eq_true in Hnull.
    exfalso. apply (Hbound q Hq); [lia | done].
  - unfold getQuizById, findByPk.
    destruct (List.find _ _) as [q|] eqn:Hf.
    + split.
      * intros H. by apply assemble_not_404 in H.
      * intros Hno. apply find_some in Hf as [Hq Hid].
        apply list_elem_of_In in Hq. exfalso. apply (Hno q Hq). lia.
    + split; [|done]. intros _ q Hq.
      pose proof (proj1 (find_none_iff _ _) Hf q Hq) as Hne. cbn beta in Hne. lia.
Qed.
(** ** Deletion *)

Lemma attemptCount_pos (db : DB) (id : Z) :
  (0 < attemptCount db id)%nat <->
  exists a, a ∈ quiz_attempts db /\ QuizAttempt.quizId a = id.
Proof.
  unfold attemptCount. split.
  - destruct (List.filter _ _) as [|a l] eqn:Hf; cbn; [lia|]. intros _.
    assert (In a (List.filter (fun a => QuizAttempt.quizId a =? id)
                              (quiz_attempts db))) as Hin
      by (rewrite Hf; by left).
    apply filter_In in Hin as [Hin Hid]. exists a.
    split; [by apply list_elem_of_In | lia].
  - intros (a & Ha & Hid).
    assert (In a (List.filter (fun a => QuizAttempt.quizId a =? id)
                              (quiz_attempts db))) as Hin.
    { apply filter_In. split; [by apply list_elem_of_In | lia]. }
    destruct (List.filter _ _); [done | cbn; lia].
Qed.

Lemma filter_all {A} (f : A -> bool) (l : list A) :
  (forall x, x ∈ l -> f x = true) -> List.filter f l = l.
Proof.
  induction l as [|x l IH]; intros H; [done|]. cbn.
  rewrite (H x (list_elem_of_here _ _)). f_equal. apply IH.
  intros y Hy. apply H. by apply list_elem_of_further.
Qed.

Lemma existsb_false {A} (f : A -> bool) (l : list A) :
  existsb f l = false <-> forall x, x ∈ l -> f x = false.
Proof.
  induction l as [|x l IH]; cbn.
  - split; [|done]. intros _ y Hy. by apply elem_of_nil in Hy.
  - rewrite orb_false_iff, IH. split.
    + intros [Hx Hl] y Hy. apply elem_of_cons in Hy as [->|Hy]; auto.
    + intros H. split; [apply H, list_elem_of_here|].
      intros y Hy. by apply H, list_elem_of_further.
Qed.

Lemma existsb_true {A} (f : A -> bool) (l : list A) :
  existsb f l = true <-> exists x, x ∈ l /\ f x = true.
Proof.
  rewrite existsb_exists. split; intros (x & Hin & Hx); exists x;
    (split; [by apply list_elem_of_In | done]).
Qed.

Section ForeignKeys.
Variable schema : Schema.

(** The row carries a key of [gone] in its column [answerId]. *)
Lemma answersGone_Some (gone : list Z) (rows rows' : list UserQuizAnswer.t) :
  answersGone schema gone rows = Some rows' ->
  (forall row, row ∈ rows ->
               (forall a, UserQuizAnswer.answerId row = Some a -> a ∉ gone) ->
               row ∈ rows')
  /\ (forall row', row' ∈ rows' ->
        (forall a, UserQuizAnswer.answerId row' = Some a -> a ∉ gone)
        /\ (row' ∈ rows
            \/ exists row a, row ∈ rows
                             /\ UserQuizAnswer.answerId row = Some a /\ a ∈ gone
                             /\ answerId_onDelete schema = SetNull
                             /\ row' = unanswered row)).
Proof.
  unfold answersGone. destruct (answerId_onDelete schema).
  - destruct (existsb _ rows) eqn:He; [done|]. intros [= <-].
    rewrite existsb_false in He. split; [done|]. intros row Hin.
    split; [|by left]. intros a Ha Hgone. specialize (He row Hin).
    rewrite Ha in He. by rewrite bool_decide_eq_true_2 in He.
  - intros [= <-]. split.
    + intros row Hin Hfree. apply list_elem_of_fmap. exists row. split; [|done].
      destruct (UserQuizAnswer.answerId row) as [a|] eqn:Ha; [|done].
      by rewrite bool_decide_eq_false_2 by by apply Hfree.
    + intros row' Hin. apply list_elem_of_fmap in Hin as (row & -> & Hin).
      destruct (UserQuizAnswer.answerId row) as [a|] eqn:Ha.
      * destruct (decide (a ∈ gone)) as [Hgone|Hgone].
        -- rewrite bool_decide_eq_true_2 by done. split; [done|].
           right. exists row, a. by repeat split.
        -- rewrite bool_decide_eq_false_2 by done. split; [|by left].
           intros a' Ha'. rewrite Ha in Ha'. by injection Ha' as <-.
      * split; [|by left]. intros a' Ha'. by rewrite Ha in Ha'.
  - intros [= <-]. split.
    + intros row Hin Hfree. apply list_elem_of_In, filter_In.
      split; [by apply list_elem_of_In|].
      destruct (UserQuizAnswer.answerId row) as [a|] eqn:Ha; [|done].
      by rewrite bool_decide_eq_false_2 by by apply Hfree.
    + intros row' Hin. apply list_elem_of_In, filter_In in Hin as [Hin Hfree].
      split; [|left; by apply list_elem_of_In].
      intros a Ha Hgone. rewrite Ha in Hfree.
      by rewrite bool_decide_eq_true_2 in Hfree.
Qed.

Lemma answersGone_None (gone : list Z) (rows : list UserQuizAnswer.t) :
  answersGone schema gone rows = None ->
  answerId_onDelete schema = NoAction
  /\ exists row a, row ∈ rows /\ UserQuizAnswer.answerId row = Some a /\ a ∈ gone.
Proof.
  unfold answersGone. destruct (answerId_onDelete schema); [|done..].
  destruct (existsb _ rows) eqn:He; [|done]. intros _. split; [done|].
  apply existsb_true in He as (row & Hin & Hnamed). exists row.
  destruct (UserQuizAnswer.answerId row) as [a|]; [|done].
  apply bool_decide_eq_true in Hnamed. by exists a.
Qed.

Lemma answersGone_free (gone : list Z) (rows : list UserQuizAnswer.t) :
  (forall row a, row ∈ rows -> UserQuizAnswer.answerId row = Some a -> a ∉ gone) ->
  answersGone schema gone rows = Some rows.
Proof.
  intros Hfree.
  assert (forall row, row ∈ rows ->
            match UserQuizAnswer.answerId row with
            | Some a => bool_decide (a ∈ gone)
            | None => false
            end = false) as Hnamed.
  { intros row Hin. destruct (UserQuizAnswer.answerId row) as [a|] eqn:Ha; [|done].
    apply bool_decide_eq_false_2. by eapply Hfree. }
  unfold answersGone. destruct (answerId_onDelete schema).
  - by rewrite (proj2 (existsb_false _ _) Hnamed).
  - f_equal. rewrite <- (list_fmap_id rows) at 2. apply list_fmap_ext.
    intros i row Hi. apply list_elem_of_lookup_2 in Hi. by rewrite (Hnamed row Hi).
  - f_equal. apply filter_all. intros row Hin. by rewrite (Hnamed row Hin).
Qed.

Lemma questionsGone_Some (gone : list Z) (rows rows' : list UserQuizAnswer.t) :
  questionsGone schema gone rows = Some rows' ->
  (forall row, row ∈ rows -> UserQuizAnswer.questionId row ∉ gone -> row ∈ rows')
  /\ (forall row', row' ∈ rows' ->
                   (UserQuizAnswer.questionId row' ∉ gone) /\ row' ∈ rows).
Proof.
  assert (questionId_onDelete schema <> Cascade ->
          (if existsb (fun row => bool_decide (UserQuizAnswer.questionId row ∈ gone))
                      rows then None else Some rows) = Some rows' ->
          (forall row, row ∈ rows -> UserQuizAnswer.questionId row ∉ gone ->
                       row ∈ rows')
          /\ (forall row', row' ∈ rows' ->
                           (UserQuizAnswer.questionId row' ∉ gone) /\ row' ∈ rows))
    as Hstop.
  { intros _. destruct (existsb _ rows) eqn:He; [done|]. intros [= <-].
    rewrite existsb_false in He. split; [done|]. intros row Hin. split; [|done].
    specialize (He row Hin). by apply bool_decide_eq_false in He. }
  unfold questionsGone. destruct (questionId_onDelete schema); [by apply Hstop..|].
  intros [= <-]. split.
  - intros row Hin Hfree. apply list_elem_of_In, filter_In.
    split; [by apply list_elem_of_In|]. by rewrite bool_decide_eq_false_2.
  - intros row' Hin. apply list_elem_of_In, filter_In in Hin as [Hin Hfree].
    split; [|by apply list_elem_of_In].
    apply negb_true_iff in Hfree. by apply bool_decide_eq_false in Hfree.
Qed.

Lemma questionsGone_None (gone : list Z) (rows : list UserQuizAnswer.t) :
  questionsGone schema gone rows = None ->
  questionId_onDelete schema <> Cascade
  /\ exists row, row ∈ rows /\ UserQuizAnswer.questionId row ∈ gone.
Proof.
  unfold questionsGone.
  destruct (questionId_onDelete schema); [| |done];
    (destruct (existsb _ rows) eqn:He; [|done]; intros _; split; [done|];
     apply existsb_true in He as (row & Hin & Hnamed); exists row;
     by apply bool_decide_eq_true in Hnamed).
Qed.

Lemma questionsGone_free (gone : list Z) (rows : list UserQuizAnswer.t) :
  (forall row, row ∈ rows -> UserQuizAnswer.questionId row ∉ gone) ->
  questionsGone schema gone rows = Some rows.
Proof.
  intros Hfree.
  assert (forall row, row ∈ rows ->
            bool_decide (UserQuizAnswer.questionId row ∈ gone) = false) as Hnamed.
  { intros row Hin. apply bool_decide_eq_false_2. by apply Hfree. }
  unfold questionsGone.
  destruct (questionId_onDelete schema);
    [by rewrite (proj2 (existsb_false _ _) Hnamed)..|].
  f_equal. apply filter_all. intros row Hin. by rewrite (Hnamed row Hin).
Qed.

Lemma answerOf_mono (qs qs' : list QuizQuestion.t) (db db' : DB)
    (row : UserQuizAnswer.t) :
  (forall q, q ∈ qs -> q ∈ qs') ->
  (forall a, a ∈ quiz_answers db -> a ∈ quiz_answers db') ->
  answerOf qs db row -> answerOf qs' db' row.
Proof. intros Hqs Has (q & a & Hq & Ha & Hid & Hrow). exists q, a. auto. Qed.

Lemma gone_answerOf (q : QuizQuestion.t) (qs : list QuizQuestion.t) (db : DB)
    (row : UserQuizAnswer.t) (a : Z) :
  a ∈ QuizAnswer.id <$> answersOf db (QuizQuestion.id q) ->
  UserQuizAnswer.answerId row = Some a ->
  answerOf (q :: qs) db row.
Proof.
  intros Hgone Hrow. apply list_elem_of_fmap in Hgone as (answer & -> & Hin).
  apply list_elem_of_In, filter_In in Hin as [Hin Hid].
  exists q, answer. split; [apply list_elem_of_here|].
  split; [by apply list_elem_of_In|]. split; [lia | done].
Qed.

Lemma destroyAnswers_Some (questionId : Z) (db db' : DB) :
  destroyAnswers schema questionId db = Some db' ->
  quizzes db' = quizzes db
  /\ quiz_questions db' = quiz_questions db
  /\ quiz_attempts db' = quiz_attempts db
  /\ quiz_answers db'
     = List.filter (fun a => negb (QuizAnswer.questionId a =? questionId))
                   (quiz_answers db)
  /\ answersGone schema (QuizAnswer.id <$> answersOf db questionId)
                 (user_quiz_answers db) = Some (user_quiz_answers db').
Proof.
  unfold destroyAnswers.
  destruct (answersGone schema _ _) as [rows|]; [|done]. by intros [= <-].
Qed.

(** What the loop over the questions leaves in the working copy when no
    deletion throws. *)
Lemma destroyAnswersOf_Some (questions : list QuizQuestion.t) :
  forall tx tx',
    destroyAnswersOf schema questions tx = Some tx' ->
    committed tx' = committed tx
    /\ quizzes (working tx') = quizzes (working tx)
    /\ quiz_questions (working tx') = quiz_questions (working tx)
    /\ quiz_attempts (working tx') = quiz_attempts (working tx)
    /\ (forall a, a ∈ quiz_answers (working tx') <->
                  a ∈ quiz_answers (working tx)
                  /\ forall q, q ∈ questions ->
                               QuizAnswer.questionId a <> QuizQuestion.id q)
    /\ (forall row, row ∈ user_quiz_answers (working tx) ->
                    ~ answerOf questions (working tx) row ->
                    row ∈ user_quiz_answers (working tx'))
    /\ (forall row', row' ∈ user_quiz_answers (working tx') ->
          ~ answerOf questions (working tx) row'
          /\ (row' ∈ user_quiz_answers (working tx)
              \/ exists row, row ∈ user_quiz_answers (working tx)
                             /\ answerOf questions (working tx) row
                             /\ answerId_onDelete schema = SetNull
                             /\ row' = unanswered row)).
Proof.
  induction questions as [|q questions IH]; intros tx tx'.
  - intros [= <-]. do 4 (split; [done|]). split; [|split].
    + intros a. split; [|by intros [Ha _]]. intros Ha. split; [done|].
      intros q Hq. by apply elem_of_nil in Hq.
    + done.
    + intros row Hin. split; [|by left]. intros (q & _ & Hq & _).
      by apply elem_of_nil in Hq.
  - cbn [destroyAnswersOf]. unfold run at 1.
    destruct (destroyAnswers schema (QuizQuestion.id q) (working tx)) as [db1|] eqn:Hstep;
      [|done].
    cbn [mbind option_bind]. intros Hrest.
    apply destroyAnswers_Some in Hstep as (Hz1 & Hq1 & Ht1 & Ha1 & Hrows1).
    apply answersGone_Some in Hrows1 as [Hkept1 Hleft1].
    destruct (IH _ _ Hrest) as (Hc & Hz & Hq & Ht & Ha & Hkept & Hleft).
    cbn [committed working] in *. clear IH Hrest.
    assert (forall a, a ∈ quiz_answers db1 <->
                      a ∈ quiz_answers (working tx)
                      /\ QuizAnswer.questionId a <> QuizQuestion.id q) as Hanswers1.
    { intros a. rewrite Ha1, list_elem_of_In, filter_In, <- list_elem_of_In.
      split; intros [? ?]; (split; [done | lia]). }
    assert (forall row, answerOf questions db1 row ->
                        answerOf (q :: questions) (working tx) row) as Hmono.
    { intros row. apply answerOf_mono; [intros; by apply list_elem_of_further|].
      intros a Hin. by apply Hanswers1 in Hin as [? _]. }
    rewrite Hc, Hz, Hq, Ht, Hz1, Hq1, Ht1. do 4 (split; [done|]).
    split; [|split].
    + intros a. rewrite Ha, Hanswers1. split.
      * intros [[Hin Hne] Hrest]. split; [done|]. intros q' Hq'.
        apply elem_of_cons in Hq' as [->|Hq']; [done | by apply Hrest].
      * intros [Hin Hall]. split; [split; [done|] |].
        -- apply Hall, list_elem_of_here.
        -- intros q' Hq'. by apply Hall, list_elem_of_further.
    + intros row Hin Hfree. apply Hkept.
      * apply Hkept1; [done|]. intros a Hrow Hgone. apply Hfree.
        by eapply gone_answerOf.
      * intros Hnamed. by apply Hfree, Hmono.
    + intros row' Hin. destruct (Hleft row' Hin) as [Hfree Horigin]. split.
      * intros (q' & a & Hq' & Hina & Hid & Hrow).
        destruct Horigin as [Hin1|(row1 & _ & _ & _ & ->)]; [|done].
        destruct (Hleft1 row' Hin1) as [Hfree1 _].
        destruct (decide (QuizAnswer.questionId a = QuizQuestion.id q)) as [Heq|Hne].
        -- apply (Hfree1 _ Hrow). apply list_elem_of_fmap. exists a. split; [done|].
           apply list_elem_of_In, filter_In. split; [by apply list_elem_of_In | lia].
        -- apply Hfree. exists q', a.
           apply elem_of_cons in Hq' as [->|Hq']; [done|].
           split; [done|]. split; [by apply Hanswers1|]. done.
      * destruct Horigin as [Hin1|(row1 & Hin1 & Hnamed1 & Hset & ->)].
        -- destruct (Hleft1 row' Hin1) as [_ [Hin0|(row0 & a & Hin0 & Hrow & Hgone & Hset & ->)]];
             [by left|].
           right. exists row0. split; [done|]. split; [|done].
           by eapply gone_answerOf.
        -- destruct (Hleft1 row1 Hin1) as [_ [Hin0|(row0 & a & _ & _ & _ & _ & ->)]].
           ++ right. exists row1. split; [done|]. split; [by apply Hmono | done].
           ++ by destruct Hnamed1 as (? & ? & _ & _ & _ & ?).
Qed.

Lemma destroyAnswersOf_None (questions : list QuizQuestion.t) :
  forall tx,
    destroyAnswersOf schema questions tx = None ->
    answerId_onDelete schema = NoAction
    /\ exists row, row ∈ user_quiz_answers (working tx)
                   /\ answerOf questions (working tx) row.
Proof.
  induction questions as [|q questions IH]; intros tx; [done|].
  cbn [destroyAnswersOf]. unfold run at 1.
  destruct (destroyAnswers schema (QuizQuestion.id q) (working tx)) as [db1|] eqn:Hstep.
  - cbn [mbind option_bind]. intros Hrest.
    destruct (IH _ Hrest) as (Hno & row & Hin & Hnamed). cbn [working] in *.
    apply destroyAnswers_Some in Hstep as (_ & _ & _ & Ha1 & Hrows1).
    apply answersGone_Some in Hrows1 as [_ Hleft1]. split; [done|].
    exists row. split.
    + destruct (Hleft1 row Hin) as [_ [Hin0|(? & ? & _ & _ & _ & Hset & _)]]; [done|].
      by rewrite Hno in Hset.
    + eapply answerOf_mono; [| |exact Hnamed].
      * intros; by apply list_elem_of_further.
      * intros a Hina. rewrite Ha1 in Hina.
        apply list_elem_of_In, filter_In in Hina as [Hina _].
        by apply list_elem_of_In.
  - intros _. unfold destroyAnswers in Hstep.
    destruct (answersGone schema _ _) as [rows|] eqn:Hgone; [done|].
    apply answersGone_None in Hgone as (Hno & row & a & Hin & Hrow & Hgone).
    split; [done|]. exists row. split; [done|]. by eapply gone_answerOf.
Qed.

Lemma destroyAnswersOf_free (questions : list QuizQuestion.t) :
  forall tx,
    (forall row, row ∈ user_quiz_answers (working tx) ->
                 ~ answerOf questions (working tx) row) ->
    exists tx', destroyAnswersOf schema questions tx = Some tx'
                /\ user_quiz_answers (working tx') = user_quiz_answers (working tx).
Proof.
  induction questions as [|q questions IH]; intros tx Hfree; [by exists tx|].
  cbn [destroyAnswersOf]. unfold run at 1, destroyAnswers.
  rewrite answersGone_free.
  2:{ intros row a Hin Hrow Hgone. apply (Hfree row Hin). by eapply gone_answerOf. }
  cbn [mbind option_bind].
  match goal with
  | |- context [destroyAnswersOf schema questions ?tx1] =>
      destruct (IH tx1) as (tx' & Hrest & Hrows)
  end.
  - cbn [working user_quiz_answers quiz_answers]. intros row Hin Hnamed.
    apply (Hfree row Hin). eapply answerOf_mono; [| |exact Hnamed].
    + intros; by apply list_elem_of_further.
    + cbn. intros a Hina. apply list_elem_of_In, filter_In in Hina as [Hina _].
      by apply list_elem_of_In.
  - exists tx'. by split.
Qed.

End ForeignKeys.

Section Delete.
Variable schema : Schema.
Variables (blocked deleted failed : string).

Lemma deleteFound_blocked (db : DB) (id : Z) (quiz : Quiz.t) :
  (exists a, a ∈ quiz_attempts db /\ QuizAttempt.quizId a = id) ->
  deleteFound schema blocked deleted failed db id quiz = (Failure 400 blocked, db).
Proof.
  intros Ha. apply attemptCount_pos in Ha.
  unfold deleteFound. by rewrite bool_decide_eq_true_2.
Qed.

Lemma questionsOf_frame (db db' : DB) (id : Z) :
  quiz_questions db' = quiz_questions db -> questionsOf db' id = questionsOf db id.
Proof. unfold questionsOf. by intros ->. Qed.

Lemma questionOf_gone (questions : list QuizQuestion.t) (row : UserQuizAnswer.t) :
  questionOf questions row
  <-> UserQuizAnswer.questionId row ∈ QuizQuestion.id <$> questions.
Proof.
  unfold questionOf. rewrite list_elem_of_fmap. split; intros (q & H1 & H2); by exists q.
Qed.

Lemma destroyQuestions_Some (db db' : DB) (id : Z) :
  destroyQuestions schema id db = Some db' ->
  quizzes db' = quizzes db
  /\ quiz_questions db'
     = List.filter (fun q => negb (QuizQuestion.quizId q =? id)) (quiz_questions db)
  /\ quiz_answers db' = quiz_answers db
  /\ quiz_attempts db' = quiz_attempts db
  /\ questionsGone schema (QuizQuestion.id <$> questionsOf db id)
                   (user_quiz_answers db) = Some (user_quiz_answers db').
Proof.
  unfold destroyQuestions.
  destruct (questionsGone schema _ _) as [rows|]; [|done]. by intros [= <-].
Qed.

Lemma destroyQuestions_None (db : DB) (id : Z) :
  destroyQuestions schema id db = None ->
  questionsGone schema (QuizQuestion.id <$> questionsOf db id)
                (user_quiz_answers db) = None.
Proof.
  unfold destroyQuestions. by destruct (questionsGone schema _ _) as [rows|].
Qed.

Lemma deleteFound_cascade (db : DB) (id : Z) (quiz : Quiz.t) :
  Quiz.id quiz = id ->
  (forall a, a ∈ quiz_attempts db -> QuizAttempt.quizId a <> id) ->
  (exists db',
     deleteFound schema blocked deleted failed db id quiz = (Success 200 deleted, db')
     /\ cascaded schema id db db')
  \/ (deleteFound schema blocked deleted failed db id quiz = (Failure 500 failed, db)
      /\ hindered schema id db).
Proof.
  intros Hid Hno. unfold deleteFound.
  rewrite bool_decide_eq_false_2.
  2:{ rewrite attemptCount_pos. intros (a & Ha & Heq). by apply (Hno a). }
  destruct (destroyAnswersOf schema (questionsOf db id) (begin db)) as [tx1|] eqn:Hloop.
  2:{ right. split; [done|]. left.
      by apply destroyAnswersOf_None in Hloop as [? ?]. }
  apply destroyAnswersOf_Some in Hloop as (Hc & Hz & Hq & Ht & Ha & Hkept & Hleft).
  cbn [begin working committed] in *. cbn [mbind option_bind]. unfold run.
  destruct (destroyQuestions schema id (working tx1)) as [db2|] eqn:Hstep.
  - left. eexists. split; [reflexivity|].
    apply destroyQuestions_Some in Hstep as (Hz2 & Hq2 & Ha2 & Ht2 & Hgone).
    rewrite (questionsOf_frame _ _ _ Hq) in Hgone.
    apply questionsGone_Some in Hgone as [Hkept2 Hleft2].
    unfold cascaded, commit, onWorking, destroyQuiz.
    cbn [working quizzes quiz_questions quiz_answers quiz_attempts user_quiz_answers].
    rewrite Hq2, Ht2, Ht.
    split; [|split; [|split; [|split; [done|split]]]].
    + intros q. rewrite !list_elem_of_In, filter_In, Hz2, Hz, <- !list_elem_of_In.
      split; intros [H1 H2]; (split; [done | lia]).
    + intros q. rewrite !list_elem_of_In, filter_In, Hq, <- !list_elem_of_In.
      split; intros [H1 H2]; (split; [done | lia]).
    + intros a. rewrite Ha2, Ha. split; intros [H1 H2]; (split; [done|]).
      * intros q Hq' Hqid. apply H2. unfold questionsOf.
        rewrite list_elem_of_In, filter_In, <- list_elem_of_In. split; [done | lia].
      * intros q Hq'. unfold questionsOf in Hq'.
        rewrite list_elem_of_In, filter_In, <- list_elem_of_In in Hq'.
        destruct Hq' as [Hq' Hqid]. apply H2; [done | lia].
    + intros row Hin HnoQ HnoA. apply Hkept2; [by apply Hkept|].
      intros Hgone. by apply HnoQ, questionOf_gone.
    + intros row' Hin. destruct (Hleft2 row' Hin) as [Hfree Hin1].
      destruct (Hleft row' Hin1) as [HnoA Horigin].
      split; [|split; [done|]].
      * intros Hq'. by apply Hfree, questionOf_gone.
      * destruct Horigin as [?|(row & ? & ? & ? & ?)]; [by left|]. right. by exists row.
  - right. cbn [mbind option_bind rollback committed begin]. split; [done|]. right.
    apply destroyQuestions_None in Hstep as Hgone.
    rewrite (questionsOf_frame _ _ _ Hq) in Hgone.
    apply questionsGone_None in Hgone as (Hstop & row & Hin & Hgone).
    split; [done|].
    destruct (Hleft row Hin) as [_ [Hin0|(row0 & Hin0 & _ & _ & ->)]].
    + exists row. split; [done|]. by apply questionOf_gone.
    + exists row0. split; [done|]. by apply questionOf_gone.
Qed.

(** When no row names an answer or a question of the quiz, no foreign
    key has anything to do, whatever its action is. *)
Lemma deleteFound_free (db : DB) (id : Z) (quiz : Quiz.t) :
  Quiz.id quiz = id ->
  (forall a, a ∈ quiz_attempts db -> QuizAttempt.quizId a <> id) ->
  (forall row, row ∈ user_quiz_answers db ->
               ~ namesQuestion id db row /\ ~ namesAnswer id db row) ->
  exists db',
    deleteFound schema blocked deleted failed db id quiz = (Success 200 deleted, db')
    /\ cascaded schema id db db'
    /\ user_quiz_answers db' = user_quiz_answers db.
Proof.
  intros Hid Hno Hfree.
  destruct (deleteFound_cascade db id quiz Hid Hno)
    as [(db' & Hrun & Hcascaded)|[_ [[_ (row & Hin & Hnamed)]|[_ (row & Hin & Hnamed)]]]].
  2,3: by destruct (Hfree row Hin).
  exists db'. split; [done|]. split; [done|].
  revert Hrun. unfold deleteFound.
  rewrite bool_decide_eq_false_2.
  2:{ rewrite attemptCount_pos. intros (a & Ha & Heq). by apply (Hno a). }
  destruct (destroyAnswersOf_free schema (questionsOf db id) (begin db))
    as (tx1 & Hloop & Hrows).
  { intros row Hin. by destruct (Hfree row Hin). }
  rewrite Hloop. cbn [mbind option_bind]. unfold run, destroyQuestions.
  rewrite questionsGone_free.
  2:{ rewrite Hrows. intros row Hin Hgone. destruct (Hfree row Hin) as [HnoQ _].
      apply HnoQ, questionOf_gone.
      apply destroyAnswersOf_Some in Hloop as (_ & _ & Hq & _).
      by rewrite <- (questionsOf_frame _ _ _ Hq). }
  cbn. by intros [= <-].
Qed.

End Delete.


(** ** Sanitization of the quiz view *)

(** *** What a shuffle can return *)

Section ShuffleInvariant.
Context {A : Type} (P : A -> Prop).

Lemma slotOk_None : slotOk P None.
Proof. by intros x. Qed.

Lemma slotOk_mjoin_list (l : list (option A)) (n : nat) :
  Forall (slotOk P) l -> slotOk P (mjoin (l !! n)).
Proof.
  intros Hl. destruct (l !! n) as [o|] eqn:Hn; [|apply slotOk_None].
  cbn. by eapply Forall_lookup_1.
Qed.

Lemma aget_ok (a : jsarray A) (k : JS.key) : arrayOk P a -> slotOk P (aget a k).
Proof.
  intros [He Hp].
  assert (slotOk P (mjoin (props a !! k))) as Hprop.
  { destruct (props a !! k) as [o|] eqn:Hk; [|apply slotOk_None].
    cbn. by apply (Hp k o). }
  destruct k as [z| |b]; cbn; [|done..].
  destruct (decide (0 <= z)); [by apply slotOk_mjoin_list | done].
Qed.

Lemma aset_ok (a : jsarray A) (k : JS.key) (v : option A) :
  arrayOk P a -> slotOk P v -> arrayOk P (aset a k v).
Proof.
  intros [He Hp] Hv.
  assert (arrayOk P (JSArray (elems a) (<[k := v]> (props a)))) as Hprop.
  { split; [done|]. by apply map_Forall_insert_2. }
  destruct k as [z| |b]; cbn; [|done..].
  destruct (decide (0 <= z)); [|done].
  destruct (decide _); split; cbn; try done.
  - by apply Forall_insert.
  - apply Forall_app. split; [done|]. apply Forall_app. split.
    + apply Forall_replicate. apply slotOk_None.
    + by apply Forall_singleton.
Qed.

Lemma swap_ok (a : jsarray A) (i j : JS.key) : arrayOk P a -> arrayOk P (swap a i j).
Proof.
  intros Ha. unfold swap.
  apply aset_ok; [apply aset_ok|]; auto using aget_ok.
Qed.

Lemma shuffleLoop_ok (g : generator) (i : nat) :
  forall (a a' : jsarray A) (st st' : store),
    arrayOk P a -> shuffleLoop g i a st = Some (a', st') -> arrayOk P a'.
Proof.
  induction i as [|i IH]; intros a a' st st' Ha Hrun.
  - cbn in Hrun. by injection Hrun as <- _.
  - cbn [shuffleLoop] in Hrun. unfold bind at 1 in Hrun.
    destruct (random g st) as [[r st1]|]; [|done].
    eapply IH; [|exact Hrun]. by apply swap_ok.
Qed.

Lemma shuffleArray_ok (g : generator) (array : list A) (out : list (option A))
    (st st' : store) :
  Forall P array -> shuffleArray array g st = Some (out, st') -> Forall (slotOk P) out.
Proof.
  intros Harr Hrun. unfold shuffleArray, bind in Hrun.
  destruct (shuffleLoop _ _ _ _) as [[a' st1]|] eqn:Hloop; [|done].
  injection Hrun as <- _.
  apply (shuffleLoop_ok _ _ _ _ _ _) in Hloop; [by destruct Hloop|].
  split; [|apply map_Forall_empty]. cbn.
  apply Forall_fmap. eapply Forall_impl; [exact Harr|].
  intros x Hx y [= <-]. exact Hx.
Qed.

End ShuffleInvariant.

(** *** The shape of a view *)

Ltac in_list :=
  repeat first [apply list_elem_of_here | apply list_elem_of_further].

Ltac cases_in H :=
  repeat (apply elem_of_cons in H as [->|H]); [..|by apply elem_of_nil in H].

Lemma keys_JArr_cons (x : json) (l : list json) :
  keys (JArr (x :: l)) = keys x ++ keys (JArr l).
Proof. reflexivity. Qed.

Lemma keys_JArr (l : list json) (k : string) :
  k ∈ keys (JArr l) <-> exists x, x ∈ l /\ k ∈ keys x.
Proof.
  induction l as [|x l IH].
  - cbn. split; [by intros H%elem_of_nil | by intros (x & H%elem_of_nil & _)].
  - rewrite keys_JArr_cons, elem_of_app, IH. split.
    + intros [H|(y & Hy & H)].
      * exists x. split; [apply list_elem_of_here | done].
      * exists y. split; [by apply list_elem_of_further | done].
    + intros (y & Hy & H). apply elem_of_cons in Hy as [->|Hy]; [by left|].
      right. by exists y.
Qed.

Lemma bareAnswer_keys (v : json) (k : string) :
  bareAnswer v -> k ∈ keys v -> k ∈ ["id"; "answerText"].
Proof. intros [->|(id & text & ->)]; cbn; [by intros H%elem_of_nil | done]. Qed.

Lemma bareQuestion_keys (v : json) (k : string) :
  bareQuestion v -> k ∈ keys v -> k ∈ viewKeys.
Proof.
  intros (id & text & type & points & position & answers & -> & Hans).
  change (keys (JObj _)) with
    (["id"; "questionText"; "questionType"; "points"; "position"; "answers"]
     ++ (keys (JArr answers) ++ [])).
  rewrite app_nil_r, elem_of_app, keys_JArr. intros [H|(x & Hx & H)].
  - unfold viewKeys. cases_in H; in_list.
  - rewrite Forall_forall in Hans.
    apply (bareAnswer_keys _ _ (Hans x Hx)) in H.
    unfold viewKeys. cases_in H; in_list.
Qed.

Lemma viewAnswers_bare (db : DB) (questionId : Z) :
  Forall bareAnswer (viewAnswers db questionId).
Proof.
  unfold viewAnswers. apply Forall_fmap, Forall_forall. intros a _.
  right. by exists (QuizAnswer.id a), (QuizAnswer.answerText a).
Qed.

Lemma viewQuestions_bare (db : DB) (quizId : Z) :
  Forall bareQuestion (viewQuestions db quizId).
Proof.
  unfold viewQuestions. apply Forall_fmap, Forall_forall. intros q _.
  exists (QuizQuestion.id q), (QuizQuestion.questionText q),
    (QuestionType_name (QuizQuestion.questionType q)), (QuizQuestion.points q),
    (QuizQuestion.position q), (viewAnswers db (QuizQuestion.id q)).
  split; [reflexivity | apply viewAnswers_bare].
Qed.

Lemma holesToNull_bare (l : list (option json)) :
  Forall (slotOk bareAnswer) l -> Forall bareAnswer (holesToNull l).
Proof.
  intros H. apply Forall_fmap. eapply Forall_impl; [exact H|].
  intros [x|] Hx; cbn; [by apply Hx | by left].
Qed.

Lemma shuffleAnswersOf_bare (g : nat) (question q' : option json) (st st' : list Z) :
  slotOk bareQuestion question ->
  shuffleAnswersOf g question st = Some (q', st') ->
  slotOk bareQuestion q'.
Proof.
  intros Hq Hrun. unfold shuffleAnswersOf, bind, defined in Hrun.
  destruct question as [v|]; [|done].
  destruct (Hq v eq_refl) as (id & text & type & points & position & answers & -> & Hans).
  cbn in Hrun. case_bool_decide.
  - destruct (shuffleArray answers g st) as [[out st1]|] eqn:Hsh; [|done].
    injection Hrun as <- _. intros x [= <-].
    exists id, text, type, points, position, (holesToNull out).
    split; [reflexivity|]. apply holesToNull_bare.
    by eapply shuffleArray_ok.
  - injection Hrun as <- _. intros x [= <-].
    by exists id, text, type, points, position, answers.
Qed.

Lemma mapM_shuffleAnswersOf_bare (g : nat) (questions : list (option json)) :
  forall out st st',
    Forall (slotOk bareQuestion) questions ->
    mapM (shuffleAnswersOf g) questions st = Some (out, st') ->
    Forall (slotOk bareQuestion) out.
Proof.
  induction questions as [|q questions IH]; intros out st st' Hqs Hrun.
  - injection Hrun as <- _. constructor.
  - cbn [mapM] in Hrun. unfold bind at 1 in Hrun.
    destruct (shuffleAnswersOf g q st) as [[q' st1]|] eqn:Hq; [|done].
    unfold bind at 1 in Hrun.
    destruct (mapM _ questions st1) as [[out' st2]|] eqn:Hrest; [|done].
    injection Hrun as <- _. inversion Hqs; subst. constructor.
    + by eapply shuffleAnswersOf_bare.
    + by eapply IH.
Qed.

Lemma reposition_bare (index : nat) (question : option json) (v : json)
    (st st' : list Z) :
  slotOk bareQuestion question ->
  reposition index question st = Some (v, st') ->
  bareQuestion v.
Proof.
  intros Hq Hrun. unfold reposition, bind, defined in Hrun.
  destruct question as [x|]; [|done].
  destruct (Hq x eq_refl) as (id & text & type & points & position & answers & -> & Hans).
  injection Hrun as <- _.
  by exists id, text, type, points, (Z.of_nat index), answers.
Qed.

Lemma mapiM_reposition_bare (questions : list (option json)) :
  forall index out st st',
    Forall (slotOk bareQuestion) questions ->
    mapiM reposition index questions st = Some (out, st') ->
    Forall bareQuestion out.
Proof.
  induction questions as [|q questions IH]; intros index out st st' Hqs Hrun.
  - injection Hrun as <- _. constructor.
  - cbn [mapiM] in Hrun. unfold bind at 1 in Hrun.
    destruct (reposition index q st) as [[q' st1]|] eqn:Hq; [|done].
    unfold bind at 1 in Hrun.
    destruct (mapiM _ _ questions st1) as [[out' st2]|] eqn:Hrest; [|done].
    injection Hrun as <- _. inversion Hqs; subst. constructor.
    + by eapply reposition_bare.
    + by eapply IH.
Qed.

Lemma randomizeQuestions_bare (req : ViewRequest) (questions out : list json)
    (st st' : list Z) :
  Forall bareQuestion questions ->
  randomizeQuestions req questions st = Some (out, st') ->
  Forall bareQuestion out.
Proof.
  intros Hqs Hrun. unfold randomizeQuestions in Hrun.
  unfold bind at 1 in Hrun. cbn [createSeededRandom] in Hrun.
  unfold bind at 1 in Hrun.
  destruct (shuffleArray questions _ _) as [[sh st1]|] eqn:Hsh; [|done].
  apply (shuffleArray_ok bareQuestion) in Hsh; [|done].
  set (cut := match questionCount req with Some _ => _ | None => _ end) in Hrun.
  assert (Forall (slotOk bareQuestion) cut) as Hcut.
  { unfold cut. destruct (questionCount req) as [qc|]; [|done].
    destruct (_ && _); [by apply Forall_take | done]. }
  clearbody cut. unfold bind at 1 in Hrun.
  destruct (bool_decide (shuffleAnswers req = Some "true")).
  - destruct (mapM _ cut st1) as [[cut' st2]|] eqn:Hmap; [|done].
    eapply mapiM_reposition_bare; [|exact Hrun].
    by eapply mapM_shuffleAnswersOf_bare.
  - cbn in Hrun. by eapply mapiM_reposition_bare.
Qed.

Lemma assemble_Success (failed : string) (db : DB) (req : ViewRequest)
    (quiz : Quiz.t) (status : Z) (data : json) :
  assemble failed db req quiz = Success status data ->
  exists questions meta,
    Forall bareQuestion questions
    /\ data = JObj (Quiz.toJSON quiz
                    ++ [("questions", JArr questions); ("metadata", JObj meta)])
    /\ forall k, k ∈ keys (JObj meta) -> k ∈ viewKeys.
Proof.
  unfold assemble.
  set (all := viewQuestions db (Quiz.id quiz)).
  assert (Forall bareQuestion all) as Hall by apply viewQuestions_bare.
  match goal with
  | |- context [match ?run with Some _ => _ | None => _ end] =>
      destruct run as [[questions st']|] eqn:Hrun; [|done]
  end.
  intros [= <- <-]. exists questions. eexists. split; [|split; [reflexivity|]].
  - destruct (_ && _).
    + by eapply randomizeQuestions_bare.
    + by injection Hrun as <- _.
  - intros k Hk. destruct (bool_decide (randomize req = Some "true"));
      cbn in Hk; unfold viewKeys; cases_in Hk; in_list.
Qed.

Lemma optJ_leaf_keys {A} (f : A -> json) (o : option A) :
  (forall a, keys (f a) = []) -> keys (optJ f o) = [].
Proof. intros Hf. destruct o; [apply Hf | done]. Qed.

Lemma view_keys (quiz : Quiz.t) (questions : list json) (meta : list (string * json))
    (k : string) :
  Forall bareQuestion questions ->
  (forall k, k ∈ keys (JObj meta) -> k ∈ viewKeys) ->
  k ∈ keys (JObj (Quiz.toJSON quiz
                  ++ [("questions", JArr questions); ("metadata", JObj meta)])) ->
  k ∈ viewKeys.
Proof.
  intros Hqs Hmeta.
  change (keys (JObj _)) with
    ("id" :: "lessonId" :: keys (optJ JNum (Quiz.lessonId quiz))
     ++ "category" :: keys (optJ JStr (Quiz.category quiz))
     ++ "difficulty" :: keys (optJ JStr (Quiz.difficulty quiz))
     ++ "title" :: "description" :: keys (optJ JStr (Quiz.description quiz))
     ++ "timeLimit" :: keys (optJ JNum (Quiz.timeLimit quiz))
     ++ "passingScore" :: keys (optJ JNum (Quiz.passingScore quiz))
     ++ "questions" :: keys (JArr questions)
     ++ "metadata" :: keys (JObj meta) ++ []).
  rewrite !optJ_leaf_keys by done. cbn [app]. rewrite app_nil_r.
  intros Hk.
  do 9 (apply elem_of_cons in Hk as [->|Hk]; [by unfold viewKeys; in_list|]).
  apply elem_of_app in Hk as [Hk|Hk].
  - apply keys_JArr in Hk as (q & Hq & Hk).
    rewrite Forall_forall in Hqs. exact (bareQuestion_keys q k (Hqs q Hq) Hk).
  - apply elem_of_cons in Hk as [->|Hk]; [unfold viewKeys; in_list|].
    by apply Hmeta.
Qed.

Lemma view_returnedAnswers (quiz : Quiz.t) (questions : list json)
    (meta : list (string * json)) :
  Forall bareQuestion questions ->
  Forall bareAnswer
    (returnedAnswers (JObj (Quiz.toJSON quiz
       ++ [("questions", JArr questions); ("metadata", JObj meta)]))).
Proof.
  intros Hqs. unfold returnedAnswers. cbn [fieldsOf].
  change (Obj.get "questions" _) with (Some (JArr questions)).
  change (Forall bareAnswer
            (questions ≫= fun q =>
               itemsOf (default JNull (Obj.get "answers" (fieldsOf q))))).
  induction Hqs as [|q questions Hq Hqs IH]; [constructor|].
  rewrite bind_cons, Forall_app. split; [|exact IH].
  by destruct Hq as (id & text & type & points & position & answers & -> & Hans).
Qed.

(** *** The view does not depend on what was scrubbed *)

Lemma filter_fmap_pres {A} (f : A -> bool) (g : A -> A) (l : list A) :
  (forall x, f (g x) = f x) ->
  List.filter f (g <$> l) = g <$> List.filter f l.
Proof.
  intros Hfg. induction l as [|x l IH]; [done|].
  cbn. rewrite Hfg. destruct (f x); cbn; by rewrite IH.
Qed.

Lemma insertBy_fmap {A} (key : A -> Z) (g : A -> A) (x : A) (l : list A) :
  (forall x, key (g x) = key x) ->
  insertBy key (g x) (g <$> l) = g <$> insertBy key x l.
Proof.
  intros Hk. induction l as [|y l IH]; [done|].
  cbn. rewrite !Hk. destruct (key x <=? key y); cbn; [done | by rewrite IH].
Qed.

Lemma orderBy_fmap {A} (key : A -> Z) (g : A -> A) (l : list A) :
  (forall x, key (g x) = key x) ->
  orderBy key (g <$> l) = g <$> orderBy key l.
Proof.
  intros Hk. unfold orderBy. induction l as [|x l IH]; [done|].
  cbn [fmap list_fmap foldr]. cbn [fmap list_fmap] in IH. rewrite IH.
  by apply insertBy_fmap.
Qed.

Lemma viewAnswers_scrub (db : DB) (questionId : Z) :
  viewAnswers (scrub db) questionId = viewAnswers db questionId.
Proof.
  unfold viewAnswers, answersOf. cbn [scrub quiz_answers].
  rewrite filter_fmap_pres by done. rewrite orderBy_fmap by done.
  rewrite <- list_fmap_compose. by apply list_fmap_ext.
Qed.

Lemma viewQuestions_scrub (db : DB) (quizId : Z) :
  viewQuestions (scrub db) quizId = viewQuestions db quizId.
Proof.
  unfold viewQuestions, questionsOf. cbn [scrub quiz_questions].
  rewrite filter_fmap_pres by done. rewrite orderBy_fmap by done.
  rewrite <- list_fmap_compose. apply list_fmap_ext. intros i q _.
  unfold compose, viewQuestion. by rewrite viewAnswers_scrub.
Qed.

Lemma assemble_scrub (failed : string) (db : DB) (req : ViewRequest) (quiz : Quiz.t) :
  assemble failed (scrub db) req quiz = assemble failed db req quiz.
Proof. unfold assemble. by rewrite viewQuestions_scrub. Qed.

Lemma getQuizById_scrub (db : DB) (req : ViewRequest) :
  getQuizById (scrub db) req = getQuizById db req.
Proof.
  unfold getQuizById, findByPk. cbn [scrub quizzes].
  destruct (List.find _ _); [apply assemble_scrub | done].
Qed.

Lemma getMockTestById_scrub (db : DB) (req : ViewRequest) :
  getMockTestById (scrub db) req = getMockTestById db req.
Proof.
  unfold getMockTestById, findMockTest. cbn [scrub quizzes].
  destruct (List.find _ _); [apply assemble_scrub | done].
Qed.

(** C9.  Whatever the store and the options of the request, a view
    returned by [getQuizById] or [getMockTestById] has no property named
    [isCorrect] and none named [explanation] at any depth, and each of
    the answers it returns is an object with an [id] and an [answerText]
    and nothing else (or a hole).  Two stores that differ only in the
    correctness flags of answers and the explanations of questions and
    answers get the same response to the same request. *)
Theorem view_sanitized (db db' : DB) (req : ViewRequest) :
  (forall status data,
      getQuizById db req = Success status data
      \/ getMockTestById db req = Success status data ->
      "isCorrect" ∉ keys data /\ "explanation" ∉ keys data
      /\ Forall bareAnswer (returnedAnswers data))
  /\ (scrub db = scrub db' ->
      getQuizById db req = getQuizById db' req
      /\ getMockTestById db req = getMockTestById db' req).
Proof.
  split.
  - intros status data Hview.
    assert (exists failed quiz, assemble failed db req quiz = Success status data)
      as (failed & quiz & Hasm).
    { destruct Hview as [H|H].
      - unfold getQuizById in H. destruct (findByPk _ _) as [quiz|]; [eauto | done].
      - unfold getMockTestById in H.
        destruct (findMockTest _ _) as [quiz|]; [eauto | done]. }
    apply assemble_Success in Hasm as (questions & meta & Hqs & -> & Hmeta).
    split; [|split].
    + intros Hk. apply view_keys in Hk; [|done..].
      unfold viewKeys in Hk.
      repeat (apply elem_of_cons in Hk as [Hk|Hk]; [discriminate|]).
      by apply elem_of_nil in Hk.
    + intros Hk. apply view_keys in Hk; [|done..].
      unfold viewKeys in Hk.
      repeat (apply elem_of_cons in Hk as [Hk|Hk]; [discriminate|]).
      by apply elem_of_nil in Hk.
    + by apply view_returnedAnswers.
  - intros Hscrub. split.
    + by rewrite <- (getQuizById_scrub db), Hscrub, getQuizById_scrub.
    + by rewrite <- (getMockTestById_scrub db), Hscrub, getMockTestById_scrub.
Qed.

(** ** Binary64 arithmetic of the percentage and of the swap index *)


(** *** Binary64 rounding never crosses a representable bound *)

Lemma digits2_size (p : positive) : digits2_pos p = Pos.size p.
Proof. induction p; cbn; congruence. Qed.

Lemma digits2_bounds (p : positive) :
  2 ^ (Zpos (digits2_pos p) - 1) <= Zpos p < 2 ^ Zpos (digits2_pos p).
Proof.
  rewrite digits2_size. split.
  - pose proof (Pos.size_le p) as H.
    assert (2 ^ Zpos (Pos.size p) <= 2 * Zpos p) as H2.
    { rewrite <- Pos2Z.inj_pow. change (2 * Zpos p) with (Zpos p~0). lia. }
    replace (Zpos (Pos.size p)) with (Zpos (Pos.size p) - 1 + 1) in H2 by lia.
    rewrite Z.pow_add_r, Z.pow_1_r in H2 by lia. lia.
  - pose proof (Pos.size_gt p) as H. rewrite <- Pos2Z.inj_pow. lia.
Qed.

Lemma iter_pos_nat {A} (f : A -> A) (p : positive) (x : A) :
  SpecFloat.iter_pos f p x = @Nat.iter (Pos.to_nat p) A f x.
Proof.
  revert x. induction p as [p IH|p IH|]; intros x; cbn [SpecFloat.iter_pos].
  - rewrite !IH, Pos2Nat.inj_xI.
    replace (S (2 * Pos.to_nat p))%nat with (Pos.to_nat p + (Pos.to_nat p + 1))%nat by lia.
    rewrite !Nat.iter_add. reflexivity.
  - rewrite !IH, Pos2Nat.inj_xO.
    replace (2 * Pos.to_nat p)%nat with (Pos.to_nat p + Pos.to_nat p)%nat by lia.
    rewrite Nat.iter_add. reflexivity.
  - reflexivity.
Qed.

Lemma shr_1_spec (mrs : shr_record) :
  0 <= shr_m mrs ->
  shr_m (shr_1 mrs) = shr_m mrs / 2 /\ shr_r (shr_1 mrs) = Z.odd (shr_m mrs).
Proof.
  destruct mrs as [m r s]. cbn [shr_m shr_r]. intros Hm.
  destruct m as [|[p|p|]|p]; cbn [shr_1 shr_m shr_r]; try lia.
  - done.
  - split; [|done]. rewrite Pos2Z.inj_xI.
    apply Z.div_unique with (r := 1); lia.
  - split; [|done]. rewrite Pos2Z.inj_xO.
    apply Z.div_unique with (r := 0); lia.
  - done.
Qed.

Lemma shr_iter_spec (k : nat) (mrs : shr_record) :
  0 <= shr_m mrs ->
  let out := @Nat.iter k shr_record shr_1 mrs in
  shr_m out = shr_m mrs / 2 ^ Z.of_nat k
  /\ ((0 < k)%nat -> shr_m mrs mod 2 ^ Z.of_nat k = 0 -> shr_r out = false).
Proof.
  intros Hm. induction k as [|k IH]; cbn zeta.
  - cbn. rewrite Z.div_1_r. split; [done | lia].
  - change (@Nat.iter (S k) shr_record shr_1 mrs)
      with (shr_1 (@Nat.iter k shr_record shr_1 mrs)).
    cbn zeta in IH. destruct IH as [IHm IHr].
    assert (0 <= shr_m (@Nat.iter k shr_record shr_1 mrs)) as Hk.
    { rewrite IHm. apply Z.div_pos; lia. }
    destruct (shr_1_spec _ Hk) as [Hm1 Hr1]. split.
    + rewrite Hm1, IHm, Nat2Z.inj_succ, Z.pow_succ_r by lia.
      rewrite Z.div_div by lia. f_equal. lia.
    + intros _ Hmod. rewrite Hr1, IHm.
      rewrite Nat2Z.inj_succ, Z.pow_succ_r in Hmod by lia.
      apply Z.mod_divide in Hmod; [|lia]. destruct Hmod as [c Hc].
      rewrite Hc.
      replace (c * (2 * 2 ^ Z.of_nat k)) with ((c * 2) * 2 ^ Z.of_nat k) by lia.
      rewrite Z.div_mul by lia.
      rewrite Z.odd_mul. cbn. apply andb_false_r.
Qed.

Lemma Zdigits2_bounds (m : Z) :
  0 <= m ->
  0 <= Zdigits2 m /\ m < 2 ^ Zdigits2 m /\ (0 < m -> 2 ^ (Zdigits2 m - 1) <= m).
Proof.
  intros Hm. destruct m as [|p|p]; [cbn; lia| |lia].
  pose proof (digits2_bounds p). cbn [Zdigits2]. lia.
Qed.

Lemma shr_spec (m e n : Z) (l : location) :
  0 <= m ->
  let out := shr (shr_record_of_loc m l) e n in
  out.2 = e + Z.max n 0
  /\ shr_m out.1 = m / 2 ^ Z.max n 0
  /\ (m mod 2 ^ Z.max n 0 = 0 -> l = loc_Exact -> shr_r out.1 = false).
Proof.
  intros Hm. cbn zeta.
  assert (shr_m (shr_record_of_loc m l) = m) as Hrec by (by destruct l as [|[]]).
  destruct n as [|p|p]; cbn [shr fst snd].
  - rewrite Z.max_id, Z.add_0_r, Z.div_1_r.
    split; [done|]. split; [done|]. by intros _ ->.
  - rewrite iter_pos_nat.
    pose proof (shr_iter_spec (Pos.to_nat p) (shr_record_of_loc m l)) as Hit.
    rewrite Hrec, positive_nat_Z in Hit. destruct (Hit Hm) as [H1 H2].
    rewrite Z.max_l by lia. split; [done|]. split; [done|].
    intros Hmod _. apply H2; [lia | done].
  - rewrite Z.max_r, Z.add_0_r, Z.div_1_r by lia.
    split; [done|]. split; [done|]. by intros _ ->.
Qed.

Lemma round_nearest_even_spec (mrs : shr_record) :
  let m := round_nearest_even (shr_m mrs) (loc_of_shr_record mrs) in
  shr_m mrs <= m <= shr_m mrs + 1 /\ (shr_r mrs = false -> m = shr_m mrs).
Proof.
  destruct mrs as [m [|] [|]]; cbn; try destruct (Z.even m); split; (lia || done).
Qed.

Lemma pow2_split (a b : Z) : 0 <= a -> 0 <= b -> 2 ^ (a + b) = 2 ^ a * 2 ^ b.
Proof. intros. by apply Z.pow_add_r. Qed.

Section Rounding.
Variables (Y s : Z).
Hypothesis HY : 0 <= Y < 2 ^ 53.
Hypothesis Hs : 0 <= s <= 1074.

Lemma fexp_digits_le (m e : Z) :
  0 <= m -> e <= - s -> m <= Y * 2 ^ (- s - e) ->
  fexp prec emax (Zdigits2 m + e) <= - s.
Proof.
  intros Hm He Hle. unfold fexp, SpecFloat.emin, prec, emax.
  apply Z.max_lub; [|lia].
  destruct (Zdigits2_bounds m Hm) as (Hd & _ & Hlow).
  destruct (Z.eq_dec m 0) as [->|Hne]; [cbn; lia|].
  assert (2 ^ (Zdigits2 m - 1) < 2 ^ (53 - s - e)) as Hpow.
  { replace (53 - s - e) with (53 + (- s - e)) by lia.
    rewrite Z.pow_add_r by lia.
    assert (0 < 2 ^ (- s - e)) by (apply Z.pow_pos_nonneg; lia).
    specialize (Hlow ltac:(lia)). nia. }
  apply Z.pow_lt_mono_r_iff in Hpow; lia.
Qed.

(** One shift-and-round step under the bound. *)
Lemma shift_le (m e n : Z) (l : location) :
  0 <= m -> e + Z.max n 0 <= - s ->
  m <= Y * 2 ^ (- s - e) -> (l <> loc_Exact -> m < Y * 2 ^ (- s - e)) ->
  let out := shr (shr_record_of_loc m l) e n in
  let m' := round_nearest_even (shr_m out.1) (loc_of_shr_record out.1) in
  0 <= shr_m out.1 /\ 0 <= m' /\ shr_m out.1 <= Y * 2 ^ (- s - out.2)
  /\ m' <= Y * 2 ^ (- s - out.2).
Proof.
  intros Hm He Hle Hstrict. cbn zeta.
  destruct (shr_spec m e n l Hm) as (He' & Hm' & Hr').
  destruct (round_nearest_even_spec (shr (shr_record_of_loc m l) e n).1)
    as [Hrne Hexact].
  set (out := shr (shr_record_of_loc m l) e n) in *.
  set (k := Z.max n 0) in *. assert (0 <= k) as Hk by lia.
  assert (0 < 2 ^ k) as Hpk by (apply Z.pow_pos_nonneg; lia).
  assert (Y * 2 ^ (- s - e) = (Y * 2 ^ (- s - out.2)) * 2 ^ k) as Hsplit.
  { rewrite He'. replace (- s - e) with (- s - (e + k) + k) by lia.
    rewrite pow2_split by lia. ring. }
  assert (0 <= shr_m out.1) as Hpos by (rewrite Hm'; apply Z.div_pos; lia).
  assert (shr_m out.1 <= Y * 2 ^ (- s - out.2)) as Hb.
  { rewrite Hm'. rewrite Hsplit in Hle.
    apply Z.div_le_upper_bound; [lia|]. lia. }
  split; [done|]. split; [lia|]. split; [done|].
  destruct (Z.eq_dec (shr_m out.1) (Y * 2 ^ (- s - out.2))) as [Heq|Hne]; [|lia].
  assert (m = Y * 2 ^ (- s - e)) as Hmeq.
  { pose proof (Z.div_mod m (2 ^ k) ltac:(lia)) as Hdm.
    pose proof (Z.mod_pos_bound m (2 ^ k) Hpk) as Hmod.
    rewrite <- Hm', Heq in Hdm. lia. }
  rewrite Hexact; [lia|]. apply Hr'.
  - rewrite Hmeq, Hsplit. apply Z.mod_mul. lia.
  - destruct l as [|c]; [done|]. exfalso.
    assert (m < Y * 2 ^ (- s - e)); [by apply Hstrict | lia].
Qed.

(** Rounding [mx * 2^ex], located by [lx], does not cross [Y / 2^s]. *)
Lemma round_le (mx ex : Z) (lx : location) :
  0 <= mx -> ex <= - s ->
  mx <= Y * 2 ^ (- s - ex) -> (lx <> loc_Exact -> mx < Y * 2 ^ (- s - ex)) ->
  le_dyadic (binary_round_aux prec emax false mx ex lx) Y s.
Proof.
  intros Hmx Hex Hle Hstrict. unfold binary_round_aux, shr_fexp.
  set (n1 := fexp prec emax (Zdigits2 mx + ex) - ex).
  assert (ex + Z.max n1 0 <= - s) as He1.
  { pose proof (fexp_digits_le mx ex Hmx Hex Hle). lia. }
  destruct (shift_le mx ex n1 lx Hmx He1 Hle Hstrict) as (_ & Hm2 & _ & Hle2).
  destruct (shr_spec mx ex n1 lx Hmx) as (He1' & _ & _).
  destruct (shr (shr_record_of_loc mx lx) ex n1) as [mrs1 e1].
  cbn [fst snd] in *.
  set (m2 := round_nearest_even (shr_m mrs1) (loc_of_shr_record mrs1)) in *.
  set (n2 := fexp prec emax (Zdigits2 m2 + e1) - e1).
  assert (e1 <= - s) as He1le by lia.
  assert (e1 + Z.max n2 0 <= - s) as He2.
  { pose proof (fexp_digits_le m2 e1 Hm2 He1le Hle2). lia. }
  destruct (shift_le m2 e1 n2 loc_Exact Hm2 He2 Hle2 ltac:(done))
    as (Hm3 & _ & Hle3 & _).
  destruct (shr_spec m2 e1 n2 loc_Exact Hm2) as (He2' & _ & _).
  destruct (shr (shr_record_of_loc m2 loc_Exact) e1 n2) as [mrs2 e2].
  cbn [fst snd] in *.
  destruct (shr_m mrs2) as [|m|m] eqn:Hm; [by left | | lia].
  right. exists m, e2.
  assert ((e2 <=? emax - prec) = true) as -> by (unfold emax, prec; lia).
  split; [done|]. split; [lia | done].
Qed.

End Rounding.

(** *** Integers below 2^53 convert exactly *)

Lemma iter_xO_spec (p k : positive) :
  Zpos (Pos.iter xO p k) = Zpos p * 2 ^ Zpos k
  /\ digits2_pos (Pos.iter xO p k) = (digits2_pos p + k)%positive.
Proof.
  induction k as [|k IH] using Pos.peano_ind.
  - cbn [Pos.iter]. split; [lia|]. cbn. lia.
  - rewrite Pos.iter_succ. destruct IH as [IH1 IH2]. split.
    + rewrite Pos2Z.inj_xO, IH1, Pos2Z.inj_succ, Z.pow_succ_r by lia. ring.
    + cbn [digits2_pos]. rewrite IH2. lia.
Qed.

Lemma exact_round (m : positive) (e : Z) :
  digits2_pos m = 53%positive -> -1074 <= e <= 971 ->
  binary_round_aux prec emax false (Zpos m) e loc_Exact = S754_finite false m e.
Proof.
  intros Hd He. unfold binary_round_aux, shr_fexp. cbn [Zdigits2]. rewrite Hd.
  assert (fexp prec emax (53 + e) - e = 0) as ->
    by (unfold fexp, SpecFloat.emin, prec, emax; lia).
  cbn [shr shr_record_of_loc shr_m loc_of_shr_record round_nearest_even
       Zdigits2]. rewrite Hd.
  assert (fexp prec emax (53 + e) - e = 0) as ->
    by (unfold fexp, SpecFloat.emin, prec, emax; lia).
  cbn [shr shr_record_of_loc shr_m].
  assert ((e <=? emax - prec) = true) as -> by (unfold emax, prec; lia).
  reflexivity.
Qed.

Lemma of_Z_holds (z : Z) : 0 < z < 2 ^ 53 -> holds (Prim2SF (JS.of_Z z)) z.
Proof.
  intros Hz. destruct z as [|p|p]; [lia| |lia]. unfold JS.of_Z.
  rewrite FloatAxioms.of_uint63_spec, Uint63.of_Z_spec, Z.mod_small
    by (change wB with (2 ^ 63); lia).
  cbn [binary_normalize]. unfold binary_round.
  pose proof (digits2_bounds p) as [Hlow Hhigh].
  set (d := digits2_pos p) in *.
  assert (Zpos d <= 53) as Hd.
  { assert (2 ^ (Zpos d - 1) < 2 ^ 53) as Hpow by lia.
    apply Z.pow_lt_mono_r_iff in Hpow; lia. }
  assert (fexp prec emax (Zpos d + 0) = Zpos d - 53) as ->
    by (unfold fexp, SpecFloat.emin, prec, emax; lia).
  unfold shl_align.
  destruct (Zpos d - 53 - 0) as [|k|k] eqn:Hk; [|lia|].
  - assert (d = 53%positive) as Hd53 by lia.
    rewrite exact_round by (done || lia).
    exists p, 0. split; [done|]. split; [lia|]. split; [cbn; lia | done].
  - destruct (iter_xO_spec p k) as [Hval Hdig].
    assert (digits2_pos (Pos.iter xO p k) = 53%positive) as Hd53 by (fold d in Hdig; lia).
    rewrite exact_round by (done || lia).
    exists (Pos.iter xO p k), (Zpos d - 53).
    split; [done|]. split; [lia|]. split; [|done].
    rewrite Hval. f_equal. f_equal. lia.
Qed.

(** *** Quotients and products of held integers *)

Lemma new_location_0 (n : Z) : new_location n 0 = loc_Exact.
Proof. unfold new_location. by destruct (Z.even n). Qed.

Lemma holds_bounds (x : spec_float) (z : Z) :
  holds x z ->
  exists m e, x = S754_finite false m e /\ -52 <= e <= 0
              /\ Zpos m = z * 2 ^ (- e) /\ 2 ^ 52 <= Zpos m < 2 ^ 53 /\ 0 < z.
Proof.
  intros (m & e & -> & He & Hm & Hd). exists m, e.
  pose proof (digits2_bounds m) as Hb. rewrite Hd in Hb.
  change (2 ^ (53 - 1)) with (2 ^ 52) in Hb.
  assert (0 < 2 ^ (- e)) by (apply Z.pow_pos_nonneg; lia).
  repeat split; try done; try lia; nia.
Qed.

(** [t / m <= Y / 2^s] carries over to the rounded quotient. *)
Lemma div_le (x y : spec_float) (t m Y s : Z) :
  holds x t -> holds y m -> t <= m ->
  0 <= Y < 2 ^ 53 -> 0 <= s <= 53 -> t * 2 ^ s <= Y * m ->
  le_dyadic (SFdiv prec emax x y) Y s.
Proof.
  intros Hx Hy Htm HY Hs Hbound.
  pose proof Hx as (mt & et & _ & _ & _ & Hdt).
  pose proof Hy as (mm & em & _ & _ & _ & Hdm).
  apply holds_bounds in Hx as (mt' & et' & -> & Het & Hmt & Hbt & Ht).
  apply holds_bounds in Hy as (mm' & em' & -> & Hem & Hmm & Hbm & Hm).
  clear mt et mm em Hdt Hdm.
  rename mt' into mt, et' into et, mm' into mm, em' into em.
  assert (0 < 2 ^ (- em)) as HA by (apply Z.pow_pos_nonneg; lia).
  assert (0 < 2 ^ (- et)) as HB by (apply Z.pow_pos_nonneg; lia).
  assert (et <= em) as Hee.
  { destruct (Z.le_gt_cases et em) as [?|Hgt]; [done|]. exfalso.
    assert (2 * 2 ^ (- et) <= 2 ^ (- em)) as Hpow.
    { rewrite <- Z.pow_succ_r by lia. apply Z.pow_le_mono_r; lia. }
    nia. }
  assert (Zpos (digits2_pos mt) = 53 /\ Zpos (digits2_pos mm) = 53) as [Hdt Hdm].
  { pose proof (digits2_bounds mt) as H1. pose proof (digits2_bounds mm) as H2.
    split.
    - destruct (Z.lt_trichotomy (Zpos (digits2_pos mt)) 53) as [Hlt|[?|Hgt]]; [|done|].
      + exfalso. assert (2 ^ Zpos (digits2_pos mt) <= 2 ^ 52)
          by (apply Z.pow_le_mono_r; lia). lia.
      + exfalso. assert (2 ^ 53 <= 2 ^ (Zpos (digits2_pos mt) - 1))
          by (apply Z.pow_le_mono_r; lia). lia.
    - destruct (Z.lt_trichotomy (Zpos (digits2_pos mm)) 53) as [Hlt|[?|Hgt]]; [|done|].
      + exfalso. assert (2 ^ Zpos (digits2_pos mm) <= 2 ^ 52)
          by (apply Z.pow_le_mono_r; lia). lia.
      + exfalso. assert (2 ^ 53 <= 2 ^ (Zpos (digits2_pos mm) - 1))
          by (apply Z.pow_le_mono_r; lia). lia. }
  unfold SFdiv, SFdiv_core_binary. cbn [xorb Zdigits2]. rewrite Hdt, Hdm.
  assert (Z.min (fexp prec emax (53 + et - (53 + em))) (et - em) = et - em - 53)
    as -> by (unfold fexp, SpecFloat.emin, prec, emax; lia).
  replace (et - em - (et - em - 53)) with 53 by lia.
  rewrite Z.shiftl_mul_pow2 by lia.
  pose proof (Z_div_mod (Zpos mt * 2 ^ 53) (Zpos mm) ltac:(lia)) as Hdiv.
  destruct (Z.div_eucl (Zpos mt * 2 ^ 53) (Zpos mm)) as [q r].
  destruct Hdiv as [Hdiv Hr].
  set (e' := et - em - 53).
  assert (0 < 2 ^ s) as HS by (apply Z.pow_pos_nonneg; lia).
  assert (0 < 2 ^ (- s - e')) as HE by (apply Z.pow_pos_nonneg; lia).
  assert (2 ^ (- s - e') * 2 ^ s * 2 ^ (- em) = 2 ^ 53 * 2 ^ (- et)) as Hexp.
  { rewrite <- !pow2_split by lia. f_equal. lia. }
  set (A := 2 ^ (- em)) in *. set (B := 2 ^ (- et)) in *.
  set (E := 2 ^ (- s - e')) in *. set (S := 2 ^ s) in *.
  assert (Zpos mt * 2 ^ 53 = t * E * S * A) as Hnum.
  { rewrite Hmt. replace (t * B * 2 ^ 53) with (t * (2 ^ 53 * B)) by ring.
    rewrite <- Hexp. ring. }
  assert (0 <= q) as Hq0.
  { destruct (Z.le_gt_cases 0 q) as [?|Hneg]; [done|]. exfalso.
    assert (Zpos mm * q <= Zpos mm * -1)
      by (apply Z.mul_le_mono_nonneg_l; lia). lia. }
  assert (t * S * E <= Y * m * E) as Hcap
    by (apply Z.mul_le_mono_nonneg_r; lia).
  apply round_le; [done | lia | done | lia | |].
  - assert (m * q * A <= t * S * E * A) as Hq by (rewrite Hmm in Hdiv; lia).
    apply Z.mul_le_mono_pos_r in Hq; [|done].
    assert (m * q <= m * (Y * E)) as Hq' by lia.
    by apply Z.mul_le_mono_pos_l in Hq'.
  - intros Hloc. assert (r <> 0) as Hr0.
    { intros ->. by rewrite new_location_0 in Hloc. }
    assert (m * q * A < t * S * E * A) as Hq by (rewrite Hmm in Hdiv; lia).
    apply Z.mul_lt_mono_pos_r in Hq; [|done].
    assert (m * q < m * (Y * E)) as Hq' by lia.
    by apply Z.mul_lt_mono_pos_l in Hq'.
Qed.

(** The rounded product with a held integer [n]. *)
Lemma mul_le (x c : spec_float) (Y s n : Z) :
  le_dyadic x Y s -> holds c n -> 0 <= Y -> Y * n < 2 ^ 53 -> 0 <= s <= 1074 ->
  le_dyadic (SFmul prec emax x c) (Y * n) s.
Proof.
  intros Hx Hc HY HYn Hs.
  apply holds_bounds in Hc as (mc & ec & -> & Hec & Hmc & _ & Hn).
  destruct Hx as [->|(m & e & -> & He & Hm)]; [by left|].
  unfold SFmul. cbn [xorb].
  assert (0 < 2 ^ (- ec)) by (apply Z.pow_pos_nonneg; lia).
  assert (0 < 2 ^ (- s - e)) by (apply Z.pow_pos_nonneg; lia).
  apply round_le; [nia | done | lia | lia | | done].
  rewrite Pos2Z.inj_mul, Hmc.
  replace (- s - (e + ec)) with ((- s - e) + - ec) by lia.
  rewrite pow2_split by lia. nia.
Qed.

(** [Math.floor] of a bounded value. *)
Lemma floor_le (x : spec_float) (Y s : Z) :
  le_dyadic x Y s -> 0 <= s -> 0 <= Y ->
  exists k, JS.SFfloor x = JS.KInt k /\ 0 <= k <= Y / 2 ^ s.
Proof.
  intros [->|(m & e & -> & He & Hm)] Hs HY.
  - exists 0. split; [done|]. split; [done|]. apply Z.div_pos; [done|].
    apply Z.pow_pos_nonneg; lia.
  - exists (Z.shiftl (Zpos m) e). split; [done|].
    rewrite <- (Z.opp_involutive e) at 1 2. rewrite Z.shiftl_opp_r.
    rewrite Z.shiftr_div_pow2 by lia.
    assert (0 < 2 ^ (- e)) by (apply Z.pow_pos_nonneg; lia).
    assert (0 < 2 ^ s) by (apply Z.pow_pos_nonneg; lia).
    assert (0 < 2 ^ (- s - e)) by (apply Z.pow_pos_nonneg; lia).
    split; [apply Z.div_pos; lia|].
    assert (2 ^ (- e) = 2 ^ (- s - e) * 2 ^ s) as Hsplit.
    { rewrite <- pow2_split by lia. f_equal. lia. }
    apply Z.div_le_lower_bound; [lia|].
    rewrite Hsplit.
    pose proof (Z.mul_div_le (Zpos m) (2 ^ (- s - e) * 2 ^ s) ltac:(lia)) as Hdm.
    assert (Zpos m / (2 ^ (- s - e) * 2 ^ s) * 2 ^ (- s - e) <= Y * 2 ^ (- s - e)).
    { nia. }
    nia.
Qed.

(** *** Comparisons of a bounded value *)

Lemma zero_spec : Prim2SF (JS.of_Z 0) = S754_zero false.
Proof. reflexivity. Qed.

Lemma le_dyadic_nonneg (x : float) (Y s : Z) :
  le_dyadic (Prim2SF x) Y s -> PrimFloat.leb (JS.of_Z 0) x = true.
Proof.
  intros Hx. rewrite FloatAxioms.leb_spec, zero_spec.
  by destruct Hx as [->|(m & e & -> & _)].
Qed.

(** A bounded value against a held integer [n] with [Y / 2^s <= n]. *)
Lemma le_dyadic_compare (x c : float) (Y s n : Z) :
  le_dyadic (Prim2SF x) Y s -> holds (Prim2SF c) n -> 0 <= s -> 0 <= Y ->
  (Y <= n * 2 ^ s -> PrimFloat.leb x c = true)
  /\ (Y < n * 2 ^ s -> PrimFloat.ltb x c = true).
Proof.
  intros Hx Hc Hs HY. rewrite FloatAxioms.leb_spec, FloatAxioms.ltb_spec.
  apply holds_bounds in Hc as (mc & ec & -> & Hec & Hmc & Hbc & Hn).
  pose proof (Prim2SF_valid x) as Hvalid.
  destruct Hx as [Heq|(m & e & Heq & He & Hm)]; rewrite Heq in *; [done|].
  cbn [SpecFloat.valid_binary] in Hvalid. unfold bounded, canonical_mantissa in Hvalid.
  apply andb_prop in Hvalid as [Hcanon _]. apply Z.eqb_eq in Hcanon.
  pose proof (digits2_bounds m) as [Hlow _].
  assert (0 < 2 ^ s) as HS by (apply Z.pow_pos_nonneg; lia).
  assert (0 < 2 ^ (- s - e)) as HE by (apply Z.pow_pos_nonneg; lia).
  assert (2 ^ s * 2 ^ (- s - e) = 2 ^ (- e)) as Hsplit.
  { rewrite <- pow2_split by lia. f_equal. lia. }
  assert (Y <= n * 2 ^ s -> Zpos m <= n * 2 ^ (- e)) as Hle.
  { intros HYn. rewrite <- Hsplit.
    assert (Y * 2 ^ (- s - e) <= n * 2 ^ s * 2 ^ (- s - e))
      by (apply Z.mul_le_mono_nonneg_r; lia). lia. }
  assert (Y < n * 2 ^ s -> Zpos m < n * 2 ^ (- e)) as Hlt.
  { intros HYn. rewrite <- Hsplit.
    assert (Y * 2 ^ (- s - e) < n * 2 ^ s * 2 ^ (- s - e))
      by (apply Z.mul_lt_mono_pos_r; lia). lia. }
  unfold SFleb, SFltb, SFcompare.
  destruct (Z.compare_spec e ec) as [->|Hlt'|Hgt]; [|done|].
  - rewrite Pos.compare_cont_spec. cbn [Pos.switch_Eq]. rewrite <- Hmc in Hle, Hlt.
    split; intros HYn.
    + specialize (Hle HYn). destruct (Pos.compare_spec m mc); [done..|lia].
    + specialize (Hlt HYn). destruct (Pos.compare_spec m mc); [lia|done|lia].
  - assert (Y <= n * 2 ^ s -> False) as Habs.
    { intros HYn. specialize (Hle HYn).
      assert (Zpos (digits2_pos m) = 53) as Hd
        by (unfold fexp, SpecFloat.emin, prec, emax in Hcanon; lia).
      rewrite Hd in Hlow. change (2 ^ (53 - 1)) with (2 ^ 52) in Hlow.
      assert (2 * 2 ^ (- e) <= 2 ^ (- ec)) as Hpow.
      { rewrite <- Z.pow_succ_r by lia. apply Z.pow_le_mono_r; lia. }
      assert (n * (2 * 2 ^ (- e)) <= n * 2 ^ (- ec))
        by (apply Z.mul_le_mono_nonneg_l; lia). lia. }
    split; intros HYn; exfalso; apply Habs; lia.
Qed.

(** [(totalScore / maxScore) * 100] lies between 0 and 100 when
    [0 <= totalScore <= maxScore] are integers that binary64 holds
    exactly. *)
Lemma percentage_bounded (totalScore maxScore : Z) :
  0 <= totalScore <= maxScore -> maxScore < 2 ^ 53 ->
  PrimFloat.leb (JS.of_Z 0) (percentage totalScore maxScore) = true
  /\ PrimFloat.leb (percentage totalScore maxScore) (JS.of_Z 100) = true.
Proof.
  intros Hscore Hmax. unfold percentage.
  destruct (Z.ltb_spec 0 maxScore) as [Hpos|Hzero]; [|by vm_compute].
  assert (le_dyadic
            (Prim2SF (PrimFloat.mul (PrimFloat.div (JS.of_Z totalScore)
                                                   (JS.of_Z maxScore))
                                    (JS.of_Z 100))) (1 * 100) 0) as Hle.
  { rewrite FloatAxioms.mul_spec, FloatAxioms.div_spec.
    apply mul_le; [|apply of_Z_holds; lia|lia..].
    pose proof (of_Z_holds maxScore ltac:(lia)) as Hm.
    destruct (Z.eq_dec totalScore 0) as [->|Hne].
    - rewrite zero_spec. destruct Hm as (m & e & -> & _). by left.
    - apply (div_le _ _ totalScore maxScore);
        [apply of_Z_holds; lia | apply of_Z_holds; lia | lia..]. }
  split; [by eapply le_dyadic_nonneg|].
  eapply (le_dyadic_compare _ _ _ _ 100 Hle); [apply of_Z_holds; lia | lia..].
Qed.

(** *** Values and indices drawn from a non-negative state *)

Lemma nextHash_range (hash : Z) : -5 <= hash -> 0 <= nextHash hash < 233280.
Proof.
  intros Hh. unfold nextHash. split.
  - apply Z.rem_nonneg; lia.
  - apply Z.rem_bound_pos; lia.
Qed.

Lemma emit_le (hash : Z) :
  0 <= hash < 233280 -> le_dyadic (Prim2SF (emit hash)) (2 ^ 18 - 1) 18.
Proof.
  intros Hh. unfold emit. rewrite FloatAxioms.div_spec.
  pose proof (of_Z_holds 233280 ltac:(lia)) as Hm.
  destruct (Z.eq_dec hash 0) as [->|Hne].
  - rewrite zero_spec. destruct Hm as (m & e & -> & _). by left.
  - apply (div_le _ _ hash 233280);
      [apply of_Z_holds; lia | apply of_Z_holds; lia | lia..].
Qed.

Lemma emit_unit (hash : Z) :
  0 <= hash < 233280 ->
  PrimFloat.leb (JS.of_Z 0) (emit hash) = true
  /\ PrimFloat.ltb (emit hash) (JS.of_Z 1) = true.
Proof.
  intros Hh. pose proof (emit_le hash Hh) as Hle.
  split; [by eapply le_dyadic_nonneg|].
  eapply (le_dyadic_compare _ _ _ _ 1 Hle); [apply of_Z_holds; lia | lia..].
Qed.

Lemma index_range (hash n : Z) :
  0 <= hash < 233280 -> 0 < n < 2 ^ 35 ->
  exists k, JS.floor (PrimFloat.mul (emit hash) (JS.of_Z n)) = JS.KInt k
            /\ 0 <= k < n.
Proof.
  intros Hh Hn. unfold JS.floor. rewrite FloatAxioms.mul_spec.
  pose proof (mul_le _ _ _ _ n (emit_le hash Hh) (of_Z_holds n ltac:(lia))
                ltac:(lia) ltac:(lia) ltac:(lia)) as Hle.
  apply floor_le in Hle as (k & Hk & Hrange); [|lia..].
  exists k. split; [done|]. split; [lia|].
  assert ((2 ^ 18 - 1) * n / 2 ^ 18 < n); [|lia].
  apply Z.div_lt_upper_bound; lia.
Qed.

(** ** The seeded shuffle on seeds with a non-negative state *)

Lemma draws_unit (g : nat) (n : nat) :
  forall (st : list Z) (hash : Z),
    st !! g = Some hash -> -5 <= hash ->
    exists vs st',
      draws g n st = Some (vs, st') /\ length vs = n
      /\ Forall (fun v => PrimFloat.leb (JS.of_Z 0) v = true
                          /\ PrimFloat.ltb v (JS.of_Z 1) = true) vs.
Proof.
  induction n as [|n IH]; intros st hash Hg Hh.
  - exists [], st. split; [done|]. split; [done|]. constructor.
  - pose proof (nextHash_range hash Hh) as Hnext.
    destruct (IH (<[g := nextHash hash]> st) (nextHash hash)) as (vs & st' & Hrun & Hlen & Hall).
    { apply list_lookup_insert_eq. by eapply lookup_lt_Some. }
    { lia. }
    exists (emit (nextHash hash) :: vs), st'.
    cbn [draws]. unfold bind at 1, random. rewrite Hg.
    unfold bind at 1. rewrite Hrun. split; [done|]. split; [cbn; lia|].
    constructor; [by apply emit_unit | done].
Qed.

Section Permutation.
Context {A : Type}.

Lemma aget_index (a : jsarray A) (n : nat) :
  aget a (JS.KInt (Z.of_nat n)) = mjoin (elems a !! n).
Proof.
  unfold aget. destruct (decide (0 <= Z.of_nat n)); [|lia].
  by rewrite Nat2Z.id.
Qed.

Lemma aset_index (a : jsarray A) (n : nat) (v : option A) :
  (n < length (elems a))%nat ->
  aset a (JS.KInt (Z.of_nat n)) v = JSArray (<[n := v]> (elems a)) (props a).
Proof.
  intros Hn. unfold aset. destruct (decide (0 <= Z.of_nat n)); [|lia].
  rewrite Nat2Z.id. by destruct (decide (n < length (elems a))%nat).
Qed.

Lemma swap_in_range (a : jsarray A) (i k : nat) :
  (i < length (elems a))%nat -> (k < length (elems a))%nat ->
  elems (swap a (JS.KInt (Z.of_nat i)) (JS.KInt (Z.of_nat k))) ≡ₚ elems a
  /\ length (elems (swap a (JS.KInt (Z.of_nat i)) (JS.KInt (Z.of_nat k))))
     = length (elems a).
Proof.
  intros Hi Hk.
  destruct (lookup_lt_is_Some_2 _ _ Hi) as [y Hy].
  destruct (lookup_lt_is_Some_2 _ _ Hk) as [x Hx].
  unfold swap. rewrite !aget_index, Hx, Hy. cbn [mjoin option_join].
  rewrite (aset_index a i x Hi).
  rewrite aset_index by (cbn [elems]; by rewrite length_insert).
  cbn [elems].
  split; [by apply Permutation_insert_swap | by rewrite !length_insert].
Qed.

Lemma shuffleFrom_perm (i : nat) :
  forall (hash : Z) (a : jsarray A),
    -5 <= hash -> (i < length (elems a))%nat ->
    Z.of_nat (length (elems a)) < 2 ^ 35 ->
    elems (shuffleFrom hash i a).1 ≡ₚ elems a.
Proof.
  induction i as [|i IH]; intros hash a Hh Hi Hlen; [done|].
  cbn [shuffleFrom].
  pose proof (nextHash_range hash Hh) as Hnext.
  destruct (index_range (nextHash hash) (Z.of_nat (S i) + 1) Hnext ltac:(lia))
    as (k & -> & Hk).
  rewrite <- (Z2Nat.id k) by lia.
  destruct (swap_in_range a (S i) (Z.to_nat k) Hi ltac:(lia)) as [Hperm Hlen'].
  rewrite IH; [done | lia | lia | lia].
Qed.

Lemma shuffleArray_perm (seed : string) (array : list A) (st : list Z) :
  -5 <= seedHash seed -> Z.of_nat (length array) < 2 ^ 32 ->
  exists out st',
    (let* g := createSeededRandom seed in shuffleArray array g) st = Some (out, st')
    /\ out ≡ₚ Some <$> array.
Proof.
  intros Hh Hlen.
  destruct (createSeededRandom_fresh seed st) as (g & st1 & Hc & Hg).
  pose proof (shuffleArray_from g array st1 _ Hg) as Hs. cbv zeta in Hs.
  eexists _, _. unfold bind at 1. rewrite Hc, Hs. split; [done|].
  destruct array as [|x array]; [done|].
  apply shuffleFrom_perm.
  - done.
  - cbn [spread elems]. rewrite length_fmap. cbn [length]. lia.
  - cbn [spread elems]. rewrite length_fmap. lia.
Qed.

End Permutation.

(** C4.  For a seed whose hash is at least -5, so that the state of the
    generator is never negative, the shuffle of an array of fewer than
    2^32 elements returns a permutation of it.  At the seed
    ["1-5-default"] (user 1, quiz 5, no sub-seed) the seed hash is
    negative, every swap index is negative, and the pass returns
    [[1, undefined, undefined]] for [[1, 2, 3]]: the elements 2 and 3 are
    gone from the output. *)
Theorem shuffle_permutes_unless_negative_hash :
  (forall (A : Type) (seed : string) (array : list A) (st : list Z),
      -5 <= seedHash seed -> Z.of_nat (length array) < 2 ^ 32 ->
      exists out st',
        (let* g := createSeededRandom seed in shuffleArray array g) st
        = Some (out, st')
        /\ out ≡ₚ Some <$> array)
  /\ exists st,
      (let* g := createSeededRandom "1-5-default" in
       shuffleArray [1; 2; 3] g) [] = Some ([Some 1; None; None], st)
      /\ (Some 2 ∉ [Some 1; None; (None : option Z)])
      /\ (Some 3 ∉ [Some 1; None; (None : option Z)]).
Proof.
  split; [intros A; apply shuffleArray_perm|].
  eexists. split; [vm_compute; reflexivity|].
  split; intros H; repeat (apply elem_of_cons in H as [H|H]; [discriminate|]);
    by apply elem_of_nil in H.
Qed.

(** C5.  For a seed whose hash is at least -5, every value the generator
    emits is at least 0 and below 1.  At the seed ["1-5-default"] the seed
    hash is -1048392179, the first step leaves [hash = -5662], and the
    first value emitted is -5662 / 233280, below 0. *)
Theorem random_unit_unless_negative_hash :
  (forall (seed : string) (st : list Z) (n : nat),
      -5 <= seedHash seed ->
      exists vs st',
        (let* g := createSeededRandom seed in draws g n) st = Some (vs, st')
        /\ length vs = n
        /\ Forall (fun v => PrimFloat.leb (JS.of_Z 0) v = true
                            /\ PrimFloat.ltb v (JS.of_Z 1) = true) vs)
  /\ seedHash "1-5-default" = -1048392179
  /\ exists v st,
      (let* g := createSeededRandom "1-5-default" in random g) [] = Some (v, st)
      /\ st = [-5662]
      /\ PrimFloat.ltb v (JS.of_Z 0) = true.
Proof.
  split.
  { intros seed st n Hh.
    destruct (createSeededRandom_fresh seed st) as (g & st1 & Hc & Hg).
    destruct (draws_unit g n st1 _ Hg Hh) as (vs & st' & Hrun & Hres).
    exists vs, st'. unfold bind at 1. by rewrite Hc. }
  split; [by vm_compute|].
  eexists _, _. split; [vm_compute; reflexivity|].
  split; [reflexivity | by vm_compute].
Qed.

(** ** Scores of an attempt *)

Section Scores.
Variable schema : Schema.
Variable questions : list LoadedQuestion.
Variable attemptId : Z.
Hypothesis points_nonneg :
  forall q, q ∈ questions -> 0 <= QuizQuestion.points (question q).



End Scores.


(** C2, the parts that hold and the input where the code departs from
    the claim.  With no passing score the attempt passes, and with
    [maxScore = 0] the percentage is 0.  On quiz 1 of the example store
    (passing score 58), 29 points out of 50 are exactly 58 percent, yet
    [(29 / 50) * 100] evaluates to 57.99999999999999, below 58, and the
    attempt is marked as failed. *)
Theorem percentage_rounds_below_threshold :
  (forall p, hasPassed None p = true)
  /\ (forall totalScore, percentage totalScore 0 = JS.of_Z 0)
  /\ exists r db',
      submitQuizAttempt Example.schema Sample.users Example.store0 2000
        Example.submission = (Success 201 r, db')
      /\ result_score r = 29 /\ result_maxScore r = 50
      /\ 100 * 29 = 58 * 50
      /\ Quiz.passingScore Example.quiz1 = Some 58
      /\ PrimFloat.ltb (result_percentageScore r) (JS.of_Z 58) = true
      /\ result_passed r = false.
Proof.
  split; [done|]. split; [done|].
  eexists _, _. split; [vm_compute; reflexivity|].
  cbn [result_score result_maxScore result_percentageScore result_passed].
  repeat split; by vm_compute.
Qed.

(** ** The statements at the example store *)

(** C6 as it was stated fails on the store of the examples: the empty
    text, lower-cased and trimmed, equals the lower-cased and trimmed
    text of the answer [" "] of question 4, which is marked correct, and
    the submission is graded incorrect. *)
Lemma fill_blank_empty_text_rejected :
  QuizQuestion.questionType (question Example.blank) = fill_blank
  /\ textAnswer Example.empty = Some ""
  /\ (exists a, a ∈ answers Example.blank
                /\ QuizAnswer.isCorrect a = true
                /\ Str.trim (Str.toLowerCase "")
                   = Str.trim (Str.toLowerCase (QuizAnswer.answerText a)))
  /\ judge Example.blank Example.empty = false.
Proof.
  split; [done|]. split; [done|]. split; [|done].
  exists (QuizAnswer.Build 16 4 " " true None).
  split; [vm_compute; apply list_elem_of_here | done].
Qed.

(** C7 as it was stated fails on the store of the examples: quiz 2 is a
    standalone mock test, and the quiz lookup returns it. *)
Lemma quiz_lookup_finds_mock_test :
  findMockTest Example.store0 2 = Some Example.quiz2
  /\ Quiz.lessonId Example.quiz2 = None
  /\ exists data, getQuizById Example.store0 (Example.plain 2) = Success 200 data.
Proof. split; [done|]. split; [done|]. eexists. vm_compute. reflexivity. Qed.



Lemma fill_blank_graded_witness : judge Example.capital Example.paris = true.
Proof.
  apply (fill_blank_graded Example.capital Example.paris); [done|].
  exists " PARIS ", (QuizAnswer.Build 14 3 "Paris" true None).
  split; [done|]. split; [done|].
  split; [vm_compute; apply list_elem_of_here | done].
Defined.

Lemma lookup_not_found_witness :
  getMockTestById Example.store0 (Example.plain 1) = Failure 404 "Mock test not found"
  /\ getQuizById Example.store0 (Example.plain 3) = Failure 404 "Quiz not found".
Proof.
  split.
  - apply (proj1 (lookup_not_found Example.store0 (Example.plain 1))).
    intros q Hq Hid. cbn in Hq.
    apply elem_of_cons in Hq as [->|Hq]; [done|].
    apply elem_of_cons in Hq as [->|Hq]; [done|].
    by apply elem_of_nil in Hq.
  - apply (proj2 (lookup_not_found Example.store0 (Example.plain 3))).
    intros q Hq. cbn in Hq.
    apply elem_of_cons in Hq as [->|Hq]; [done|].
    apply elem_of_cons in Hq as [->|Hq]; [done|].
    by apply elem_of_nil in Hq.
Defined.



Lemma view_sanitized_witness :
  Example.store0 <> Example.store0'
  /\ getQuizById Example.store0 Example.shuffled
     = getQuizById Example.store0' Example.shuffled
  /\ exists data,
      getQuizById Example.store0 Example.shuffled = Success 200 data
      /\ "isCorrect" ∉ keys data /\ "explanation" ∉ keys data
      /\ Forall bareAnswer (returnedAnswers data).
Proof.
  split; [done|]. split.
  - by apply (proj2 (view_sanitized Example.store0 Example.store0' Example.shuffled)).
  - eexists. split; [vm_compute; reflexivity|].
    apply (proj1 (view_sanitized Example.store0 Example.store0' Example.shuffled)
                 200).
    left. vm_compute. reflexivity.
Defined.



Lemma shuffle_permutes_unless_negative_hash_witness :
  exists out st',
    (let* g := createSeededRandom "2-1-default" in
     shuffleArray [1; 2; 3; 4; 5] g) [] = Some (out, st')
    /\ out ≡ₚ Some <$> [1; 2; 3; 4; 5].
Proof.
  apply (proj1 shuffle_permutes_unless_negative_hash Z "2-1-default" [1; 2; 3; 4; 5] []);
    by vm_compute.
Defined.

Lemma random_unit_unless_negative_hash_witness :
  exists vs st',
    (let* g := createSeededRandom "2-1-default" in draws g 3) [] = Some (vs, st')
    /\ length vs = 3%nat
    /\ Forall (fun v => PrimFloat.leb (JS.of_Z 0) v = true
                        /\ PrimFloat.ltb v (JS.of_Z 1) = true) vs.
Proof.
  apply (proj1 random_unit_unless_negative_hash "2-1-default" [] 3%nat). by vm_compute.
Defined.

(** ** Authentication and the guarded routes *)

Section AuthenticationFacts.
Variable jwt_verify : string -> Verified.
Variable schema : Schema.
Variable users : list User.t.
Variable lessons : list Z.

Lemma findUser_Some (id : option Z) (user : User.t) :
  findUser users id = Some user -> user ∈ users /\ id = Some (User.id user).
Proof.
  destruct id as [id|]; [|done]. cbn. intros Hf.
  apply find_some in Hf as [Hin Hid]. split; [by apply list_elem_of_In|].
  f_equal. lia.
Qed.

Lemma noToken_false (authorization : option string) :
  noToken authorization = false <->
  exists authHeader, authorization = Some authHeader
                     /\ startsWith authHeader "Bearer " = true.
Proof.
  unfold noToken. rewrite orb_false_iff, !negb_false_iff. split.
  - intros [Ht Hs]. destruct authorization as [authHeader|]; [|done]. eauto.
  - intros (authHeader & -> & Hs). split; [|done].
    cbn. rewrite negb_true_iff, bool_decide_eq_false. by intros ->.
Qed.

Lemma bearer_decode (authorization : option string) (id : Z) :
  bearer jwt_verify authorization id <->
  noToken authorization = false
  /\ decode jwt_verify (default "" authorization) = Decoded (Some id).
Proof.
  unfold bearer. rewrite noToken_false. split.
  - intros (authHeader & token & -> & Hs & Ht & Hv). split; [eauto|].
    unfold decode. change (default "" (Some authHeader)) with authHeader.
    by rewrite Ht.
  - intros [(authHeader & -> & Hs) Hd]. unfold decode in Hd.
    change (default "" (Some authHeader)) with authHeader in Hd.
    destruct (split " " authHeader !! 1%nat) as [token|] eqn:Ht; [|done].
    by exists authHeader, token.
Qed.

Lemma verifyToken_Continue (authorization : option string) (identity : Identity) :
  verifyToken jwt_verify users authorization = Continue identity <->
  exists user,
    bearer jwt_verify authorization (User.id user)
    /\ findUser users (Some (User.id user)) = Some user
    /\ identity = {| userId := Some (User.id user);
                     userRole := Some (User.role user) |}.
Proof.
  unfold verifyToken. split.
  - destruct (noToken authorization) eqn:Hno; [done|].
    destruct (decode jwt_verify (default "" authorization)) as [id| |] eqn:Hd;
      [|done..].
    destruct (findUser users id) as [user|] eqn:Hu; [|done].
    intros [= <-]. pose proof (findUser_Some _ _ Hu) as [_ ->].
    exists user. by rewrite bearer_decode.
  - intros (user & Hb & Hu & ->). apply bearer_decode in Hb as [-> ->].
    by rewrite Hu.
Qed.

Lemma verifyToken_Respond (authorization : option string) (status : Z)
    (message : string) :
  verifyToken jwt_verify users authorization = Respond status message ->
  status = 401.
Proof.
  unfold verifyToken. destruct (noToken authorization); [by intros [= <- _]|].
  destruct (decode _ _) as [id| |]; [|by intros [= <- _]..].
  destruct (findUser users id); [done | by intros [= <- _]].
Qed.

Lemma isInstructor_Continue (identity identity' : Identity) :
  isInstructor identity = Continue identity' <->
  identity' = identity
  /\ (userRole identity = Some instructor \/ userRole identity = Some admin).
Proof.
  unfold isInstructor.
  destruct (decide (userRole identity = Some instructor)) as [Hi|Hi].
  { rewrite bool_decide_eq_false_2 by (intros H; by apply H). cbn.
    split; [intros [= <-]; eauto | by intros [-> _]]. }
  destruct (decide (userRole identity = Some admin)) as [Ha|Ha].
  { rewrite (bool_decide_eq_false_2 (_ <> Some admin)) by (intros H; by apply H).
    rewrite andb_false_r.
    split; [intros [= <-]; eauto | by intros [-> _]]. }
  rewrite !bool_decide_eq_true_2 by done. cbn.
  split; [done | by intros [_ [?|?]]].
Qed.

Lemma instructorOnly_authorized {A} (authorization : option string) (db : DB)
    (handler : Response A * DB) :
  authorized jwt_verify users authorization ->
  instructorOnly jwt_verify users authorization db handler = handler.
Proof.
  intros (user & Hb & Hu & Hrole). unfold instructorOnly.
  rewrite (proj2 (verifyToken_Continue authorization
                    {| userId := Some (User.id user);
                       userRole := Some (User.role user) |})) by eauto.
  destruct (isInstructor _) as [identity|status message] eqn:Hi; [done|].
  exfalso. unfold isInstructor in Hi. cbn [userRole] in Hi.
  destruct Hrole as [Hr|Hr]; rewrite Hr in Hi.
  - by rewrite bool_decide_eq_false_2 in Hi by (intros H; by apply H).
  - rewrite (bool_decide_eq_false_2 (Some admin <> Some admin)) in Hi
      by (intros H; by apply H).
    by rewrite andb_false_r in Hi.
Qed.

Lemma instructorOnly_refused {A} (authorization : option string) (db : DB)
    (handler : Response A * DB) :
  ~ authorized jwt_verify users authorization ->
  refused db (instructorOnly jwt_verify users authorization db handler).
Proof.
  intros Hno. unfold instructorOnly, refused.
  destruct (verifyToken jwt_verify users authorization)
    as [identity|status message] eqn:Hv.
  - destruct (isInstructor identity) as [identity'|status message] eqn:Hi.
    + exfalso. apply Hno.
      apply verifyToken_Continue in Hv as (user & Hb & Hu & ->).
      apply isInstructor_Continue in Hi as [_ Hrole]. cbn [userRole] in Hrole.
      exists user. split; [done|]. split; [done|].
      destruct Hrole as [[= ->]|[= ->]]; eauto.
    + exists status, message. split; [done|]. right.
      unfold isInstructor in Hi. by destruct (_ && _); [injection Hi as <- _|].
  - exists status, message. split; [done|]. left.
    by eapply verifyToken_Respond.
Qed.

(** X1.  The routes that write a quiz or a mock test are open to instructors
    and administrators only.  When the [Authorization] header is a
    bearer token that verifies and names an existing instructor or
    administrator, each of the six routes does what its handler does.
    Otherwise each of them answers with status 401 or 403 and leaves the
    store as it was. *)
Theorem write_routes_guarded (authorization : option string) (db : DB) (id : Z)
    (create : CreateBody.t) (update : UpdateBody.t) :
  (authorized jwt_verify users authorization ->
   post_quiz jwt_verify users lessons authorization db create
   = createQuiz lessons db create
   /\ put_quiz jwt_verify users authorization db id update = updateQuiz db id update
   /\ delete_quiz jwt_verify schema users authorization db id
      = deleteQuiz schema db id
   /\ post_mocktest jwt_verify users authorization db create
      = createMockTest db create
   /\ put_mocktest jwt_verify users authorization db id update
      = updateMockTest db id update
   /\ delete_mocktest jwt_verify schema users authorization db id
      = deleteMockTest schema db id)
  /\ (~ authorized jwt_verify users authorization ->
      refused db (post_quiz jwt_verify users lessons authorization db create)
      /\ refused db (put_quiz jwt_verify users authorization db id update)
      /\ refused db (delete_quiz jwt_verify schema users authorization db id)
      /\ refused db (post_mocktest jwt_verify users authorization db create)
      /\ refused db (put_mocktest jwt_verify users authorization db id update)
      /\ refused db (delete_mocktest jwt_verify schema users authorization db id)).
Proof.
  split; intros H.
  - repeat split; by apply instructorOnly_authorized.
  - repeat split; by apply instructorOnly_refused.
Qed.

(** X2.  The two token middlewares agree.  Whenever [verifyToken] lets a
    request through, [optionalAuth] leaves the same [userId] and
    [userRole] on it.  [optionalAuth] sets a role only when the token
    verifies and names an existing user, whose role it is; without a
    header that starts with ["Bearer "], or with a token that does not
    verify, it sets neither field. *)
Theorem optionalAuth_agrees (authorization : option string) :
  (forall identity,
     verifyToken jwt_verify users authorization = Continue identity ->
     optionalAuth jwt_verify users authorization = identity)
  /\ (forall role,
        userRole (optionalAuth jwt_verify users authorization) = Some role ->
        exists user,
          bearer jwt_verify authorization (User.id user)
          /\ user ∈ users
          /\ userId (optionalAuth jwt_verify users authorization)
             = Some (User.id user)
          /\ User.role user = role)
  /\ ((forall id, ~ bearer jwt_verify authorization id) ->
      userRole (optionalAuth jwt_verify users authorization) = None).
Proof.
  split; [|split].
  - intros identity Hv. apply verifyToken_Continue in Hv as (user & Hb & Hu & ->).
    apply bearer_decode in Hb as [Hno Hd]. unfold optionalAuth.
    by rewrite Hno, Hd, Hu.
  - intros role. unfold optionalAuth.
    destruct (noToken authorization) eqn:Hno; [done|].
    destruct (decode jwt_verify (default "" authorization)) as [id| |] eqn:Hd;
      [|done..].
    cbn [userRole userId].
    destruct (findUser users id) as [user|] eqn:Hu; [|done].
    intros [= <-]. apply findUser_Some in Hu as [Hin ->].
    exists user. by rewrite bearer_decode.
  - intros Hnone. unfold optionalAuth.
    destruct (noToken authorization) eqn:Hno; [done|].
    destruct (decode jwt_verify (default "" authorization)) as [[id|]| |] eqn:Hd;
      [|done..].
    exfalso. apply (Hnone id). by rewrite bearer_decode.
Qed.

End AuthenticationFacts.

(** ** Creation of a quiz *)

Lemma increasing_nil (olds : list Z) : increasing olds [].
Proof.
  split; [constructor|]. intros o n _ Hn. by apply elem_of_nil in Hn.
Qed.

Lemma increasing_cons (olds news : list Z) :
  increasing (olds ++ [nextId olds]) news -> increasing olds (nextId olds :: news).
Proof.
  intros [Hsorted Habove]. split.
  - constructor; [done|]. apply Forall_forall. intros n Hn.
    apply (Habove (nextId olds) n); [|done].
    apply elem_of_app. right. apply list_elem_of_here.
  - intros o n Ho Hn. apply elem_of_cons in Hn as [->|Hn].
    + by apply nextId_above.
    + apply Habove; [|done]. apply elem_of_app. by left.
Qed.

Lemma increasing_app (olds news news' : list Z) :
  increasing olds news -> increasing (olds ++ news) news' ->
  increasing olds (news ++ news').
Proof.
  intros [Hs Ha] [Hs' Ha']. split.
  - induction news as [|n news IH]; [done|]. cbn [app].
    apply StronglySorted_inv in Hs as [Hs Hn]. constructor.
    + apply IH; [done| |].
      * intros o m Ho Hm. apply Ha; [done|]. by apply list_elem_of_further.
      * intros o m Ho Hm. apply Ha'; [|done].
        apply elem_of_app in Ho as [Ho|Ho]; apply elem_of_app; [by left|].
        right. by apply list_elem_of_further.
    + apply Forall_app. split; [done|]. apply Forall_forall. intros m Hm.
      apply Ha'; [|done]. apply elem_of_app. right. apply list_elem_of_here.
  - intros o n Ho Hn. apply elem_of_app in Hn as [Hn|Hn]; [by apply Ha|].
    apply Ha'; [|done]. apply elem_of_app. by left.
Qed.

Lemma questionTypeOf_Some (name : string) (t : QuestionType) :
  questionTypeOf name = Some t -> name = QuestionType_name t.
Proof.
  unfold questionTypeOf. intros Hf. apply find_some in Hf as [_ Heq].
  apply String.eqb_eq in Heq. done.
Qed.

(** What the loop over the answers of a question leaves in the working
    copy when it runs to its end. *)
Lemma createAnswers_Go (failed : string) (questionId : Z)
    (answers : list AnswerInput.t) :
  forall tx tx',
    createAnswers failed questionId answers tx = Go tx' ->
    committed tx' = committed tx
    /\ quizzes (working tx') = quizzes (working tx)
    /\ quiz_questions (working tx') = quiz_questions (working tx)
    /\ quiz_attempts (working tx') = quiz_attempts (working tx)
    /\ user_quiz_answers (working tx') = user_quiz_answers (working tx)
    /\ exists rows,
        quiz_answers (working tx') = quiz_answers (working tx) ++ rows
        /\ Forall2 (answerRow questionId) answers rows
        /\ increasing (QuizAnswer.id <$> quiz_answers (working tx))
                      (QuizAnswer.id <$> rows).
Proof.
  induction answers as [|answer answers IH]; intros tx tx' Hrun.
  - injection Hrun as <-. do 5 (split; [done|]). exists [].
    split; [by rewrite app_nil_r|]. split; [constructor | apply increasing_nil].
  - cbn [createAnswers] in Hrun.
    destruct (AnswerInput.isCorrect answer) as [[isCorrect|]|] eqn:Hc;
      [|by destruct (truthyStr _)|done].
    destruct (truthyStr (AnswerInput.answerText answer)) eqn:Ht; [|done].
    apply truthyStr_Some in Ht as (text & Htext & Hne).
    apply IH in Hrun as (H1 & H2 & H3 & H4 & H5 & rows & Hrows & Hall & Hinc).
    cbn [onWorking committed working insertAnswer quizzes quiz_questions
         quiz_answers quiz_attempts user_quiz_answers] in *.
    do 5 (split; [done|]).
    eexists (_ :: rows). split; [by rewrite Hrows, <- app_assoc|]. split.
    + constructor; [|done]. unfold answerRow. cbn. by rewrite Htext.
    + cbn [fmap list_fmap QuizAnswer.id]. apply increasing_cons.
      by rewrite fmap_app in Hinc.
Qed.

Lemma createAnswers_Stop (failed : string) (questionId : Z)
    (answers : list AnswerInput.t) :
  forall tx status message,
    createAnswers failed questionId answers tx = Stop status message ->
    status = 400 \/ status = 500.
Proof.
  induction answers as [|answer answers IH]; intros tx status message Hrun; [done|].
  cbn [createAnswers] in Hrun.
  destruct (AnswerInput.isCorrect answer) as [[isCorrect|]|];
    [|destruct (truthyStr _); injection Hrun as <- _; auto
     |injection Hrun as <- _; by left].
  destruct (truthyStr _); [by eapply IH | injection Hrun as <- _; by left].
Qed.

(** What the loop over the questions leaves in the working copy when it
    runs to its end. *)
Lemma createQuestions_Go (failed : string) (quizId : Z)
    (questions : list QuestionInput.t) :
  forall i tx tx',
    createQuestions failed quizId i questions tx = Go tx' ->
    committed tx' = committed tx
    /\ quizzes (working tx') = quizzes (working tx)
    /\ quiz_attempts (working tx') = quiz_attempts (working tx)
    /\ user_quiz_answers (working tx') = user_quiz_answers (working tx)
    /\ exists rows,
        quiz_questions (working tx') = quiz_questions (working tx) ++ (question <$> rows)
        /\ quiz_answers (working tx') = quiz_answers (working tx) ++ (rows ≫= answers)
        /\ questionRows quizId i questions rows
        /\ increasing (QuizQuestion.id <$> quiz_questions (working tx))
                      (QuizQuestion.id ∘ question <$> rows)
        /\ increasing (QuizAnswer.id <$> quiz_answers (working tx))
                      (QuizAnswer.id <$> (rows ≫= answers)).
Proof.
  induction questions as [|q questions IH]; intros i tx tx' Hrun.
  - injection Hrun as <-. do 4 (split; [done|]). exists [].
    cbn. rewrite !app_nil_r. do 2 (split; [done|]).
    split; [|split; apply increasing_nil].
    split; [done|]. intros k q row Hq. by rewrite lookup_nil in Hq.
  - cbn [createQuestions] in Hrun.
    destruct (QuestionInput.answers q) as [given|] eqn:Hgiven; [|done].
    destruct (truthyStr (QuestionInput.questionText q)) eqn:Htext; [|done].
    destruct (truthyStr (QuestionInput.questionType q)) eqn:Htype; [|done].
    cbn [andb] in Hrun.
    apply truthyStr_Some in Htext as (text & Htext & Hne).
    apply truthyStr_Some in Htype as (name & Hname & _).
    rewrite Hname, Htext in Hrun. cbn [from_option] in Hrun. unfold id in Hrun.
    destruct (questionTypeOf name) as [questionType|] eqn:Hof; [|done].
    apply questionTypeOf_Some in Hof. subst name.
    match type of Hrun with
    | context [createAnswers failed ?qid given ?tx1] =>
        destruct (createAnswers failed qid given tx1) as [tx2|] eqn:Hanswers
    end; [|done].
    apply createAnswers_Go in Hanswers
      as (A1 & A2 & A3 & A4 & A5 & arows & Harows & Hall & Hinc).
    apply IH in Hrun
      as (Q1 & Q2 & Q3 & Q4 & rows & Hq & Ha & [Hlen Hrows] & HincQ & HincA).
    cbn [onWorking committed working insertQuestion quizzes quiz_questions
         quiz_answers quiz_attempts user_quiz_answers] in *.
    split; [congruence|]. split; [congruence|]. split; [congruence|].
    split; [congruence|].
    match goal with
    | _ : context [quiz_questions (working tx) ++ [?r]] |- _ =>
        exists ({| question := r; answers := arows |} :: rows)
    end.
    cbn [fmap list_fmap mbind list_bind question answers compose].
    split; [by rewrite Hq, A3, <- app_assoc|].
    split; [by rewrite Ha, Harows, <- app_assoc|].
    split; [|split].
    + split; [cbn; by rewrite Hlen|].
      intros [|k] q' row' Hq' Hrow'.
      * injection Hq' as <-. injection Hrow' as <-.
        unfold questionRow. cbn. rewrite Nat.add_0_r.
        repeat split; try done.
        -- destruct (QuestionInput.points q) as [points|]; [|done]. cbn.
           by destruct (points =? 0).
        -- by exists given.
      * cbn in Hq', Hrow'. rewrite <- Nat.add_succ_comm. by eapply Hrows.
    + apply increasing_cons. rewrite A3, fmap_app in HincQ. exact HincQ.
    + rewrite fmap_app. apply increasing_app; [done|].
      rewrite <- fmap_app, <- Harows. exact HincA.
Qed.

Lemma createQuestions_Stop (failed : string) (quizId : Z)
    (questions : list QuestionInput.t) :
  forall i tx status message,
    createQuestions failed quizId i questions tx = Stop status message ->
    status = 400 \/ status = 500.
Proof.
  induction questions as [|q questions IH]; intros i tx status message Hrun; [done|].
  cbn [createQuestions] in Hrun.
  destruct (QuestionInput.answers q) as [given|]; [|injection Hrun as <- _; by left].
  destruct (_ && _); [|injection Hrun as <- _; by left].
  destruct (questionTypeOf _); [|injection Hrun as <- _; by right].
  match type of Hrun with
  | context [createAnswers failed ?qid given ?tx1] =>
      destruct (createAnswers failed qid given tx1) as [tx2|] eqn:Hanswers
  end.
  - by eapply IH.
  - injection Hrun as <- _. by eapply createAnswers_Stop.
Qed.

Lemma createWith_spec (failed created : string) (db : DB) (row : Z -> Quiz.t)
    (questions : list QuestionInput.t) :
  (forall id, Quiz.id (row id) = id) ->
  match createWith failed created db row questions with
  | (Failure status message, db') => (status = 400 \/ status = 500) /\ db' = db
  | (Success status (message, data), db') =>
      status = 201
      /\ exists rows,
          extended db db' (row (nextId (Quiz.id <$> quizzes db))) rows
          /\ questionRows (nextId (Quiz.id <$> quizzes db)) 0 questions rows
  end.
Proof.
  intros Hid. unfold createWith.
  cbn [begin working onWorking committed rollback commit].
  destruct (createQuestions _ _ _ _ _) as [tx|status message] eqn:Hrun.
  - split; [done|].
    apply createQuestions_Go in Hrun
      as (Q1 & Q2 & Q3 & Q4 & rows & Hq & Ha & Hrows & HincQ & HincA).
    cbn [onWorking committed working insertQuiz quizzes quiz_questions
         quiz_answers quiz_attempts user_quiz_answers] in *.
    exists rows. split; [|done].
    unfold extended. repeat split; try done.
    + intros old Hold. rewrite Hid. apply nextId_above.
      by apply list_elem_of_fmap_2.
    + apply HincQ.
    + apply HincQ.
    + apply HincA.
    + apply HincA.
  - split; [|done]. by eapply createQuestions_Stop.
Qed.

Lemma createWith_data (failed created : string) (db : DB) (row : Z -> Quiz.t)
    (questions : list QuestionInput.t) (status : Z) (message : string)
    (data : option (Quiz.t * list LoadedQuestion)) (db' : DB) :
  createWith failed created db row questions = (Success status (message, data), db') ->
  data = loadQuiz db' (nextId (Quiz.id <$> quizzes db)).
Proof.
  unfold createWith. destruct (createQuestions _ _ _ _ _); [|done].
  by intros [= _ _ <- <-].
Qed.

Lemma createQuiz_creates (lessons : list Z) (db : DB) (body : CreateBody.t) :
  creates false db body (createQuiz lessons db body).
Proof.
  unfold creates, createQuiz.
  destruct (CreateBody.questions body) as [[|q questions]|] eqn:Hquestions;
    [by split; [left|] | | by split; [left|]].
  destruct (truthyNum (CreateBody.lessonId body)) eqn:Hlesson;
    [|by split; [left|]].
  destruct (truthyStr (CreateBody.title body)) eqn:Htitle; [|by split; [left|]].
  cbn [andb].
  destruct (bool_decide (_ ∈ lessons)); [|by split; [right|]].
  apply truthyStr_Some in Htitle as (title & Htitle & Hne).
  match goal with
  | |- context [createWith ?f ?c db ?row ?qs] =>
      pose proof (createWith_spec f c db row qs (fun _ => eq_refl)) as Hspec;
      pose proof (createWith_data f c db row qs) as Hdata;
      destruct (createWith f c db row qs) as [[status [message data]|status message] db']
  end; [|done].
  destruct Hspec as [-> (rows & Hext & Hrows)]. split; [done|].
  eexists _, rows, (q :: questions). split; [exact Hext|].
  split; [by eapply Hdata|].
  split; [|split; [done|split; [done|split; [exact Hrows|]]]].
  - unfold quizRow. cbn. by rewrite Htitle.
  - cbn. repeat split; try done.
    intros Hnone. by rewrite Hnone in Hlesson.
Qed.

Lemma createMockTest_creates (db : DB) (body : CreateBody.t) :
  creates true db body (createMockTest db body).
Proof.
  unfold creates, createMockTest.
  destruct (CreateBody.questions body) as [[|q questions]|] eqn:Hquestions;
    [by split; [left|] | | by split; [left|]].
  destruct (truthyStr (CreateBody.title body)) eqn:Htitle; [|by split; [left|]].
  apply truthyStr_Some in Htitle as (title & Htitle & Hne).
  match goal with
  | |- context [createWith ?f ?c db ?row ?qs] =>
      pose proof (createWith_spec f c db row qs (fun _ => eq_refl)) as Hspec;
      pose proof (createWith_data f c db row qs) as Hdata;
      destruct (createWith f c db row qs) as [[status [message data]|status message] db']
  end; [|done].
  destruct Hspec as [-> (rows & Hext & Hrows)]. split; [done|].
  eexists _, rows, (q :: questions). split; [exact Hext|].
  split; [by eapply Hdata|].
  split; [|split; [done|split; [done|split; [exact Hrows|done]]]].
  unfold quizRow. cbn. by rewrite Htitle.
Qed.

(** X3.  [createQuiz] and [createMockTest] are all or nothing.  Each of them
    either refuses the request (status 400, or 500 when the store
    rejects a question type, an [isCorrect] that is [null] or a lesson
    that it does not hold) and leaves the store exactly as it was, also
    when rows had been written before the request was found wrong; or it
    answers 201, and the store is the old one with the quiz, its
    questions and their answers added under new keys: the questions are
    those of the request in order, at the positions 0, 1, ..., with a
    text that is not empty and a number of points that is not 0 (1 when
    the request gives none or 0), and every answer has a text that is not
    empty.  A quiz made by [createQuiz] belongs to a lesson; a quiz made
    by [createMockTest] belongs to none. *)
Theorem create_all_or_nothing (lessons : list Z) (db : DB) (body : CreateBody.t) :
  creates false db body (createQuiz lessons db body)
  /\ creates true db body (createMockTest db body).
Proof. split; [apply createQuiz_creates | apply createMockTest_creates]. Qed.

(** ** A new quiz, looked up and deleted *)

Lemma filter_none {A} (f : A -> bool) (l : list A) :
  (forall x, x ∈ l -> f x = false) -> List.filter f l = [].
Proof.
  induction l as [|x l IH]; intros Hall; [done|]. cbn [List.filter].
  rewrite (Hall x (list_elem_of_here _ _)). apply IH.
  intros y Hy. apply Hall. by apply list_elem_of_further.
Qed.

Lemma find_app_last {A} (f : A -> bool) (l : list A) (x : A) :
  (forall y, y ∈ l -> f y = false) -> f x = true -> List.find f (l ++ [x]) = Some x.
Proof.
  induction l as [|y l IH]; intros Hall Hx; cbn [app List.find].
  - by rewrite Hx.
  - rewrite (Hall y (list_elem_of_here _ _)). apply IH; [|done].
    intros z Hz. apply Hall. by apply list_elem_of_further.
Qed.

Lemma orderBy_sorted {A} (key : A -> Z) (l : list A) :
  StronglySorted Z.lt (key <$> l) -> orderBy key l = l.
Proof.
  induction l as [|x l IH]; intros Hs; [done|].
  cbn [fmap list_fmap] in Hs. apply StronglySorted_inv in Hs as [Hs Hx].
  unfold orderBy in *. cbn [foldr]. rewrite (IH Hs).
  destruct l as [|y l]; [done|]. cbn [insertBy].
  apply Forall_cons in Hx as [Hxy _].
  destruct (Z.leb_spec (key x) (key y)); [done | lia].
Qed.

Lemma increasing_NoDup (olds news : list Z) : increasing olds news -> NoDup news.
Proof.
  intros [Hs _]. induction Hs as [|n news Hs IH Hn]; constructor; [|done].
  intros Hin. rewrite Forall_forall in Hn. specialize (Hn n Hin). lia.
Qed.

Lemma positions_sorted (first : nat) (l : list Z) :
  (forall k x, l !! k = Some x -> x = Z.of_nat (first + k)) ->
  StronglySorted Z.lt l.
Proof.
  revert first. induction l as [|x l IH]; intros first Hl; constructor.
  - apply (IH (S first)). intros k y Hk.
    rewrite (Hl (S k) y Hk). f_equal. lia.
  - apply Forall_forall. intros y Hy. apply list_elem_of_lookup in Hy as [k Hk].
    rewrite (Hl 0%nat x eq_refl), (Hl (S k) y Hk). lia.
Qed.

Lemma StronglySorted_app_l {A} (R : A -> A -> Prop) (l1 l2 : list A) :
  StronglySorted R (l1 ++ l2) -> StronglySorted R l1.
Proof.
  induction l1 as [|x l1 IH]; intros Hs; [constructor|].
  cbn [app] in Hs. apply StronglySorted_inv in Hs as [Hs Hx].
  constructor; [by apply IH|]. by apply Forall_app in Hx as [? _].
Qed.

Lemma StronglySorted_app_r {A} (R : A -> A -> Prop) (l1 l2 : list A) :
  StronglySorted R (l1 ++ l2) -> StronglySorted R l2.
Proof.
  induction l1 as [|x l1 IH]; intros Hs; [done|].
  cbn [app] in Hs. apply StronglySorted_inv in Hs as [Hs _]. by apply IH.
Qed.

Lemma answers_sorted (rows : list LoadedQuestion) (row : LoadedQuestion) :
  StronglySorted Z.lt (QuizAnswer.id <$> (rows ≫= answers)) -> row ∈ rows ->
  StronglySorted Z.lt (QuizAnswer.id <$> answers row).
Proof.
  induction rows as [|r rows IH]; intros Hs Hrow; [by apply elem_of_nil in Hrow|].
  rewrite bind_cons, fmap_app in Hs.
  apply elem_of_cons in Hrow as [->|Hrow].
  - by eapply StronglySorted_app_l.
  - apply IH; [|done]. by eapply StronglySorted_app_r.
Qed.

Lemma filter_filter {A} (f g : A -> bool) (l : list A) :
  List.filter f (List.filter g l) = List.filter (fun x => g x && f x) l.
Proof.
  induction l as [|x l IH]; [done|]. cbn [List.filter].
  destruct (g x); cbn [andb List.filter]; [|done].
  destruct (f x); by rewrite IH.
Qed.

(** The working copy after the loop that destroys the answers of the
    questions of a quiz, when no row of [user_quiz_answers] names one of
    these answers. *)
Lemma destroyAnswersOf_fold (schema : Schema) (questions : list QuizQuestion.t) :
  forall tx,
    (forall row, row ∈ user_quiz_answers (working tx) ->
                 ~ answerOf questions (working tx) row) ->
    destroyAnswersOf schema questions tx
    = Some {| committed := committed tx;
              working :=
                {| quizzes := quizzes (working tx);
                   quiz_questions := quiz_questions (working tx);
                   quiz_answers :=
                     List.filter
                       (fun a => forallb (fun q => negb (QuizAnswer.questionId a
                                                         =? QuizQuestion.id q))
                                         questions)
                       (quiz_answers (working tx));
                   quiz_attempts := quiz_attempts (working tx);
                   user_quiz_answers := user_quiz_answers (working tx) |} |}.
Proof.
  induction questions as [|q questions IH]; intros tx Hfree.
  - cbn [destroyAnswersOf forallb]. destruct tx as [c [? ? answers ? ?]]. cbn.
    by rewrite filter_all.
  - cbn [destroyAnswersOf]. unfold run at 1, destroyAnswers.
    rewrite answersGone_free.
    2:{ intros row a Hin Hrow Hgone. apply (Hfree row Hin). by eapply gone_answerOf. }
    cbn [mbind option_bind]. rewrite IH.
    + cbn. by rewrite filter_filter.
    + cbn [working user_quiz_answers]. intros row Hin Hnamed.
      apply (Hfree row Hin). eapply answerOf_mono; [| |exact Hnamed].
      * intros; by apply list_elem_of_further.
      * cbn. intros a Hina. apply list_elem_of_In, filter_In in Hina as [Hina _].
        by apply list_elem_of_In.
Qed.

Section Extended.
Variables (db db' : DB) (quiz : Quiz.t) (rows : list LoadedQuestion).
Variable (given : list QuestionInput.t) (first : nat).
Hypothesis Hconsistent : consistent db.
Hypothesis Hreferential : referential db.
Hypothesis Hextended : extended db db' quiz rows.
Hypothesis Hrows : questionRows (Quiz.id quiz) first given rows.

Lemma rows_quizId (row : LoadedQuestion) :
  row ∈ rows -> QuizQuestion.quizId (question row) = Quiz.id quiz.
Proof.
  intros Hin. apply list_elem_of_lookup in Hin as [k Hk].
  destruct Hrows as [Hlen Hall].
  destruct (lookup_lt_is_Some_2 given k) as [q Hq].
  { rewrite <- Hlen. by eapply lookup_lt_Some. }
  by destruct (Hall k q row Hq Hk) as [? _].
Qed.

Lemma rows_questionId (row : LoadedQuestion) (a : QuizAnswer.t) :
  row ∈ rows -> a ∈ answers row ->
  QuizAnswer.questionId a = QuizQuestion.id (question row).
Proof.
  intros Hin Ha. apply list_elem_of_lookup in Hin as [k Hk].
  destruct Hrows as [Hlen Hall].
  destruct (lookup_lt_is_Some_2 given k) as [q Hq].
  { rewrite <- Hlen. by eapply lookup_lt_Some. }
  destruct (Hall k q row Hq Hk) as (_ & _ & _ & _ & _ & _ & _ & g & _ & Hf).
  apply list_elem_of_lookup in Ha as [j Hj].
  destruct (Forall2_lookup_r _ _ _ _ _ Hf Hj) as (x & _ & Hx).
  by destruct Hx as [? _].
Qed.

Lemma rows_position (k : nat) (row : LoadedQuestion) :
  rows !! k = Some row ->
  QuizQuestion.position (question row) = Z.of_nat (first + k).
Proof.
  intros Hk. destruct Hrows as [Hlen Hall].
  destruct (lookup_lt_is_Some_2 given k) as [q Hq].
  { rewrite <- Hlen. by eapply lookup_lt_Some. }
  by destruct (Hall k q row Hq Hk) as (_ & _ & _ & _ & _ & _ & ? & _).
Qed.

Lemma extended_findByPk : findByPk db' (Quiz.id quiz) = Some quiz.
Proof.
  destruct Hextended as (Hq & _ & _ & _ & _ & Hfresh & _).
  unfold findByPk. rewrite Hq. apply find_app_last.
  - intros old Hold. specialize (Hfresh old Hold). lia.
  - lia.
Qed.

Lemma extended_no_attempt (t : QuizAttempt.t) :
  t ∈ quiz_attempts db' -> QuizAttempt.quizId t <> Quiz.id quiz.
Proof.
  destruct Hextended as (_ & _ & _ & Ht & _ & Hfresh & _).
  destruct Hconsistent as (_ & _ & Hatt).
  rewrite Ht. intros Hin. destruct (Hatt t Hin) as (old & Hold & <-).
  specialize (Hfresh old Hold). lia.
Qed.

Lemma extended_questionsOf :
  questionsOf db' (Quiz.id quiz) = question <$> rows.
Proof.
  destruct Hextended as (_ & Hq & _ & _ & _ & Hfresh & _).
  destruct Hconsistent as (Hqq & _ & _).
  unfold questionsOf. rewrite Hq, List.filter_app.
  rewrite filter_none, filter_all; [done| |].
  - intros q Hin. apply list_elem_of_fmap in Hin as (row & -> & Hrow).
    rewrite (rows_quizId row Hrow). lia.
  - intros q Hin. destruct (Hqq q Hin) as (old & Hold & <-).
    specialize (Hfresh old Hold). lia.
Qed.

Lemma extended_answersOf (row : LoadedQuestion) :
  row ∈ rows -> answersOf db' (QuizQuestion.id (question row)) = answers row.
Proof.
  intros Hrow.
  destruct Hextended as (_ & _ & Ha & _ & _ & _ & HincQ & _).
  destruct Hconsistent as (_ & Haa & _).
  unfold answersOf. rewrite Ha, List.filter_app.
  rewrite filter_none.
  2:{ intros a Hin. destruct (Haa a Hin) as (q & Hq & <-).
      destruct HincQ as [_ Habove].
      assert (QuizQuestion.id q < QuizQuestion.id (question row)); [|lia].
      apply Habove; [by apply list_elem_of_fmap_2|].
      by apply (list_elem_of_fmap_2 (QuizQuestion.id ∘ question)). }
  cbn [app].
  apply increasing_NoDup in HincQ.
  clear Ha Haa Hextended Hconsistent.
  assert (forall row' a, row' ∈ rows -> a ∈ answers row' ->
            QuizAnswer.questionId a = QuizQuestion.id (question row')) as Hqid
    by (intros; by apply rows_questionId).
  clear Hrows. induction rows as [|r rs IH]; [by apply elem_of_nil in Hrow|].
  cbn [mbind list_bind fmap list_fmap compose] in *.
  apply NoDup_cons in HincQ as [Hnotin Hnodup].
  rewrite List.filter_app.
  apply elem_of_cons in Hrow as [->|Hrow].
  - rewrite filter_all, filter_none; [by rewrite app_nil_r| |].
    + intros a Hin. apply list_elem_of_bind in Hin as (r' & Hin & Hr').
      rewrite (Hqid r' a (list_elem_of_further _ _ _ Hr') Hin).
      apply Z.eqb_neq. intros Heq. apply Hnotin. rewrite <- Heq.
      by apply (list_elem_of_fmap_2 (QuizQuestion.id ∘ question)).
    + intros a Hin. rewrite (Hqid r a (list_elem_of_here _ _) Hin). lia.
  - rewrite filter_none, IH; [done..| |].
    + intros row' a Hin. apply Hqid. by apply list_elem_of_further.
    + intros a Hin. rewrite (Hqid r a (list_elem_of_here _ _) Hin).
      apply Z.eqb_neq. intros Heq. apply Hnotin. rewrite Heq.
      by apply (list_elem_of_fmap_2 (QuizQuestion.id ∘ question)).
Qed.

Lemma extended_loadQuestions : loadQuestions db' (Quiz.id quiz) = rows.
Proof.
  unfold loadQuestions. rewrite extended_questionsOf, <- list_fmap_compose.
  rewrite <- (list_fmap_id rows) at 2. apply list_fmap_ext.
  intros k row Hk. cbn.
  rewrite (extended_answersOf row) by (by eapply list_elem_of_lookup_2).
  by destruct row.
Qed.

Lemma extended_viewQuestions :
  viewQuestions db' (Quiz.id quiz) = shown <$> rows.
Proof.
  unfold viewQuestions. rewrite extended_questionsOf.
  rewrite orderBy_sorted.
  2:{ rewrite <- list_fmap_compose. apply (positions_sorted first).
      intros k x Hk. rewrite list_lookup_fmap in Hk.
      destruct (rows !! k) as [row|] eqn:Hrow; [|done].
      injection Hk as <-. cbn. by apply rows_position. }
  rewrite <- list_fmap_compose. apply list_fmap_ext. intros k row Hk.
  apply list_elem_of_lookup_2 in Hk.
  unfold viewQuestion, viewAnswers, shown. cbn [compose].
  rewrite (extended_answersOf row Hk), orderBy_sorted.
  2:{ destruct Hextended as (_ & _ & _ & _ & _ & _ & _ & [Hs _]).
      by eapply answers_sorted. }
  reflexivity.
Qed.

Lemma extended_loadQuiz : loadQuiz db' (Quiz.id quiz) = Some (quiz, rows).
Proof.
  unfold loadQuiz. rewrite extended_findByPk. cbn.
  by rewrite extended_loadQuestions.
Qed.

Lemma extended_findMockTest :
  findMockTest db' (Quiz.id quiz)
  = if bool_decide (Quiz.lessonId quiz = None) then Some quiz else None.
Proof.
  destruct Hextended as (Hq & _ & _ & _ & _ & Hfresh & _).
  unfold findMockTest. rewrite Hq. case_bool_decide as Hl.
  - apply find_app_last.
    + intros old Hold. specialize (Hfresh old Hold).
      apply andb_false_iff. left. lia.
    + rewrite Z.eqb_refl. cbn. by apply bool_decide_eq_true.
  - apply find_none_iff. intros q Hin.
    apply elem_of_app in Hin as [Hold|Hin].
    + specialize (Hfresh q Hold). apply andb_false_iff. left. lia.
    + apply list_elem_of_singleton in Hin as ->.
      apply andb_false_iff. right. by apply bool_decide_eq_false.
Qed.

(** No row of an answer names a question or an answer of the new
    quiz: their keys are above the keys that the rows name. *)
Lemma extended_free (row : UserQuizAnswer.t) :
  row ∈ user_quiz_answers db' ->
  ~ namesQuestion (Quiz.id quiz) db' row /\ ~ namesAnswer (Quiz.id quiz) db' row.
Proof.
  pose proof rows_questionId as HquestionId.
  destruct Hextended as (_ & Hqq & Ha & _ & Hu & _ & [_ HaboveQ] & [_ HaboveA]).
  destruct Hconsistent as (_ & Hca & _). pose proof Hreferential as Hrefer.
  rewrite Hu. intros Hin. destruct (Hrefer row Hin) as [HrowQ HrowA].
  unfold namesQuestion, namesAnswer. rewrite extended_questionsOf. split.
  - intros (q & Hq & Hid). rewrite Hid in HrowQ.
    apply list_elem_of_fmap in Hq as (new & -> & Hnew).
    assert (QuizQuestion.id (question new) < QuizQuestion.id (question new));
      [|lia].
    apply HaboveQ; [done|].
    by apply (list_elem_of_fmap_2 (QuizQuestion.id ∘ question)).
  - intros (q & a & Hq & Hina & Hid & Hrow).
    apply list_elem_of_fmap in Hq as (new & -> & Hnew).
    specialize (HrowA _ Hrow). rewrite Ha in Hina.
    apply elem_of_app in Hina as [Hold|Hina].
    + destruct (Hca a Hold) as (old & Hold' & Hq').
      assert (QuizQuestion.id old < QuizQuestion.id (question new)); [|lia].
      apply HaboveQ; [by apply list_elem_of_fmap_2|].
      by apply (list_elem_of_fmap_2 (QuizQuestion.id ∘ question)).
    + assert (QuizAnswer.id a < QuizAnswer.id a); [|lia].
      apply HaboveA; [done | by apply list_elem_of_fmap_2].
Qed.

Lemma extended_delete (schema : Schema) (blocked deleted failed : string) :
  deleteFound schema blocked deleted failed db' (Quiz.id quiz) quiz
  = (Success 200 deleted, db).
Proof.
  pose proof extended_free as Hfree.
  unfold deleteFound. rewrite bool_decide_eq_false_2.
  2:{ rewrite attemptCount_pos. intros (t & Ht & Hid).
      by apply (extended_no_attempt t). }
  rewrite destroyAnswersOf_fold.
  2:{ intros row Hin. by destruct (Hfree row Hin). }
  cbn [mbind option_bind]. unfold run, destroyQuestions.
  cbn [working committed begin quizzes quiz_questions quiz_answers quiz_attempts
       user_quiz_answers].
  change (questionsOf {| quizzes := _; quiz_questions := quiz_questions db';
                         quiz_answers := _; quiz_attempts := _;
                         user_quiz_answers := _ |} (Quiz.id quiz))
    with (questionsOf db' (Quiz.id quiz)).
  rewrite questionsGone_free.
  2:{ intros row Hin Hgone. destruct (Hfree row Hin) as [HnoQ _].
      by apply HnoQ, questionOf_gone. }
  cbn [mbind option_bind]. rewrite extended_questionsOf. f_equal.
  pose proof rows_quizId as HquizId. pose proof rows_questionId as HquestionId.
  destruct Hextended as (Hq & Hqq & Ha & Ht & Hu & Hfresh & HincQ & _).
  destruct Hconsistent as (Hcq & Hca & _).
  unfold commit, onWorking, destroyQuiz.
  cbn [working committed quizzes quiz_questions quiz_answers quiz_attempts
       user_quiz_answers].
  rewrite Hq, Hqq, Ha, Ht, Hu, !List.filter_app.
  rewrite (filter_all _ (quizzes db)).
  2:{ intros old Hold. specialize (Hfresh old Hold).
      apply negb_true_iff, Z.eqb_neq. lia. }
  rewrite (filter_all _ (quiz_questions db)).
  2:{ intros q Hin. destruct (Hcq q Hin) as (old & Hold & <-).
      specialize (Hfresh old Hold). apply negb_true_iff, Z.eqb_neq. lia. }
  rewrite (filter_all _ (quiz_answers db)).
  2:{ intros a Hin. apply forallb_forall. intros q Hq'.
      apply list_elem_of_In, list_elem_of_fmap in Hq' as (row & -> & Hrow).
      destruct (Hca a Hin) as (old & Hold & <-). destruct HincQ as [_ Habove].
      assert (QuizQuestion.id old < QuizQuestion.id (question row)).
      { apply Habove; [by apply list_elem_of_fmap_2|].
        by apply (list_elem_of_fmap_2 (QuizQuestion.id ∘ question)). }
      apply negb_true_iff, Z.eqb_neq. lia. }
  rewrite (filter_none _ (question <$> rows)).
  2:{ intros q Hin. apply list_elem_of_fmap in Hin as (row & -> & Hrow).
      by rewrite (HquizId row Hrow), Z.eqb_refl. }
  rewrite (filter_none _ (rows ≫= answers)).
  2:{ intros a Hin. apply list_elem_of_bind in Hin as (row & Hin & Hrow).
      apply not_true_iff_false. intros Hall. rewrite forallb_forall in Hall.
      specialize (Hall (question row)). rewrite (HquestionId row a Hrow Hin) in Hall.
      rewrite Z.eqb_refl in Hall. cbn in Hall.
      assert (false = true); [|done]. apply Hall.
      apply list_elem_of_In. by apply list_elem_of_fmap_2. }
  cbn [List.filter]. rewrite Z.eqb_refl. cbn [negb]. rewrite !app_nil_r.
  by destruct db.
Qed.

End Extended.

Lemma assemble_plain (failed : string) (db : DB) (req : ViewRequest) (quiz : Quiz.t) :
  randomize req <> Some "true" ->
  exists view,
    assemble failed db req quiz = Success 200 view
    /\ questionsShown view = Some (JArr (viewQuestions db (Quiz.id quiz))).
Proof.
  intros Hplain. unfold assemble.
  rewrite (bool_decide_eq_false_2 (randomize req = Some "true")) by done.
  cbn [andb]. unfold ret. eexists. split; [reflexivity|]. reflexivity.
Qed.

(** X4.  A quiz can be taken back.  On a store where every question, answer
    and attempt belongs to a row that exists, and where every recorded
    answer names a question and an answer that exist, deleting the quiz
    that [createQuiz] has just answered with succeeds and gives back the
    store as it was before the creation, row for row, whatever the
    foreign keys of the store do on deletion; so does [deleteMockTest]
    after [createMockTest]. *)
Theorem create_then_delete (schema : Schema) (lessons : list Z) (db : DB)
    (body : CreateBody.t) :
  consistent db -> referential db ->
  match createQuiz lessons db body with
  | (Success _ (_, Some (quiz, _)), db') =>
      deleteQuiz schema db' (Quiz.id quiz)
      = (Success 200 "Quiz deleted successfully", db)
  | (Success _ (_, None), _) => False
  | (Failure _ _, _) => True
  end
  /\ match createMockTest db body with
     | (Success _ (_, Some (mockTest, _)), db') =>
         deleteMockTest schema db' (Quiz.id mockTest)
         = (Success 200 "Mock test deleted successfully", db)
     | (Success _ (_, None), _) => False
     | (Failure _ _, _) => True
     end.
Proof.
  intros Hconsistent Hreferential. split.
  - pose proof (createQuiz_creates lessons db body) as Hc. unfold creates in Hc.
    destruct (createQuiz lessons db body)
      as [[status [message data]|status message] db']; [|done].
    destruct Hc as (_ & quiz & rows & given & Hext & -> & _ & _ & _ & Hrows & _).
    rewrite (extended_loadQuiz db db' quiz rows given 0 Hconsistent Hext Hrows).
    unfold deleteQuiz.
    rewrite (extended_findByPk db db' quiz rows Hext).
    by eapply extended_delete.
  - pose proof (createMockTest_creates db body) as Hc. unfold creates in Hc.
    destruct (createMockTest db body)
      as [[status [message data]|status message] db']; [|done].
    destruct Hc as (_ & quiz & rows & given & Hext & -> & _ & _ & _ & Hrows & Hl & _).
    rewrite (extended_loadQuiz db db' quiz rows given 0 Hconsistent Hext Hrows).
    unfold deleteMockTest.
    rewrite (extended_findMockTest db db' quiz rows Hext).
    rewrite bool_decide_eq_true_2 by done.
    by eapply extended_delete.
Qed.

(** X5.  A quiz that has been created is served as it was asked for.  On a
    store where every question, answer and attempt belongs to a row that
    exists, the answer of [createQuiz] carries the new quiz with the
    questions and answers of the request, in the order of the request;
    a view of the quiz without randomization then succeeds and shows
    exactly these questions, each with its answers in the order of the
    request, while the mock-test view answers 404 for it.  A mock test
    made by [createMockTest] is served by the mock-test view in the same
    way. *)
Theorem created_quiz_is_served (lessons : list Z) (db : DB)
    (body : CreateBody.t) :
  consistent db ->
  match createQuiz lessons db body with
  | (Success _ (_, Some (quiz, rows)), db') =>
      (exists given, CreateBody.questions body = Some given
                     /\ questionRows (Quiz.id quiz) 0 given rows)
      /\ forall req, params_id req = Quiz.id quiz -> randomize req <> Some "true" ->
           (exists view, getQuizById db' req = Success 200 view
                         /\ questionsShown view = Some (JArr (shown <$> rows)))
           /\ getMockTestById db' req = Failure 404 "Mock test not found"
  | (Success _ (_, None), _) => False
  | (Failure _ _, _) => True
  end
  /\ match createMockTest db body with
     | (Success _ (_, Some (mockTest, rows)), db') =>
         (exists given, CreateBody.questions body = Some given
                        /\ questionRows (Quiz.id mockTest) 0 given rows)
         /\ forall req, params_id req = Quiz.id mockTest ->
                        randomize req <> Some "true" ->
              exists view, getMockTestById db' req = Success 200 view
                           /\ questionsShown view = Some (JArr (shown <$> rows))
     | (Success _ (_, None), _) => False
     | (Failure _ _, _) => True
     end.
Proof.
  intros Hconsistent. split.
  - pose proof (createQuiz_creates lessons db body) as Hc. unfold creates in Hc.
    destruct (createQuiz lessons db body)
      as [[status [message data]|status message] db']; [|done].
    destruct Hc as (_ & quiz & rows & given & Hext & -> & _ & Hgiven & _ & Hrows
                    & _ & Hl & _).
    rewrite (extended_loadQuiz db db' quiz rows given 0 Hconsistent Hext Hrows).
    split; [by exists given|]. intros req Hid Hplain. split.
    + unfold getQuizById. rewrite Hid, (extended_findByPk db db' quiz rows Hext).
      destruct (assemble_plain "Failed to get quiz" db' req quiz Hplain)
        as (view & Hview & Hshown).
      exists view. split; [done|].
      by rewrite Hshown,
        (extended_viewQuestions db db' quiz rows given 0 Hconsistent Hext Hrows).
    + unfold getMockTestById.
      rewrite Hid, (extended_findMockTest db db' quiz rows Hext).
      by rewrite bool_decide_eq_false_2.
  - pose proof (createMockTest_creates db body) as Hc. unfold creates in Hc.
    destruct (createMockTest db body)
      as [[status [message data]|status message] db']; [|done].
    destruct Hc as (_ & quiz & rows & given & Hext & -> & _ & Hgiven & _ & Hrows
                    & Hl & _).
    rewrite (extended_loadQuiz db db' quiz rows given 0 Hconsistent Hext Hrows).
    split; [by exists given|]. intros req Hid Hplain.
    unfold getMockTestById.
    rewrite Hid, (extended_findMockTest db db' quiz rows Hext).
    rewrite bool_decide_eq_true_2 by done.
    destruct (assemble_plain "Failed to get mock test" db' req quiz Hplain)
      as (view & Hview & Hshown).
    exists view. split; [done|].
    by rewrite Hshown,
      (extended_viewQuestions db db' quiz rows given 0 Hconsistent Hext Hrows).
Qed.

(** ** Updates *)

Lemma orKeep_takes {A} (given : option A) (old : A) : takes given old (orKeep given old).
Proof. by destruct given. Qed.

Lemma titleOr_takes (given : option string) (old : string) :
  takesTitle given old (titleOr given old).
Proof.
  unfold takesTitle, titleOr. destruct given as [title|]; [|done]. cbn.
  by case_bool_decide.
Qed.

Lemma find_fmap_values {A} (f : A -> bool) (g : A -> A) (l : list A) (x : A) :
  (forall y, f (g y) = f y) -> List.find f l = Some x ->
  List.find f ((fun y => if f y then g y else y) <$> l) = Some (g x).
Proof.
  intros Hfg. induction l as [|y l IH]; [done|]. cbn [List.find fmap list_fmap].
  destruct (f y) eqn:Hy.
  - intros [= ->]. by rewrite Hfg, Hy.
  - rewrite Hy. apply IH.
Qed.

Section Update.
Variables (updated : string) (db : DB) (id : Z).
Variables (values : Quiz.t -> Quiz.t) (quiz first : Quiz.t).
Hypothesis values_id : forall q, Quiz.id (values q) = Quiz.id q.
Hypothesis values_lessonId : forall q, Quiz.lessonId (values q) = Quiz.lessonId q.
Hypothesis Hid : Quiz.id quiz = id.
Hypothesis Hfirst : findByPk db id = Some first.

Lemma updateRow_same : sameButQuiz id db (updateRow id values db).
Proof.
  unfold sameButQuiz, updateRow. cbn. do 4 (split; [done|]).
  apply Forall2_fmap_r, Forall_Forall2_diag, Forall_forall. intros q _.
  cbn [compose].
  destruct (Z.eqb_spec (Quiz.id q) id) as [Heq|Hne]; [|done].
  by rewrite values_id, values_lessonId.
Qed.

Lemma updateRow_findByPk : findByPk (updateRow id values db) id = Some (values first).
Proof.
  unfold findByPk, updateRow. cbn [quizzes].
  apply (find_fmap_values (fun q => Quiz.id q =? id) values); [|done].
  intros q. by rewrite values_id.
Qed.

Lemma updateFound_spec :
  updateFound updated db id values quiz
  = (Success 200 (updated, Some (values first, loadQuestions db id)),
     updateRow id values db).
Proof.
  pose proof (findByPk_Some _ _ _ Hfirst) as [_ Hid'].
  unfold updateFound. cbn [begin onWorking working commit]. rewrite Hid.
  unfold loadQuiz. rewrite updateRow_findByPk. cbn. by rewrite values_id, Hid'.
Qed.

End Update.

Lemma findMockTest_findByPk (db : DB) (id : Z) (mockTest : Quiz.t) :
  findMockTest db id = Some mockTest ->
  exists quiz, findByPk db id = Some quiz.
Proof.
  intros Hf. apply findMockTest_Some in Hf as (Hin & Hid & _).
  destruct (findByPk db id) as [quiz|] eqn:Hq; [by exists quiz|].
  unfold findByPk in Hq. apply list_elem_of_In in Hin.
  pose proof (find_none _ _ Hq mockTest Hin) as Hne. cbn beta in Hne. lia.
Qed.

Lemma updateQuiz_updates (db : DB) (id : Z) (body : UpdateBody.t) :
  updates false findByPk db id body (updateQuiz db id body).
Proof.
  unfold updates, updateQuiz.
  destruct (findByPk db id) as [quiz|] eqn:Hf; [|done].
  pose proof (findByPk_Some _ _ _ Hf) as [_ Hid].
  rewrite (updateFound_spec _ db id _ quiz quiz); [|done..].
  split; [done|]. split; [by apply updateRow_same|].
  exists quiz, (quizValues body quiz quiz).
  split; [done|]. split; [by apply updateRow_findByPk|]. split; [done|].
  cbn. split; [apply titleOr_takes|]. by repeat split; try apply orKeep_takes.
Qed.

Lemma updateMockTest_updates (db : DB) (id : Z) (body : UpdateBody.t) :
  updates true findMockTest db id body (updateMockTest db id body).
Proof.
  unfold updates, updateMockTest.
  destruct (findMockTest db id) as [mockTest|] eqn:Hf; [|done].
  destruct (findMockTest_findByPk _ _ _ Hf) as [first Hfirst].
  pose proof (findMockTest_Some _ _ _ Hf) as (_ & Hid & _).
  rewrite (updateFound_spec _ db id _ mockTest first); [|done..].
  split; [done|]. split; [by apply updateRow_same|].
  exists mockTest, (mockTestValues body mockTest first).
  split; [done|]. split; [by apply updateRow_findByPk|]. split; [done|].
  cbn. split; [apply titleOr_takes|]. by repeat split; try apply orKeep_takes.
Qed.

(** X6.  An update writes the columns it is given and nothing else.
    [updateQuiz] answers 404 and leaves the store alone when no quiz has
    the key; otherwise it answers 200 with the quiz as it is then looked
    up, in which [title] is the title of the body unless that is absent
    or empty, and [description], [timeLimit] and [passingScore] are those
    of the body unless they are absent (a [null] is written); the
    category and the difficulty stay.  Questions, answers, attempts and
    the quizzes with another key are untouched, and no quiz changes its
    key or its lesson, so an update never turns the quiz of a lesson
    into a mock test or back.  [updateMockTest] does the same for the
    standalone quiz with the key, and writes [category] and [difficulty]
    too. *)
Theorem update_writes_given_columns (db : DB) (id : Z) (body : UpdateBody.t) :
  updates false findByPk db id body (updateQuiz db id body)
  /\ updates true findMockTest db id body (updateMockTest db id body).
Proof. split; [apply updateQuiz_updates | apply updateMockTest_updates]. Qed.

Lemma find_fmap_pres {A} (f : A -> bool) (h : A -> A) (l : list A) :
  (forall y, f (h y) = f y) -> List.find f (h <$> l) = h <$> List.find f l.
Proof.
  intros Hfh. induction l as [|y l IH]; [done|]. cbn [List.find fmap list_fmap].
  rewrite Hfh. by destruct (f y).
Qed.

Lemma updateRow_loadQuestions (id : Z) (values : Quiz.t -> Quiz.t) (db : DB) (k : Z) :
  loadQuestions (updateRow id values db) k = loadQuestions db k.
Proof. done. Qed.

Lemma updateRow_twice (id : Z) (values values' : Quiz.t -> Quiz.t) (db : DB) :
  (forall q, Quiz.id (values q) = Quiz.id q) ->
  (forall q, values' (values q) = values q) ->
  updateRow id values' (updateRow id values db) = updateRow id values db.
Proof.
  intros Hid Hsame. unfold updateRow. cbn. f_equal.
  rewrite <- list_fmap_compose. apply list_fmap_ext. intros i q _. cbn.
  destruct (Z.eqb_spec (Quiz.id q) id) as [Heq|Hne].
  - by rewrite Hid, <- Heq, Z.eqb_refl, Hsame.
  - by destruct (Z.eqb_spec (Quiz.id q) id).
Qed.

Lemma titleOr_twice (given : option string) (old : string) :
  titleOr given (titleOr given old) = titleOr given old.
Proof. unfold titleOr. by destruct (truthyStr given). Qed.

Lemma orKeep_twice {A} (given : option A) (old : A) :
  orKeep given (orKeep given old) = orKeep given old.
Proof. by destruct given. Qed.

(** X7.  Updates are idempotent: sending the same update a second time
    gives the same answer and leaves the store as the first one left
    it. *)
Theorem update_idempotent (db : DB) (id : Z) (body : UpdateBody.t) :
  updateQuiz (updateQuiz db id body).2 id body = updateQuiz db id body
  /\ updateMockTest (updateMockTest db id body).2 id body = updateMockTest db id body.
Proof.
  split.
  - unfold updateQuiz at 2 3.
    destruct (findByPk db id) as [quiz|] eqn:Hf.
    2:{ cbn. unfold updateQuiz. by rewrite Hf. }
    pose proof (findByPk_Some _ _ _ Hf) as [_ Hid].
    rewrite (updateFound_spec _ db id _ quiz quiz); [|done..].
    cbn [snd]. unfold updateQuiz.
    rewrite (updateRow_findByPk db id _ quiz) by done.
    rewrite (updateFound_spec _ _ id _ _ (quizValues body quiz quiz)); [|try done..].
    2:{ by apply updateRow_findByPk. }
    rewrite updateRow_loadQuestions, updateRow_twice; [|done|].
    2:{ intros q. unfold quizValues. cbn. by rewrite titleOr_twice, !orKeep_twice. }
    do 3 f_equal. unfold quizValues. cbn. by rewrite titleOr_twice, !orKeep_twice.
  - unfold updateMockTest at 2 3.
    destruct (findMockTest db id) as [mockTest|] eqn:Hf.
    2:{ cbn. unfold updateMockTest. by rewrite Hf. }
    destruct (findMockTest_findByPk _ _ _ Hf) as [first Hfirst].
    pose proof (findMockTest_Some _ _ _ Hf) as (_ & Hid & _).
    rewrite (updateFound_spec _ db id _ mockTest first); [|done..].
    cbn [snd]. unfold updateMockTest.
    assert (findMockTest (updateRow id (mockTestValues body mockTest) db) id
            = Some (mockTestValues body mockTest mockTest)) as ->.
    { unfold findMockTest, updateRow. cbn [quizzes].
      rewrite find_fmap_pres.
      - fold (findMockTest db id). rewrite Hf. cbn. by rewrite Hid, Z.eqb_refl.
      - intros q. destruct (Quiz.id q =? id) eqn:Hq; [|by rewrite Hq].
        cbn. by rewrite Hq. }
    rewrite (updateFound_spec _ _ id _ _ (mockTestValues body mockTest first));
      [|try done..].
    2:{ by apply updateRow_findByPk. }
    rewrite updateRow_loadQuestions, updateRow_twice; [|done|].
    2:{ intros q. unfold mockTestValues. cbn.
        by rewrite titleOr_twice, !orKeep_twice. }
    do 3 f_equal. unfold mockTestValues. cbn.
    by rewrite titleOr_twice, !orKeep_twice.
Qed.

(** ** The mock-test handlers and the quizzes of lessons *)

Lemma findMockTest_bound (db : DB) (id : Z) :
  (forall q, q ∈ quizzes db -> Quiz.id q = id -> Quiz.lessonId q <> None) ->
  findMockTest db id = None.
Proof.
  intros Hbound. destruct (findMockTest db id) as [q|] eqn:Hf; [|done].
  apply findMockTest_Some in Hf as (Hin & Hid & Hl). by destruct (Hbound q Hin Hid).
Qed.

(** X8.  The mock-test handlers neither write nor show the quiz of a lesson.
    When every quiz with the key [id] belongs to a lesson,
    [updateMockTest] and [deleteMockTest] answer 404 for [id] and leave
    the store as it was, an attempt submitted for [id] to
    [submitMockTestAttempt] is refused (400 or 404) and nothing is
    stored, and [getMockTestAttempt] answers 404 for an attempt that was
    made on [id]. *)
Theorem mock_test_handlers_skip_lesson_quizzes (schema : Schema)
    (users : list User.t) (db : DB) (id : Z) :
  (forall q, q ∈ quizzes db -> Quiz.id q = id -> Quiz.lessonId q <> None) ->
  (forall body,
     updateMockTest db id body = (Failure 404 "Mock test not found", db))
  /\ deleteMockTest schema db id = (Failure 404 "Mock test not found", db)
  /\ (forall now req,
        body_quizId req = Some id ->
        exists status message,
          submitMockTestAttempt schema users db now req
          = (Failure status message, db)
          /\ (status = 400 \/ status = 404))
  /\ (forall req,
        (forall t, t ∈ quiz_attempts db ->
                   QuizAttempt.id t = attempt_params_id req ->
                   QuizAttempt.quizId t = id) ->
        getMockTestAttempt db req = Failure 404 "Mock test attempt not found").
Proof.
  intros Hbound. pose proof (findMockTest_bound db id Hbound) as Hnone.
  split; [|split; [|split]].
  - intros body. unfold updateMockTest. by rewrite Hnone.
  - unfold deleteMockTest. by rewrite Hnone.
  - intros now req Hid. unfold submitMockTestAttempt, validated. rewrite Hid.
    destruct (body_startedAt req) as [startedAt|]; [|eexists _, _; eauto].
    destruct (body_answers req) as [answers|]; [|eexists _, _; eauto].
    destruct (_ && _); [|eexists _, _; eauto].
    rewrite Hnone. eexists _, _; eauto.
  - intros req Hon. unfold getMockTestAttempt.
    rewrite (proj2 (find_none_iff _ _)); [done|].
    intros t Hin. apply andb_false_iff.
    destruct (Z.eqb_spec (QuizAttempt.id t) (attempt_params_id req)) as [Heq|Hne];
      [right | by left].
    rewrite (Hon t Hin Heq), Hnone. apply bool_decide_eq_false. by intros [? ?].
Qed.

(** ** Who may see an attempt *)

Section AttemptAccess.
Variable jwt_verify : string -> Verified.
Variable users : list User.t.

Lemma optionalAuth_userId (authorization : option string) (u : Z) :
  userId (optionalAuth jwt_verify users authorization) = Some u ->
  bearer jwt_verify authorization u.
Proof.
  unfold optionalAuth. destruct (noToken authorization) eqn:Hno; [done|].
  destruct (decode jwt_verify (default "" authorization)) as [id| |] eqn:Hd;
    [|done..].
  cbn. intros ->. by apply bearer_decode.
Qed.

Lemma optionalAuth_admin (authorization : option string) :
  userRole (optionalAuth jwt_verify users authorization) = Some admin ->
  exists user, user ∈ users /\ User.role user = admin
               /\ bearer jwt_verify authorization (User.id user).
Proof.
  unfold optionalAuth. destruct (noToken authorization) eqn:Hno; [done|].
  destruct (decode jwt_verify (default "" authorization)) as [id| |] eqn:Hd;
    [|done..].
  cbn. destruct (findUser users id) as [user|] eqn:Hu; [|done].
  intros [= Hrole]. apply findUser_Some in Hu as [Hin ->].
  exists user. split; [done|]. split; [done|]. by apply bearer_decode.
Qed.

Lemma attemptFound_Success (db : DB) (req : AttemptRequest) (attributes : list string)
    (quiz : option Quiz.t) (attempt : QuizAttempt.t) (status : Z) (view : AttemptView) :
  attemptFound db req attributes quiz attempt = Success status view ->
  status = 200 /\ view_attempt view = attempt /\ forbidden req attempt = false.
Proof.
  unfold attemptFound. destruct (forbidden req attempt); [done|].
  by intros [= <- <-].
Qed.

Lemma forbidden_false (req : AttemptRequest) (attempt : QuizAttempt.t) (u : Z) :
  forbidden req attempt = false -> QuizAttempt.userId attempt = Some u -> u <> 0 ->
  attempt_userId req = Some u
  \/ (truthyNum (attempt_userId req) = true /\ attempt_userRole req = Some admin).
Proof.
  unfold forbidden. intros Hf Hu Hne. rewrite Hu in Hf. cbn in Hf.
  rewrite (proj2 (Z.eqb_neq u 0) Hne) in Hf. cbn in Hf.
  apply orb_false_iff in Hf as [Ht Hf]. apply negb_false_iff in Ht.
  apply andb_false_iff in Hf as [Hf|Hf]; apply bool_decide_eq_false in Hf.
  - left. by destruct (decide (attempt_userId req = Some u)) as [|Hn];
      [|destruct Hf; congruence].
  - right. split; [done|].
    by destruct (decide (attempt_userRole req = Some admin)) as [|Hn];
      [|destruct Hf].
Qed.

(** X9.  An attempt that belongs to a user is shown to that user and to
    administrators only.  When the route of one attempt, for quizzes or
    for mock tests, answers with an attempt whose [userId] is a user
    [u], the [Authorization] header of the request is a bearer token
    that verifies and names [u], or one that verifies and names an
    existing administrator.  The attempt shown is one with the key that
    was asked for.  An attempt that belongs to no user is shown
    whatever the header is. *)
Theorem owned_attempts_are_private (authorization : option string) (db : DB) (id : Z) :
  (forall status view,
     get_quiz_attempt jwt_verify users authorization db id = Success status view
     \/ get_mocktest_attempt jwt_verify users authorization db id
        = Success status view ->
     QuizAttempt.id (view_attempt view) = id
     /\ forall u, QuizAttempt.userId (view_attempt view) = Some u -> u <> 0 ->
          bearer jwt_verify authorization u
          \/ exists user, user ∈ users /\ User.role user = admin
                          /\ bearer jwt_verify authorization (User.id user))
  /\ (forall attempt,
        List.find (fun a => QuizAttempt.id a =? id) (quiz_attempts db) = Some attempt ->
        QuizAttempt.userId attempt = None ->
        exists view,
          get_quiz_attempt jwt_verify users authorization db id = Success 200 view
          /\ view_attempt view = attempt).
Proof.
  split.
  - assert (forall req attempt u,
              forbidden req attempt = false ->
              req = attemptRequest (optionalAuth jwt_verify users authorization) id ->
              QuizAttempt.userId attempt = Some u -> u <> 0 ->
              bearer jwt_verify authorization u
              \/ exists user, user ∈ users /\ User.role user = admin
                              /\ bearer jwt_verify authorization (User.id user))
      as Hprivate.
    { intros req attempt u Hf -> Hu Hne.
      destruct (forbidden_false _ _ u Hf Hu Hne) as [Hown|[_ Hadmin]].
      - left. by apply optionalAuth_userId.
      - right. by apply optionalAuth_admin. }
    intros status view [Hget|Hget].
    + unfold get_quiz_attempt, getQuizAttempt in Hget.
      destruct (List.find _ _) as [attempt|] eqn:Hfind; [|done].
      apply attemptFound_Success in Hget as (_ & -> & Hf).
      apply find_some in Hfind as [_ Hid]. cbn in Hid.
      split; [lia|]. intros u. by eapply Hprivate.
    + unfold get_mocktest_attempt, getMockTestAttempt in Hget.
      destruct (List.find _ _) as [attempt|] eqn:Hfind; [|done].
      apply attemptFound_Success in Hget as (_ & -> & Hf).
      apply find_some in Hfind as [_ Hid]. cbn in Hid.
      apply andb_true_iff in Hid as [Hid _].
      split; [lia|]. intros u. by eapply Hprivate.
  - intros attempt Hfind Hnone. unfold get_quiz_attempt, getQuizAttempt.
    cbn [attemptRequest attempt_params_id]. rewrite Hfind.
    unfold attemptFound, forbidden. rewrite Hnone. cbn. by eexists.
Qed.

End AttemptAccess.

(** ** What a submission stores *)


Lemma Forall2_exists_l {A B} (P : A -> B -> Prop) (l : list A) (k : list B) :
  Forall2 P l k -> Forall (fun y => exists x, P x y) k.
Proof. induction 1; constructor; eauto. Qed.

Section Recorded.
Variables (schema : Schema) (users : list User.t).
Variables (db db' : DB) (req : SubmitRequest) (r : AttemptResult).
Hypothesis Hrecords : records schema users db req (Success 201 r, db').

Lemma recorded_find (attempt : QuizAttempt.t) :
  last (quiz_attempts db') = Some attempt ->
  List.find (fun a => QuizAttempt.id a =? QuizAttempt.id attempt) (quiz_attempts db')
  = Some attempt.
Proof.
  destruct Hrecords as (_ & _ & _ & _ & attempt' & rows & answers & Ht & _ & Hfresh & _).
  rewrite Ht, last_snoc. intros [= <-]. apply find_app_last; [|lia].
  intros t Hin. specialize (Hfresh t Hin). lia.
Qed.

Lemma recorded_userAnswers (attempt : QuizAttempt.t) :
  attributed db -> last (quiz_attempts db') = Some attempt ->
  exists rows,
    userAnswersOf db' (QuizAttempt.id attempt) = answeredView db' <$> rows
    /\ Forall (fun row => exists answer,
                  gradedRow schema db (QuizAttempt.id attempt)
                            (QuizAttempt.quizId attempt) answer row) rows
    /\ result_score r = earned rows.
Proof.
  intros Hattributed.
  destruct Hrecords as (_ & _ & _ & _ & attempt' & rows & answers & Ht & Hu & Hfresh
                        & _ & _ & _ & _ & _ & _ & _ & _ & Hrows & Hscore & _).
  rewrite Ht, last_snoc. intros [= <-]. exists rows.
  apply Forall2_exists_l in Hrows. split; [|done].
  unfold userAnswersOf. rewrite Hu, List.filter_app. f_equal.
  rewrite filter_none, filter_all; [done| |].
  - intros row Hin. rewrite Forall_forall in Hrows.
    destruct (Hrows row Hin) as (answer & [-> _] & _). lia.
  - intros row Hin. destruct (Hattributed row Hin) as (t & Hin' & <-).
    specialize (Hfresh t Hin'). lia.
Qed.

End Recorded.

Lemma answeredView_question (db db' : DB) (row : UserQuizAnswer.t) :
  quiz_questions db' = quiz_questions db ->
  referring db row ->
  is_Some (answered_question (answeredView db' row)).
Proof.
  intros Hq [Hrow _]. apply list_elem_of_fmap in Hrow as (q & Hid & Hin).
  unfold answeredView. cbn. rewrite Hq.
  destruct (List.find _ _) as [q'|] eqn:Hf; [by eexists|].
  apply list_elem_of_In in Hin. pose proof (find_none _ _ Hf q Hin) as Hne.
  cbn beta in Hne. lia.
Qed.

Lemma own_attempt_allowed (req : SubmitRequest) (role : option Role)
    (attempt : QuizAttempt.t) :
  QuizAttempt.userId attempt = submit_userId req ->
  forbidden {| attempt_params_id := QuizAttempt.id attempt;
               attempt_userId := submit_userId req;
               attempt_userRole := role |} attempt = false.
Proof.
  intros Hu. unfold forbidden. cbn. rewrite Hu.
  destruct (truthyNum (submit_userId req)); [|done]. cbn.
  by rewrite bool_decide_eq_false_2 by (intros H; by apply H).
Qed.

(** X11.  An attempt can be read back by the one who made it.  On a store
    where every row of an answer belongs to an attempt, after
    [submitQuizAttempt] has answered 201, [getQuizAttempt] for the key of
    the attempt that was added, asked by the user of the submission (or
    by nobody when the submission had no user), answers 200 whatever the
    role is: with that attempt, whose score and verdict are those of
    the answer to the submission, and with rows whose points add up to
    the score, each with its question.  The same holds for
    [submitMockTestAttempt] and [getMockTestAttempt]. *)
Theorem submitted_attempt_is_served (schema : Schema) (users : list User.t)
    (db : DB) (now : Z) (req : SubmitRequest) :
  attributed db ->
  match submitQuizAttempt schema users db now req with
  | (Success _ r, db') =>
      exists attempt view,
        last (quiz_attempts db') = Some attempt
        /\ (forall role,
              getQuizAttempt db' {| attempt_params_id := QuizAttempt.id attempt;
                                    attempt_userId := submit_userId req;
                                    attempt_userRole := role |} = Success 200 view)
        /\ view_attempt view = attempt
        /\ QuizAttempt.score attempt = Some (result_score r)
        /\ QuizAttempt.passed attempt = Some (result_passed r)
        /\ earned (answered_row <$> view_userAnswers view) = result_score r
        /\ Forall (fun v => is_Some (answered_question v)) (view_userAnswers view)
  | (Failure _ _, _) => True
  end
  /\ match submitMockTestAttempt schema users db now req with
     | (Success _ r, db') =>
         exists attempt view,
           last (quiz_attempts db') = Some attempt
           /\ (forall role,
                 getMockTestAttempt db'
                   {| attempt_params_id := QuizAttempt.id attempt;
                      attempt_userId := submit_userId req;
                      attempt_userRole := role |} = Success 200 view)
           /\ view_attempt view = attempt
           /\ QuizAttempt.score attempt = Some (result_score r)
           /\ QuizAttempt.passed attempt = Some (result_passed r)
           /\ earned (answered_row <$> view_userAnswers view) = result_score r
           /\ Forall (fun v => is_Some (answered_question v)) (view_userAnswers view)
     | (Failure _ _, _) => True
     end.
Proof.
  intros Hattributed. split.
  - pose proof (submitQuizAttempt_records schema users db now req) as Hrec.
    destruct (submitQuizAttempt schema users db now req)
      as [[status r|status message] db']; [|done].
    pose proof Hrec as (-> & Hq & Hqq & Ha & attempt & rows0 & answers0 & Ht & Hu
                        & Hfresh & HuserId & _ & HquizId & _ & Hscore & _
                        & Hpassed & _).
    assert (last (quiz_attempts db') = Some attempt) as Hlast
      by (by rewrite Ht, last_snoc).
    destruct (recorded_userAnswers schema users db db' req r Hrec attempt
                Hattributed Hlast)
      as (rows & Hrows & Hgraded & Hsum).
    eexists attempt, _. split; [done|]. split.
    { intros role. unfold getQuizAttempt. cbn [attempt_params_id].
      rewrite (recorded_find schema users db db' req r Hrec attempt Hlast).
      unfold attemptFound. rewrite (own_attempt_allowed req role attempt HuserId).
      reflexivity. }
    cbn [view_attempt view_userAnswers]. do 3 (split; [done|]).
    rewrite Hrows, <- list_fmap_compose. split.
    + assert (answered_row ∘ answeredView db' <$> rows = rows) as ->; [|done].
      rewrite <- (list_fmap_id rows) at 2. by apply list_fmap_ext.
    + apply Forall_fmap, Forall_forall. intros row Hin. cbn [compose].
      rewrite Forall_forall in Hgraded.
      destruct (Hgraded row Hin) as (answer & _ & _ & Hrefer).
      exact (answeredView_question db db' row Hqq Hrefer).
  - pose proof (submitMockTestAttempt_records schema users db now req) as Hrec.
    destruct (submitMockTestAttempt schema users db now req)
      as [[status r|status message] db'] eqn:Hsubmit; [|done].
    pose proof Hrec as (-> & Hq & Hqq & Ha & attempt & rows0 & answers0 & Ht & Hu
                        & Hfresh & HuserId & _ & HquizId & _ & Hscore & _
                        & Hpassed & _).
    assert (last (quiz_attempts db') = Some attempt) as Hlast
      by (by rewrite Ht, last_snoc).
    destruct (recorded_userAnswers schema users db db' req r Hrec attempt
                Hattributed Hlast)
      as (rows & Hrows & Hgraded & Hsum).
    assert (is_Some (findMockTest db' (QuizAttempt.quizId attempt))) as Hmock.
    { unfold findMockTest. rewrite Hq. fold (findMockTest db (QuizAttempt.quizId attempt)).
      unfold submitMockTestAttempt, validated in Hsubmit. rewrite HquizId in Hsubmit.
      destruct (body_startedAt req); [|done]. destruct (body_answers req); [|done].
      destruct (_ && _); [|done].
      by destruct (findMockTest db (QuizAttempt.quizId attempt)). }
    eexists attempt, _. split; [done|]. split.
    { intros role. unfold getMockTestAttempt. cbn [attempt_params_id].
      rewrite Ht, (find_app_last _ _ attempt).
      2:{ intros t Hin. specialize (Hfresh t Hin). apply andb_false_iff. left. lia. }
      2:{ rewrite Z.eqb_refl. cbn. by apply bool_decide_eq_true. }
      unfold attemptFound. rewrite (own_attempt_allowed req role attempt HuserId).
      reflexivity. }
    cbn [view_attempt view_userAnswers]. do 3 (split; [done|]).
    rewrite Hrows, <- list_fmap_compose. split.
    + assert (answered_row ∘ answeredView db' <$> rows = rows) as ->; [|done].
      rewrite <- (list_fmap_id rows) at 2. by apply list_fmap_ext.
    + apply Forall_fmap, Forall_forall. intros row Hin. cbn [compose].
      rewrite Forall_forall in Hgraded.
      destruct (Hgraded row Hin) as (answer & _ & _ & Hrefer).
      exact (answeredView_question db db' row Hqq Hrefer).
Qed.

(** ** A quiz with attempts stays *)

Lemma find_is_Some {A} (f : A -> bool) (l : list A) (x : A) :
  x ∈ l -> f x = true -> is_Some (List.find f l).
Proof.
  intros Hin Hx. destruct (List.find f l) as [y|] eqn:Hf; [by eexists|].
  apply list_elem_of_In in Hin. by rewrite (find_none _ _ Hf x Hin) in Hx.
Qed.

Lemma submitMockTestAttempt_found (schema : Schema) (users : list User.t)
    (db db' : DB) (now : Z) (req : SubmitRequest) (status : Z) (r : AttemptResult) :
  submitMockTestAttempt schema users db now req = (Success status r, db') ->
  exists id, body_quizId req = Some id /\ is_Some (findMockTest db id).
Proof.
  unfold submitMockTestAttempt, validated.
  destruct (body_quizId req) as [quizId|]; [|done].
  destruct (body_startedAt req); [|done]. destruct (body_answers req); [|done].
  destruct (_ && _); [|done].
  destruct (findMockTest db quizId) as [quiz|] eqn:Hf; [|done].
  intros _. exists quizId. split; [done | by eexists].
Qed.

(** X12.  A quiz that has been attempted cannot be deleted any more.  Once
    [submitQuizAttempt] has answered 201 for a quiz, [deleteQuiz] answers
    400 for that quiz and leaves the store as it is; likewise
    [deleteMockTest] after [submitMockTestAttempt]. *)
Theorem attempted_quiz_is_kept (schema : Schema) (users : list User.t) (db : DB)
    (now : Z) (req : SubmitRequest) :
  match submitQuizAttempt schema users db now req with
  | (Success _ _, db') =>
      exists id,
        body_quizId req = Some id
        /\ deleteQuiz schema db' id
           = (Failure 400 "Cannot delete quiz with existing attempts", db')
  | (Failure _ _, _) => True
  end
  /\ match submitMockTestAttempt schema users db now req with
     | (Success _ _, db') =>
         exists id,
           body_quizId req = Some id
           /\ deleteMockTest schema db' id
              = (Failure 400 "Cannot delete mock test with existing attempts", db')
     | (Failure _ _, _) => True
     end.
Proof.
  split.
  - pose proof (submitQuizAttempt_records schema users db now req) as Hrec.
    destruct (submitQuizAttempt schema users db now req)
      as [[status r|status message] db']; [|done].
    destruct Hrec as (_ & Hq & _ & _ & attempt & rows & answers & Ht & _ & _ & _ & _
                      & HquizId & (quiz & Hquiz & Hid) & _).
    exists (QuizAttempt.quizId attempt). split; [done|]. unfold deleteQuiz.
    destruct (find_is_Some (fun q => Quiz.id q =? QuizAttempt.quizId attempt)
                (quizzes db') quiz) as [found Hfound];
      [by rewrite Hq | lia |].
    unfold findByPk. rewrite Hfound. apply deleteFound_blocked.
    exists attempt. split; [|done]. rewrite Ht. apply elem_of_app. right.
    apply list_elem_of_here.
  - pose proof (submitMockTestAttempt_records schema users db now req) as Hrec.
    destruct (submitMockTestAttempt schema users db now req)
      as [[status r|status message] db'] eqn:Hrun; [|done].
    apply submitMockTestAttempt_found in Hrun as (id & Hid & [found Hfound]).
    destruct Hrec as (_ & Hq & _ & _ & attempt & rows & answers & Ht & _ & _ & _ & _
                      & HquizId & _).
    exists id. split; [done|]. unfold deleteMockTest, findMockTest. rewrite Hq.
    fold (findMockTest db id). rewrite Hfound. apply deleteFound_blocked.
    exists attempt. split; [|congruence]. rewrite Ht. apply elem_of_app. right.
    apply list_elem_of_here.
Qed.

(** ** What every handler keeps *)

Lemma creates_sound (standalone : bool) (db : DB) (body : CreateBody.t)
    (result : Written) :
  creates standalone db body result -> sound db -> sound result.2.
Proof.
  unfold creates. destruct result as [[status [message data]|status message] db'].
  2:{ by intros (_ & ->). }
  intros (_ & quiz & rows & given & Hext & _ & Hquiz & _ & _ & Hrows & _).
  intros ((Hcq & Hca & Hct) & Hattr & (Hfq & Hfqq & Hfa)). cbn [snd].
  pose proof (rows_questionId quiz rows given 0 Hrows) as HquestionId.
  pose proof (rows_quizId quiz rows given 0 Hrows) as HquizId.
  destruct Hext as (Hq & Hqq & Ha & Ht & Hu & _).
  destruct Hquiz as (_ & Htitle & _).
  split; [|split].
  - split; [|split].
    + intros q. rewrite Hqq, Hq. intros Hin.
      apply elem_of_app in Hin as [Hin|Hin].
      * destruct (Hcq q Hin) as (old & Hold & Hid). exists old.
        split; [|done]. apply elem_of_app. by left.
      * apply list_elem_of_fmap in Hin as (row & -> & Hrow). exists quiz.
        split; [|by rewrite HquizId]. apply elem_of_app. right.
        apply list_elem_of_here.
    + intros a. rewrite Ha, Hqq. intros Hin.
      apply elem_of_app in Hin as [Hin|Hin].
      * destruct (Hca a Hin) as (q & Hin' & Hid). exists q.
        split; [|done]. apply elem_of_app. by left.
      * apply list_elem_of_bind in Hin as (row & Hin & Hrow).
        exists (question row). split; [|by rewrite (HquestionId row a)].
        apply elem_of_app. right. by apply list_elem_of_fmap_2.
    + intros t. rewrite Ht, Hq. intros Hin.
      destruct (Hct t Hin) as (old & Hold & Hid). exists old.
      split; [|done]. apply elem_of_app. by left.
  - intros row. rewrite Hu, Ht. apply Hattr.
  - split; [|split].
    + intros q. rewrite Hq. intros Hin.
      apply elem_of_app in Hin as [Hin|Hin]; [by apply Hfq|].
      by apply list_elem_of_singleton in Hin as ->.
    + intros q. rewrite Hqq. intros Hin.
      apply elem_of_app in Hin as [Hin|Hin]; [by apply Hfqq|].
      apply list_elem_of_fmap in Hin as (row & -> & Hrow).
      apply list_elem_of_lookup in Hrow as [k Hk].
      destruct Hrows as [Hlen Hall].
      destruct (lookup_lt_is_Some_2 given k) as [g Hg].
      { rewrite <- Hlen. by eapply lookup_lt_Some. }
      destruct (Hall k g row Hg Hk) as (_ & _ & Htext & _ & Hpoints & _).
      split; [done|]. rewrite Hpoints.
      destruct (QuestionInput.points g) as [p|]; [|done].
      destruct (Z.eqb_spec p 0); [done | done].
    + intros a. rewrite Ha. intros Hin.
      apply elem_of_app in Hin as [Hin|Hin]; [by apply Hfa|].
      apply list_elem_of_bind in Hin as (row & Hin & Hrow).
      apply list_elem_of_lookup in Hrow as [k Hk].
      destruct Hrows as [Hlen Hall].
      destruct (lookup_lt_is_Some_2 given k) as [g Hg].
      { rewrite <- Hlen. by eapply lookup_lt_Some. }
      destruct (Hall k g row Hg Hk) as (_ & _ & _ & _ & _ & _ & _ & gs & _ & Hf).
      apply list_elem_of_lookup in Hin as [j Hj].
      destruct (Forall2_lookup_r _ _ _ _ _ Hf Hj) as (x & _ & Hx).
      by destruct Hx as (_ & _ & ? & _).
Qed.

Lemma updateFound_sound (updated : string) (db : DB) (id : Z)
    (values : Quiz.t -> Quiz.t) (quiz : Quiz.t) :
  (forall q, Quiz.id (values q) = Quiz.id q) ->
  (forall q, Quiz.title q <> "" -> Quiz.title (values q) <> "") ->
  sound db -> sound (updateFound updated db id values quiz).2.
Proof.
  intros Hid Htitle ((Hcq & Hca & Hct) & Hattr & (Hfq & Hfqq & Hfa)).
  unfold updateFound. cbn.
  assert (forall old, old ∈ quizzes db ->
            exists new, new ∈ quizzes (updateRow (Quiz.id quiz) values db)
                        /\ Quiz.id new = Quiz.id old) as Hkept.
  { intros old Hold. eexists. split; [by apply list_elem_of_fmap_2|].
    cbn. destruct (Quiz.id old =? Quiz.id quiz); [apply Hid | done]. }
  split; [|split; [done|]].
  - split; [|split; [done|]].
    + intros q Hin. destruct (Hcq q Hin) as (old & Hold & <-). by apply Hkept.
    + intros t Hin. destruct (Hct t Hin) as (old & Hold & <-). by apply Hkept.
  - split; [|done]. intros q' Hin. cbn in Hin.
    apply list_elem_of_fmap in Hin as (q & -> & Hq).
    destruct (Quiz.id q =? Quiz.id quiz); [apply Htitle|]; by apply Hfq.
Qed.

Lemma titleOr_filled (given : option string) (old : string) :
  old <> "" -> titleOr given old <> "".
Proof.
  intros Hold. unfold titleOr. destruct (truthyStr given) eqn:Ht; [|done].
  apply truthyStr_Some in Ht as (title & -> & Hne). done.
Qed.

Lemma deleteFound_sound (schema : Schema) (blocked deleted failed : string)
    (db : DB) (id : Z) (quiz : Quiz.t) :
  Quiz.id quiz = id -> sound db ->
  sound (deleteFound schema blocked deleted failed db id quiz).2.
Proof.
  intros Hid Hsound.
  destruct (decide (0 < attemptCount db id)%nat) as [Hsome|Hnone].
  { apply attemptCount_pos in Hsome.
    by rewrite (deleteFound_blocked schema blocked deleted failed db id quiz Hsome). }
  assert (forall a, a ∈ quiz_attempts db -> QuizAttempt.quizId a <> id) as Hno.
  { intros a Hin Heq. apply Hnone, attemptCount_pos. by exists a. }
  destruct (deleteFound_cascade schema blocked deleted failed db id quiz Hid Hno)
    as [(db' & -> & Hq & Hqq & Ha & Ht & _ & Hu)|[-> _]]; [|done].
  destruct Hsound as ((Hcq & Hca & Hct) & Hattr & (Hfq & Hfqq & Hfa)). cbn [snd].
  split; [|split].
  - split; [|split].
    + intros q Hin. apply Hqq in Hin as [Hin Hne].
      destruct (Hcq q Hin) as (old & Hold & Heq). exists old.
      split; [|done]. apply Hq. split; [done | congruence].
    + intros a Hin. apply Ha in Hin as [Hin Hother].
      destruct (Hca a Hin) as (q & Hin' & Heq). exists q. split; [|done].
      apply Hqq. split; [done|]. intros Hquiz. by apply (Hother q Hin' Hquiz).
    + intros t. rewrite Ht. intros Hin.
      destruct (Hct t Hin) as (old & Hold & Heq). exists old.
      split; [|done]. apply Hq. split; [done|]. rewrite Heq. by apply Hno.
  - intros row Hin. rewrite Ht.
    destruct (Hu row Hin) as (_ & _ & [Hold|(old & Hold & _ & _ & ->)]);
      [by apply Hattr | by apply (Hattr old)].
  - split; [|split].
    + intros q Hin. apply Hq in Hin as [Hin _]. by apply Hfq.
    + intros q Hin. apply Hqq in Hin as [Hin _]. by apply Hfqq.
    + intros a Hin. apply Ha in Hin as [Hin _]. by apply Hfa.
Qed.

Lemma records_sound (schema : Schema) (users : list User.t) (db : DB)
    (req : SubmitRequest) (result : Response AttemptResult * DB) :
  records schema users db req result -> sound db -> sound result.2.
Proof.
  unfold records. destruct result as [[status r|status message] db'].
  2:{ by intros (-> & _). }
  intros (_ & Hq & Hqq & Ha & attempt & rows & answers & Ht & Hu & _ & _ & _ & _
          & (quiz & Hquiz & Hid) & _ & _ & _ & _ & Hrows & _).
  apply Forall2_exists_l in Hrows.
  intros ((Hcq & Hca & Hct) & Hattr & (Hfq & Hfqq & Hfa)). cbn [snd].
  split; [|split].
  - split; [|split].
    + intros q. rewrite Hqq, Hq. apply Hcq.
    + intros a. rewrite Ha, Hqq. apply Hca.
    + intros t. rewrite Ht, Hq. intros Hin.
      apply elem_of_app in Hin as [Hin|Hin]; [by apply Hct|].
      apply list_elem_of_singleton in Hin as ->. by exists quiz.
  - intros row. rewrite Hu, Ht. intros Hin.
    apply elem_of_app in Hin as [Hin|Hin].
    + destruct (Hattr row Hin) as (t & Hin' & Heq). exists t.
      split; [|done]. apply elem_of_app. by left.
    + rewrite Forall_forall in Hrows.
      destruct (Hrows row Hin) as (answer & [Heq _] & _).
      exists attempt. split; [|done]. apply elem_of_app. right.
      apply list_elem_of_here.
  - split; [|split].
    + intros q. rewrite Hq. apply Hfq.
    + intros q. rewrite Hqq. apply Hfqq.
    + intros a. rewrite Ha. apply Hfa.
Qed.

(** X13.  The handlers keep the store sound.  Say a store is sound when
    every question belongs to a quiz of the store, every answer to a
    question, every attempt to a quiz and every row of an answer to an
    attempt, no title, question text or answer text is empty and no
    question is worth 0 points.  Then whatever the request is, and
    whether it is accepted or refused, each of the eight handlers that
    write leaves a sound store sound. *)
Theorem handlers_keep_the_store_sound (schema : Schema) (users : list User.t)
    (lessons : list Z) (db : DB) :
  sound db ->
  (forall body, sound (createQuiz lessons db body).2)
  /\ (forall body, sound (createMockTest db body).2)
  /\ (forall id body, sound (updateQuiz db id body).2)
  /\ (forall id body, sound (updateMockTest db id body).2)
  /\ (forall id, sound (deleteQuiz schema db id).2)
  /\ (forall id, sound (deleteMockTest schema db id).2)
  /\ (forall now req, sound (submitQuizAttempt schema users db now req).2)
  /\ (forall now req, sound (submitMockTestAttempt schema users db now req).2).
Proof.
  intros Hsound.
  split; [|split; [|split; [|split; [|split; [|split; [|split]]]]]].
  - intros body. by eapply creates_sound; [apply createQuiz_creates|].
  - intros body. by eapply creates_sound; [apply createMockTest_creates|].
  - intros id body. unfold updateQuiz.
    destruct (findByPk db id) as [quiz|] eqn:Hf; [|done].
    apply updateFound_sound; [done| |done].
    intros q _. cbn. apply titleOr_filled.
    destruct Hsound as (_ & _ & Hfq & _). apply Hfq.
    by apply findByPk_Some in Hf as [? _].
  - intros id body. unfold updateMockTest.
    destruct (findMockTest db id) as [quiz|] eqn:Hf; [|done].
    apply updateFound_sound; [done| |done].
    intros q _. cbn. apply titleOr_filled.
    destruct Hsound as (_ & _ & Hfq & _). apply Hfq.
    by apply findMockTest_Some in Hf as [? _].
  - intros id. unfold deleteQuiz.
    destruct (findByPk db id) as [quiz|] eqn:Hf; [|done].
    apply deleteFound_sound; [|done]. by apply findByPk_Some in Hf as [_ ?].
  - intros id. unfold deleteMockTest.
    destruct (findMockTest db id) as [quiz|] eqn:Hf; [|done].
    apply deleteFound_sound; [|done]. by apply findMockTest_Some in Hf as (_ & ? & _).
  - intros now req. by eapply records_sound; [apply submitQuizAttempt_records|].
  - intros now req. by eapply records_sound; [apply submitMockTestAttempt_records|].
Qed.

(** ** The swap index stays inside the array *)

Lemma round_notAbove (mx ex : Z) (lx : location) :
  notAbove (binary_round_aux prec emax true mx ex lx).
Proof.
  unfold binary_round_aux. destruct (shr_fexp _ _ _ _ _) as [mrs' e'].
  destruct (shr_fexp _ _ _ _ _) as [mrs'' e''].
  destruct (shr_m mrs''); [done| |done]. by destruct (_ <=? _).
Qed.

Lemma of_Z_negative (z : Z) :
  - 2 ^ 53 < z < 0 -> exists m e, Prim2SF (JS.of_Z z) = S754_finite true m e.
Proof.
  intros Hz. destruct z as [|p|p]; [lia..|].
  change (JS.of_Z (Zneg p)) with (PrimFloat.opp (JS.of_Z (Zpos p))).
  rewrite FloatAxioms.opp_spec.
  destruct (of_Z_holds (Zpos p) ltac:(lia)) as (m & e & -> & _).
  by exists m, e.
Qed.

Lemma emit_notAbove (hash : Z) :
  - 233280 < hash < 0 -> notAbove (Prim2SF (emit hash)).
Proof.
  intros Hh. unfold emit. rewrite FloatAxioms.div_spec.
  destruct (of_Z_negative hash ltac:(lia)) as (m & e & ->).
  destruct (of_Z_holds 233280 ltac:(lia)) as (m' & e' & -> & _).
  unfold SF64div, SFdiv.
  match goal with
  | |- context [SFdiv_core_binary ?p ?q ?a ?b ?c ?d] =>
      destruct (SFdiv_core_binary p q a b c d) as [[mz ez] lz]
  end.
  apply round_notAbove.
Qed.

Lemma mul_notAbove (x : spec_float) (n : Z) :
  notAbove x -> 0 < n < 2 ^ 53 ->
  notAbove (SFmul prec emax x (Prim2SF (JS.of_Z n))).
Proof.
  intros Hx Hn. destruct (of_Z_holds n Hn) as (m & e & -> & _).
  destruct x as [s|s| |s mx ex]; cbn in Hx |- *; try done; subst s; try done.
  apply round_notAbove.
Qed.

Lemma floor_notAbove (x : spec_float) (k : Z) :
  notAbove x -> JS.SFfloor x = JS.KInt k -> k <= 0.
Proof.
  destruct x as [s|s| |s m e]; cbn; try done.
  - by intros _ [= <-].
  - intros -> [= <-].
    destruct (Z.le_gt_cases 0 (Z.shiftl (Z.neg m) e)) as [Hle|Hgt]; [|lia].
    apply Z.shiftl_nonneg in Hle. lia.
Qed.

Lemma nextHash_bound (hash : Z) : - 233280 < nextHash hash < 233280.
Proof.
  unfold nextHash, JS.rem.
  pose proof (Z.rem_bound_abs (hash * 9301 + 49297) 233280 ltac:(lia)). lia.
Qed.

(** The index of a swap is below the number it is scaled by, whatever
    the state of the generator is. *)
Lemma index_below (hash n k : Z) :
  - 233280 < hash < 233280 -> 0 < n < 2 ^ 35 ->
  JS.floor (PrimFloat.mul (emit hash) (JS.of_Z n)) = JS.KInt k -> k < n.
Proof.
  intros Hh Hn Hk. destruct (Z.le_gt_cases 0 hash) as [Hpos|Hneg].
  - destruct (index_range hash n ltac:(lia) Hn) as (k' & Hk' & Hrange).
    rewrite Hk in Hk'. injection Hk' as ->. lia.
  - unfold JS.floor in Hk. rewrite FloatAxioms.mul_spec in Hk.
    apply floor_notAbove in Hk; [lia|].
    apply mul_notAbove; [|lia]. apply emit_notAbove. lia.
Qed.

Section ShuffleLength.
Context {A : Type}.

Lemma aset_length (a : jsarray A) (j : JS.key) (v : option A) :
  (forall k, j = JS.KInt k -> k < Z.of_nat (length (elems a))) ->
  length (elems (aset a j v)) = length (elems a).
Proof.
  intros Hj. destruct j as [k| |s]; cbn [aset]; [|done..].
  destruct (decide (0 <= k)); [|done].
  specialize (Hj k eq_refl).
  destruct (decide (Z.to_nat k < length (elems a))%nat); [|lia].
  cbn [elems]. by rewrite length_insert.
Qed.

Lemma swap_length (a : jsarray A) (i j : JS.key) :
  (forall k, i = JS.KInt k -> k < Z.of_nat (length (elems a))) ->
  (forall k, j = JS.KInt k -> k < Z.of_nat (length (elems a))) ->
  length (elems (swap a i j)) = length (elems a).
Proof.
  intros Hi Hj. unfold swap.
  rewrite aset_length; [by apply aset_length|].
  rewrite aset_length; done.
Qed.

Lemma shuffleFrom_length (i : nat) :
  forall (hash : Z) (a : jsarray A),
    (i < length (elems a))%nat \/ i = 0%nat ->
    Z.of_nat (length (elems a)) < 2 ^ 35 ->
    length (elems (shuffleFrom hash i a).1) = length (elems a).
Proof.
  induction i as [|i IH]; intros hash a Hi Hlen; [done|].
  destruct Hi as [Hi|Hi]; [|done]. cbn [shuffleFrom].
  assert (length (elems (swap a (JS.KInt (Z.of_nat (S i)))
            (JS.floor (PrimFloat.mul (emit (nextHash hash))
                                     (JS.of_Z (Z.of_nat (S i) + 1))))))
          = length (elems a)) as Hswap.
  { apply swap_length.
    - intros k [= <-]. lia.
    - intros k Hk. apply index_below in Hk; [lia | apply nextHash_bound | lia]. }
  rewrite IH; [done | left; lia | lia].
Qed.

Lemma shuffleArray_length (g : nat) (array : list A) (st : list Z) (hash : Z) :
  st !! g = Some hash -> Z.of_nat (length array) < 2 ^ 35 ->
  exists out hash',
    shuffleArray array g st = Some (out, <[g := hash']> st)
    /\ length out = length array.
Proof.
  intros Hg Hlen. pose proof (shuffleArray_from g array st hash Hg) as Hs.
  cbv zeta in Hs. eexists _, _. split; [exact Hs|].
  rewrite shuffleFrom_length; cbn [spread elems]; rewrite ?length_fmap; [done| |lia].
  destruct array; cbn [length]; [by right | left; lia].
Qed.

End ShuffleLength.

(** X14.  The shuffle never fails and never changes the length of the array.
    For every seed, also one whose hash is negative, the pass returns,
    and what it returns has as many slots as the array it was given: a
    swap index is never at or past the end, so no write extends the
    array. *)
Theorem shuffle_keeps_length {A : Type} (seed : string) (array : list A)
    (st : list Z) :
  Z.of_nat (length array) < 2 ^ 32 ->
  exists out st',
    (let* g := createSeededRandom seed in shuffleArray array g) st = Some (out, st')
    /\ length out = length array.
Proof.
  intros Hlen.
  destruct (createSeededRandom_fresh seed st) as (g & st1 & Hc & Hg).
  destruct (shuffleArray_length g array st1 _ Hg ltac:(lia)) as (out & hash' & Hs & Hl).
  exists out, (<[g := hash']> st1). unfold bind. by rewrite Hc, Hs.
Qed.

(** ** How many questions a view returns *)

Lemma insertBy_length {A} (key : A -> Z) (x : A) (l : list A) :
  length (insertBy key x l) = S (length l).
Proof.
  induction l as [|y l IH]; [done|]. cbn [insertBy].
  destruct (key x <=? key y); cbn [length]; by rewrite ?IH.
Qed.

Lemma orderBy_length {A} (key : A -> Z) (l : list A) :
  length (orderBy key l) = length l.
Proof.
  induction l as [|x l IH]; [done|]. unfold orderBy in *. cbn [foldr].
  by rewrite insertBy_length, IH.
Qed.

Lemma viewQuestions_length (db : DB) (quizId : Z) :
  length (viewQuestions db quizId) = length (questionsOf db quizId).
Proof. unfold viewQuestions. by rewrite length_fmap, orderBy_length. Qed.

Lemma mapM_length {A B} (f : A -> M B) (l : list A) :
  forall st out st', mapM f l st = Some (out, st') -> length out = length l.
Proof.
  induction l as [|x l IH]; intros st out st'; cbn [mapM].
  - by intros [= <- _].
  - unfold bind at 1. destruct (f x st) as [[y st1]|]; [|done].
    unfold bind at 1. destruct (mapM f l st1) as [[ys st2]|] eqn:Hl; [|done].
    intros [= <- _]. cbn. f_equal. by eapply IH.
Qed.

Lemma mapiM_length {A B} (f : nat -> A -> M B) (l : list A) :
  forall index st out st',
    mapiM f index l st = Some (out, st') -> length out = length l.
Proof.
  induction l as [|x l IH]; intros index st out st'; cbn [mapiM].
  - by intros [= <- _].
  - unfold bind at 1. destruct (f index x st) as [[y st1]|]; [|done].
    unfold bind at 1. destruct (mapiM f (S index) l st1) as [[ys st2]|] eqn:Hl; [|done].
    intros [= <- _]. cbn. f_equal. by eapply IH.
Qed.

Lemma randomizeQuestions_length (req : ViewRequest) (questions out : list json)
    (st st' : list Z) :
  Z.of_nat (length questions) < 2 ^ 32 ->
  randomizeQuestions req questions st = Some (out, st') ->
  Z.of_nat (length out)
  = match asked req with
    | Some count => Z.min count (Z.of_nat (length questions))
    | None => Z.of_nat (length questions)
    end.
Proof.
  intros Hlen. unfold randomizeQuestions.
  destruct (createSeededRandom_fresh (seedOf req) st) as (g & st1 & Hc & Hg).
  unfold bind at 1. rewrite Hc.
  destruct (shuffleArray_length g questions st1 _ Hg ltac:(lia))
    as (shuffled & hash' & Hs & Hl).
  unfold bind at 1. rewrite Hs.
  match goal with
  | |- context [mapM (shuffleAnswersOf g) ?l] => set (taken := l)
  end.
  assert (Z.of_nat (length taken)
          = match asked req with
            | Some count => Z.min count (Z.of_nat (length questions))
            | None => Z.of_nat (length questions)
            end) as Htaken.
  { subst taken. unfold asked. destruct (questionCount req) as [qc|]; [|cbn; lia].
    cbn [mbind option_bind].
    destruct (Str.parseInt qc) as [count|] eqn:Hcount; cbn [from_option].
    - destruct (truthyStr (Some qc)) eqn:Ht.
      + cbn [andb mbind option_bind]. unfold id.
        case_bool_decide; [|lia]. rewrite length_take. lia.
      + cbn in Ht. apply negb_false_iff, bool_decide_eq_true in Ht. subst qc.
        by vm_compute in Hcount.
    - rewrite andb_false_r. cbn. lia. }
  rewrite <- Htaken. clearbody taken. clear Htaken.
  unfold bind at 1.
  destruct (bool_decide (shuffleAnswers req = Some "true")).
  - destruct (mapM _ taken _) as [[shuffledAnswers st2]|] eqn:Hm; [|done].
    apply mapM_length in Hm. intros Hi. apply mapiM_length in Hi. lia.
  - unfold ret. intros Hi. apply mapiM_length in Hi. lia.
Qed.

Lemma assemble_counted (failed : string) (db : DB) (req : ViewRequest) (quiz : Quiz.t) :
  Z.of_nat (length (questionsOf db (Quiz.id quiz))) < 2 ^ 32 ->
  counted req (length (questionsOf db (Quiz.id quiz))) (assemble failed db req quiz).
Proof.
  intros Hlen. rewrite <- viewQuestions_length in *. unfold assemble, counted.
  set (all := viewQuestions db (Quiz.id quiz)) in *.
  destruct (bool_decide (randomize req = Some "true")) eqn:Hrandom.
  - cbn [andb].
    destruct (decide (0 < length all)%nat) as [Hsome|Hsome];
      [rewrite (bool_decide_eq_true_2 _ Hsome)
      | rewrite (bool_decide_eq_false_2 _ Hsome)].
    + destruct (randomizeQuestions req all []) as [[questions st]|] eqn:Hrun.
      * split; [done|]. exists questions. do 3 (split; [reflexivity|]).
        apply randomizeQuestions_length in Hrun; [|done]. rewrite Hrun.
        by destruct (asked req).
      * right. split; [done|]. by apply bool_decide_eq_true in Hrandom.
    + unfold ret. split; [done|]. exists all. do 3 (split; [reflexivity|]).
      destruct (asked req) as [count|] eqn:Hasked; [|done].
      assert (length all = 0%nat) as -> by lia.
      unfold asked in Hasked.
      destruct (questionCount req ≫= Str.parseInt) as [c|]; [|done].
      cbn in Hasked. case_bool_decide; [|done]. injection Hasked as <-. lia.
  - cbn [andb]. unfold ret. split; [done|]. exists all.
    do 3 (split; [reflexivity|]). by destruct (asked req).
Qed.

(** X15.  A view returns as many questions as it says, and never more than
    were asked for or than there are.  For a quiz with fewer than 2^32
    questions, [getQuizById] and [getMockTestById] answer 404, or 500
    (only when randomization was asked for), or 200; with 200,
    [returnedQuestions] is the length of the list of questions in the
    answer and [totalAvailableQuestions] the number of questions of the
    quiz, and the list holds all of them unless the view is randomized
    and [questionCount] reads as a number above 0, in which case it holds
    that many, or all when there are fewer. *)
Theorem views_are_counted (db : DB) (req : ViewRequest) :
  Z.of_nat (length (questionsOf db (params_id req))) < 2 ^ 32 ->
  counted req (length (questionsOf db (params_id req))) (getQuizById db req)
  /\ counted req (length (questionsOf db (params_id req))) (getMockTestById db req).
Proof.
  intros Hlen. split.
  - unfold getQuizById. destruct (findByPk db (params_id req)) as [quiz|] eqn:Hf;
      [|by left].
    apply findByPk_Some in Hf as [_ Hid]. rewrite <- Hid in *.
    by apply assemble_counted.
  - unfold getMockTestById.
    destruct (findMockTest db (params_id req)) as [quiz|] eqn:Hf; [|by left].
    apply findMockTest_Some in Hf as (_ & Hid & _). rewrite <- Hid in *.
    by apply assemble_counted.
Qed.

(** ** Statistics *)

Lemma filter_length_le {A} (f : A -> bool) (l : list A) :
  (length (List.filter f l) <= length l)%nat.
Proof.
  induction l as [|x l IH]; [done|]. cbn [List.filter].
  destruct (f x); cbn [length]; lia.
Qed.

Lemma filter_and_length_le {A} (f g : A -> bool) (l : list A) :
  (length (List.filter (fun x => f x && g x) l) <= length (List.filter f l))%nat.
Proof.
  induction l as [|x l IH]; [done|]. cbn [List.filter].
  destruct (f x), (g x); cbn [andb length]; lia.
Qed.

Lemma percentage_share (count total : Z) :
  0 <= count <= total -> share count total (percentage count total).
Proof.
  intros Hcount. split; [done|]. split.
  - by intros ->.
  - intros Htotal. by apply percentage_bounded.
Qed.

(** X16.  The statistics of a quiz are shares.  The number of passed
    attempts is within the number of attempts, and for every question the
    number of correct answers is within the number of answers; the pass
    rate and every [correctPercentage] are 0 when there is nothing to
    count, and lie between 0 and 100 (for fewer than 2^53 rows). *)
Theorem statistics_are_shares (db : DB) (quizId : Z) :
  share (passedAttempts db quizId) (totalAttempts db quizId) (passRate db quizId)
  /\ Forall (fun stat => share (stat_correctAnswers stat) (stat_totalAnswers stat)
                               (stat_correctPercentage stat))
            (questionStats db quizId).
Proof.
  split.
  - apply (percentage_share (passedAttempts db quizId) (totalAttempts db quizId)).
    unfold passedAttempts, totalAttempts, attemptCount. split; [lia|].
    apply inj_le.
    apply (filter_and_length_le
             (fun a => QuizAttempt.quizId a =? quizId)
             (fun a => bool_decide (QuizAttempt.passed a = Some true))).
  - unfold questionStats. apply Forall_fmap, Forall_forall. intros question _.
    cbn [compose]. unfold questionStat. cbn.
    match goal with
    | |- share (Z.of_nat (length (List.filter ?f ?l))) (Z.of_nat (length ?l)) _ =>
        apply (percentage_share (Z.of_nat (length (List.filter f l)))
                                (Z.of_nat (length l)));
        split; [lia|]; apply inj_le, filter_length_le
    end.
Qed.

(** ** The state of the generator *)

Lemma ToInt32_range (z : Z) : - 2 ^ 31 <= JS.ToInt32 z < 2 ^ 31.
Proof.
  unfold JS.ToInt32. pose proof (Z.mod_pos_bound (z + 2 ^ 31) (2 ^ 32) ltac:(lia)).
  lia.
Qed.

Lemma hashStep_range (hash char : Z) : - 2 ^ 31 <= hashStep hash char < 2 ^ 31.
Proof.
  unfold hashStep, JS.and. cbv zeta. rewrite Z.land_diag. apply ToInt32_range.
Qed.

Lemma seedHash_range (seed : string) : - 2 ^ 31 <= seedHash seed < 2 ^ 31.
Proof.
  unfold seedHash. generalize (JS.charCodes seed). intros codes.
  assert (- 2 ^ 31 <= 0 < 2 ^ 31) as H0 by lia. revert H0. generalize 0.
  induction codes as [|c codes IH]; intros hash Hh; [done|].
  cbn [foldl]. apply IH, hashStep_range.
Qed.

Lemma draws_state (g : nat) (n : nat) :
  forall (st : list Z) (hash : Z),
    st !! g = Some hash ->
    exists vs st',
      draws g n st = Some (vs, st')
      /\ st' !! g = Some (Nat.iter n nextHash hash).
Proof.
  induction n as [|n IH]; intros st hash Hg.
  - by exists [], st.
  - destruct (IH (<[g := nextHash hash]> st) (nextHash hash)) as (vs & st' & Hrun & Hst).
    { apply list_lookup_insert_eq. by eapply lookup_lt_Some. }
    exists (emit (nextHash hash) :: vs), st'.
    cbn [draws]. unfold bind at 1, random. rewrite Hg.
    unfold bind at 1. rewrite Hrun. split; [done|].
    by rewrite Hst, Nat.iter_succ_r.
Qed.

(** X17.  The arithmetic of the generator is exact.  The hash of a seed is a
    signed 32-bit integer; after any number of calls the state of the
    generator is a signed 32-bit integer too -- after the first call it
    is even between -233280 and 233280 -- and the product
    [hash * 9301 + 49297] of the next call stays below 2^45 in
    magnitude, far inside the integers that binary64 holds exactly. *)
Theorem generator_state_is_exact (seed : string) (n : nat) (st : list Z) :
  exists g vs st' hash,
    (let* g := createSeededRandom seed in
     let* vs := draws g n in ret (g, vs)) st = Some ((g, vs), st')
    /\ st' !! g = Some hash
    /\ - 2 ^ 31 <= hash < 2 ^ 31
    /\ (n <> 0%nat -> - 233280 < hash < 233280)
    /\ - 2 ^ 45 < hash * 9301 + 49297 < 2 ^ 45.
Proof.
  destruct (createSeededRandom_fresh seed st) as (g & st1 & Hc & Hg).
  destruct (draws_state g n st1 _ Hg) as (vs & st' & Hrun & Hst).
  exists g, vs, st', (Nat.iter n nextHash (seedHash seed)).
  unfold bind at 1. rewrite Hc. unfold bind at 1. rewrite Hrun.
  split; [done|]. split; [done|].
  assert (- 2 ^ 31 <= Nat.iter n nextHash (seedHash seed) < 2 ^ 31
          /\ (n <> 0%nat -> - 233280 < Nat.iter n nextHash (seedHash seed) < 233280))
    as [Hrange Hsmall].
  { destruct n as [|n]; [split; [apply seedHash_range | done]|].
    rewrite Nat.iter_succ.
    pose proof (nextHash_bound (Nat.iter n nextHash (seedHash seed))).
    split; [lia | done]. }
  split; [done|]. split; [done|]. lia.
Qed.

(** ** Grading a choice *)

Lemma find_unique {A} (f : A -> bool) (key : A -> Z) (l : list A) (x : A) :
  NoDup (key <$> l) -> x ∈ l -> f x = true ->
  (forall y, f y = true -> key y = key x) ->
  List.find f l = Some x.
Proof.
  intros Hnodup Hin Hx Hkey. induction l as [|y l IH]; [by apply elem_of_nil in Hin|].
  cbn [fmap list_fmap] in Hnodup. apply NoDup_cons in Hnodup as [Hnotin Hnodup].
  cbn [List.find]. destruct (f y) eqn:Hy.
  - apply elem_of_cons in Hin as [->|Hin]; [done|]. exfalso. apply Hnotin.
    rewrite (Hkey y Hy). by apply list_elem_of_fmap_2.
  - apply elem_of_cons in Hin as [->|Hin]; [congruence|]. by apply IH.
Qed.

Lemma NoDup_filter_fmap {A} (f : A -> bool) (key : A -> Z) (l : list A) :
  NoDup (key <$> l) -> NoDup (key <$> List.filter f l).
Proof.
  induction l as [|x l IH]; [done|]. cbn [fmap list_fmap List.filter].
  intros Hnodup. apply NoDup_cons in Hnodup as [Hnotin Hnodup].
  destruct (f x); [|by apply IH]. cbn [fmap list_fmap]. apply NoDup_cons.
  split; [|by apply IH]. intros Hin. apply Hnotin.
  apply list_elem_of_fmap in Hin as (y & -> & Hy).
  apply list_elem_of_In, filter_In in Hy as [Hy _].
  by apply list_elem_of_fmap_2, list_elem_of_In.
Qed.

(** X18.  A question that is not a fill-in-the-blank one is answered
    correctly only by an answer of its own.  When a submission for such
    a question of a quiz is graded correct, the [answerId] it carries
    reads as the key of an answer of the store that belongs to that very
    question and is marked correct; the free text plays no part.  When
    the keys of the answers are distinct, every such submission is
    graded correct. *)
Theorem choice_needs_own_correct_answer (db : DB) (quizId : Z) (q : LoadedQuestion)
    (answer : Submission) :
  q ∈ loadQuestions db quizId ->
  QuizQuestion.questionType (question q) <> fill_blank ->
  let chosen (a : QuizAnswer.t) :=
    a ∈ quiz_answers db
    /\ QuizAnswer.questionId a = QuizQuestion.id (question q)
    /\ parseInt (answerId answer) = Some (QuizAnswer.id a)
    /\ QuizAnswer.isCorrect a = true in
  (judge q answer = true -> exists a, chosen a)
  /\ (NoDup (QuizAnswer.id <$> quiz_answers db) ->
      (exists a, chosen a) -> judge q answer = true).
Proof.
  intros Hq Htype chosen. subst chosen. cbv beta.
  unfold loadQuestions in Hq. apply list_elem_of_fmap in Hq as (row & -> & _).
  cbn [question answers] in *. unfold judge. cbn [question answers].
  rewrite bool_decide_eq_false_2 by done. unfold choiceCorrect. cbn [answers].
  split.
  - destruct (List.find _ _) as [selected|] eqn:Hf; [|done]. intros Hcorrect.
    apply find_some in Hf as [Hin Hid]. unfold answersOf in Hin.
    apply filter_In in Hin as [Hin Hown]. exists selected.
    split; [by apply list_elem_of_In|]. split; [lia|]. split; [|done].
    destruct (parseInt (answerId answer)) as [n|]; [|done]. f_equal. lia.
  - intros Hnodup (a & Hin & Hown & Hid & Hcorrect).
    rewrite (find_unique _ QuizAnswer.id _ a).
    + done.
    + by apply NoDup_filter_fmap.
    + unfold answersOf. apply list_elem_of_In, filter_In.
      split; [by apply list_elem_of_In | lia].
    + rewrite Hid. lia.
    + intros y. rewrite Hid. lia.
Qed.

(** ** A randomized view on a seed with a state that is not negative *)

Lemma insertBy_perm {A} (key : A -> Z) (x : A) (l : list A) :
  insertBy key x l ≡ₚ x :: l.
Proof.
  induction l as [|y l IH]; [done|]. cbn [insertBy].
  destruct (key x <=? key y); [done|]. rewrite IH. apply Permutation_swap.
Qed.

Lemma orderBy_perm {A} (key : A -> Z) (l : list A) : orderBy key l ≡ₚ l.
Proof.
  induction l as [|x l IH]; [done|]. unfold orderBy in *. cbn [foldr].
  by rewrite insertBy_perm, IH.
Qed.

Lemma perm_fmap_inv {A B} (f : A -> B) (l : list B) (k : list A) :
  l ≡ₚ f <$> k -> exists k', l = f <$> k' /\ k' ≡ₚ k.
Proof.
  intros Hperm. destruct (Permutation_map_inv f k Hperm) as (k' & -> & Hk).
  exists k'. split; [done|]. by symmetry.
Qed.

Section GoodSeed.
Context {A : Type}.

Lemma shuffleFrom_state (i : nat) :
  forall (hash : Z) (a : jsarray A), -5 <= hash -> -5 <= (shuffleFrom hash i a).2.
Proof.
  induction i as [|i IH]; intros hash a Hh; [done|]. cbn [shuffleFrom].
  apply IH. pose proof (nextHash_range hash Hh). lia.
Qed.

Lemma shuffleArray_good (g : nat) (array : list A) (st : list Z) (hash : Z) :
  st !! g = Some hash -> -5 <= hash -> Z.of_nat (length array) < 2 ^ 32 ->
  exists out hash',
    shuffleArray array g st = Some (Some <$> out, <[g := hash']> st)
    /\ out ≡ₚ array /\ -5 <= hash'.
Proof.
  intros Hg Hh Hlen. pose proof (shuffleArray_from g array st hash Hg) as Hs.
  cbv zeta in Hs.
  set (r := shuffleFrom hash (length array - 1) (spread array)) in *.
  assert (elems r.1 ≡ₚ Some <$> array) as Hperm.
  { destruct array as [|x array]; [done|]. apply shuffleFrom_perm; [done| |].
    - cbn [spread elems]. rewrite length_fmap. cbn [length]. lia.
    - cbn [spread elems]. rewrite length_fmap. lia. }
  apply perm_fmap_inv in Hperm as (out & Hout & Hperm).
  exists out, r.2. rewrite Hs, Hout. split; [done|]. split; [done|].
  by apply shuffleFrom_state.
Qed.

End GoodSeed.

Section RandomizedView.
Variables (db : DB) (g : nat).
Hypothesis Hanswers : Z.of_nat (length (quiz_answers db)) < 2 ^ 32.

Lemma viewQuestion_shownWith (q : QuizQuestion.t) :
  viewQuestion db q
  = shownWith q (QuizQuestion.position q) (viewAnswers db (QuizQuestion.id q)).
Proof. reflexivity. Qed.

Lemma viewAnswers_length (questionId : Z) :
  Z.of_nat (length (viewAnswers db questionId)) < 2 ^ 32.
Proof.
  unfold viewAnswers, answersOf. rewrite length_fmap, orderBy_length.
  pose proof (filter_length_le (fun a => QuizAnswer.questionId a =? questionId)
                               (quiz_answers db)). lia.
Qed.

Lemma shuffleAnswersOf_good (q : QuizQuestion.t) (position : Z) (shownAnswers : list json)
    (st : list Z) (hash : Z) :
  st !! g = Some hash -> -5 <= hash ->
  shownAnswers ≡ₚ viewAnswers db (QuizQuestion.id q) ->
  exists answers hash',
    shuffleAnswersOf g (Some (shownWith q position shownAnswers)) st
    = Some (Some (shownWith q position answers), <[g := hash']> st)
    /\ answers ≡ₚ viewAnswers db (QuizQuestion.id q) /\ -5 <= hash'.
Proof.
  intros Hg Hh Hshown. unfold shuffleAnswersOf, defined. unfold bind at 1.
  change (itemsOf (default (JArr [])
            (Obj.get "answers" (fieldsOf (shownWith q position shownAnswers)))))
    with shownAnswers.
  case_bool_decide as Hsome.
  - destruct (shuffleArray_good g shownAnswers st hash Hg Hh) as (out & hash' & Hs & Hperm & Hh').
    { rewrite Hshown. apply viewAnswers_length. }
    exists out, hash'. unfold bind. rewrite Hs. unfold ret.
    split; [|split; [by rewrite Hperm | done]].
    do 3 f_equal. unfold holesToNull. rewrite <- list_fmap_compose.
    cbn. by rewrite list_fmap_id.
  - exists shownAnswers, hash. unfold ret. by rewrite list_insert_id.
Qed.

Lemma mapM_shuffleAnswersOf_good (chosen : list QuizQuestion.t) :
  forall (ins : list json) (st : list Z) (hash : Z),
    st !! g = Some hash -> -5 <= hash -> Forall2 (shuffled db) chosen ins ->
    exists outs st',
      mapM (shuffleAnswersOf g) (Some <$> ins) st = Some (Some <$> outs, st')
      /\ Forall2 (shuffled db) chosen outs.
Proof.
  induction chosen as [|q chosen IH]; intros ins st hash Hg Hh Hall.
  - apply Forall2_nil_inv_l in Hall as ->. by exists [], st.
  - apply Forall2_cons_inv_l in Hall as (o & ins' & (shown' & -> & Hshown) & Hall & ->).
    destruct (shuffleAnswersOf_good q (QuizQuestion.position q) shown' st hash
                Hg Hh Hshown) as (answers & hash' & Hrun & Hperm & Hh').
    destruct (IH ins' (<[g := hash']> st) hash') as (outs & st' & Hrest & Houts).
    { apply list_lookup_insert_eq. by eapply lookup_lt_Some. }
    { done. }
    { done. }
    exists (shownWith q (QuizQuestion.position q) answers :: outs), st'.
    cbn [fmap list_fmap mapM]. unfold bind at 1. rewrite Hrun.
    unfold bind at 1.
    change (list_fmap _ _ Some ins') with (Some <$> ins').
    rewrite Hrest. split; [done|]. constructor; [by exists answers | done].
Qed.

Lemma reposition_shownWith (index : nat) (q : QuizQuestion.t) (position : Z)
    (answers : list json) (st : list Z) :
  reposition index (Some (shownWith q position answers)) st
  = Some (shownWith q (Z.of_nat index) answers, st).
Proof. reflexivity. Qed.

Lemma mapiM_reposition_good (chosen : list QuizQuestion.t) :
  forall (ins : list json) (index : nat) (st : list Z),
    Forall2 (shuffled db) chosen ins ->
    exists outs,
      mapiM reposition index (Some <$> ins) st = Some (outs, st)
      /\ length outs = length chosen
      /\ forall i q, chosen !! i = Some q ->
           exists o, outs !! i = Some o /\ reordered db (Z.of_nat (index + i)) q o.
Proof.
  induction chosen as [|q chosen IH]; intros ins index st Hall.
  - apply Forall2_nil_inv_l in Hall as ->. exists []. split; [done|].
    split; [done|]. intros i q Hi. by rewrite lookup_nil in Hi.
  - apply Forall2_cons_inv_l in Hall as (o & ins' & (answers & -> & Hperm) & Hall & ->).
    destruct (IH ins' (S index) st Hall) as (outs & Hrest & Hlen & Houts).
    exists (shownWith q (Z.of_nat index) answers :: outs).
    cbn [fmap list_fmap mapiM]. unfold bind at 1.
    rewrite reposition_shownWith. unfold bind at 1.
    change (list_fmap _ _ Some ins') with (Some <$> ins').
    rewrite Hrest. split; [done|]. split; [cbn; by rewrite Hlen|].
    intros [|i] q' Hi.
    + injection Hi as <-. eexists. split; [done|]. rewrite Nat.add_0_r.
      by exists answers.
    + destruct (Houts i q' Hi) as (o'' & Ho & Hre). exists o''.
      split; [done|]. by rewrite <- Nat.add_succ_comm.
Qed.

End RandomizedView.

Lemma randomizeQuestions_good (db : DB) (req : ViewRequest) (quizId : Z)
    (st : list Z) :
  Z.of_nat (length (quiz_questions db)) < 2 ^ 32 ->
  Z.of_nat (length (quiz_answers db)) < 2 ^ 32 ->
  -5 <= seedHash (seedOf req) ->
  exists out chosen st',
    randomizeQuestions req (viewQuestions db quizId) st = Some (out, st')
    /\ chosen ⊆+ questionsOf db quizId
    /\ length out = length chosen
    /\ forall i q, chosen !! i = Some q ->
         exists o, out !! i = Some o /\ reordered db (Z.of_nat i) q o.
Proof.
  intros Hquestions Hanswers Hseed. unfold randomizeQuestions.
  destruct (createSeededRandom_fresh (seedOf req) st) as (g' & st1 & Hc & Hg).
  assert (g' = length st) as -> by (unfold createSeededRandom in Hc; congruence).
  unfold bind at 1. rewrite Hc.
  destruct (shuffleArray_good (length st) (viewQuestions db quizId) st1 _ Hg Hseed)
    as (out1 & hash1 & Hs & Hperm & Hh1).
  { rewrite viewQuestions_length. unfold questionsOf.
    pose proof (filter_length_le (fun q => QuizQuestion.quizId q =? quizId)
                                 (quiz_questions db)). lia. }
  unfold bind at 1. rewrite Hs.
  unfold viewQuestions in Hperm.
  apply perm_fmap_inv in Hperm as (rows1 & -> & Hrows1).
  rewrite orderBy_perm in Hrows1.
  match goal with
  | |- context [mapM (shuffleAnswersOf (length st)) ?l] => set (taken := l)
  end.
  assert (exists chosen, taken = Some <$> (viewQuestion db <$> chosen)
                         /\ chosen ⊆+ questionsOf db quizId)
    as (chosen & -> & Hchosen).
  { subst taken. destruct (questionCount req) as [qc|].
    - destruct (_ && _).
      + eexists (take _ rows1). rewrite !fmap_take. split; [done|].
        rewrite <- Hrows1. apply sublist_submseteq, sublist_take.
      + exists rows1. split; [done|]. by rewrite Hrows1.
    - exists rows1. split; [done|]. by rewrite Hrows1. }
  assert (Forall2 (shuffled db) chosen (viewQuestion db <$> chosen)) as Hall.
  { apply Forall2_fmap_r, Forall_Forall2_diag, Forall_forall. intros q _.
    by exists (viewAnswers db (QuizQuestion.id q)). }
  assert ((<[length st := hash1]> st1) !! length st = Some hash1) as Hg1.
  { apply list_lookup_insert_eq. by eapply lookup_lt_Some. }
  unfold bind at 1. destruct (bool_decide (shuffleAnswers req = Some "true")).
  - destruct (mapM_shuffleAnswersOf_good db (length st) Hanswers chosen _ _ hash1
                Hg1 Hh1 Hall) as (outs & st2 & Hm & Houts).
    rewrite Hm.
    destruct (mapiM_reposition_good db chosen outs 0 st2 Houts)
      as (out & Hi & Hlen & Hout).
    exists out, chosen, st2. by rewrite Hi.
  - unfold ret at 1.
    destruct (mapiM_reposition_good db chosen _ 0 (<[length st := hash1]> st1) Hall)
      as (out & Hi & Hlen & Hout).
    exists out, chosen, (<[length st := hash1]> st1). by rewrite Hi.
Qed.

Lemma assemble_reorders (failed : string) (db : DB) (req : ViewRequest) (quiz : Quiz.t) :
  Z.of_nat (length (quiz_questions db)) < 2 ^ 32 ->
  Z.of_nat (length (quiz_answers db)) < 2 ^ 32 ->
  randomize req = Some "true" -> -5 <= seedHash (seedOf req) ->
  reorders db (questionsOf db (Quiz.id quiz)) (assemble failed db req quiz).
Proof.
  intros Hquestions Hanswers Hrandom Hseed. unfold assemble, reorders.
  rewrite (bool_decide_eq_true_2 _ Hrandom). cbn [andb].
  case_bool_decide as Hsome.
  - destruct (randomizeQuestions_good db req (Quiz.id quiz) []
                Hquestions Hanswers Hseed)
      as (out & chosen & st' & Hrun & Hchosen & Hlen & Hout).
    rewrite Hrun. split; [done|]. by exists out, chosen.
  - unfold ret. split; [done|]. exists [], [].
    rewrite viewQuestions_length in Hsome.
    destruct (viewQuestions db (Quiz.id quiz)) as [|v vs] eqn:Hv.
    + split; [reflexivity|]. split; [apply submseteq_nil_l|]. split; [done|].
      intros i q Hi. by rewrite lookup_nil in Hi.
    + exfalso. apply Hsome. rewrite <- viewQuestions_length, Hv. cbn. lia.
Qed.

(** X19.  On a seed whose hash is at least -5 a randomized view is a
    re-ordering.  For such a request, on a store with fewer than 2^32
    questions and answers, [getQuizById] and [getMockTestById] never
    answer 500: they answer 404 or 200, and with 200 the questions of the
    answer are questions of the quiz, none of them twice, each with the
    columns that a view shows, at the position where it stands in the
    answer, and with its own answers in some order. *)
Theorem randomized_view_reorders (db : DB) (req : ViewRequest) :
  Z.of_nat (length (quiz_questions db)) < 2 ^ 32 ->
  Z.of_nat (length (quiz_answers db)) < 2 ^ 32 ->
  randomize req = Some "true" -> -5 <= seedHash (seedOf req) ->
  reorders db (questionsOf db (params_id req)) (getQuizById db req)
  /\ reorders db (questionsOf db (params_id req)) (getMockTestById db req).
Proof.
  intros Hquestions Hanswers Hrandom Hseed. split.
  - unfold getQuizById. destruct (findByPk db (params_id req)) as [quiz|] eqn:Hf;
      [|done].
    apply findByPk_Some in Hf as [_ <-]. by apply assemble_reorders.
  - unfold getMockTestById.
    destruct (findMockTest db (params_id req)) as [quiz|] eqn:Hf; [|done].
    apply findMockTest_Some in Hf as (_ & <- & _). by apply assemble_reorders.
Qed.

(** ** Routes, creation and attempts at the example store *)

(** The store of the examples is sound. *)

Lemma store0_sound : sound Example.store0.
Proof.
  split; [|split].
  - split; [|split].
    + intros q Hq. cbn in Hq.
      repeat (apply elem_of_cons in Hq as [->|Hq];
              [first [by exists Example.quiz1; split; [cbn; in_list|]
                     | by exists Example.quiz2; split; [cbn; in_list|]]|]).
      by apply elem_of_nil in Hq.
    + intros a Ha. cbn in Ha. unfold Example.allAnswers in Ha.
      repeat (apply elem_of_cons in Ha as [->|Ha];
              [first [by exists Example.question1; split; [cbn; in_list|]
                     | by exists Example.question2; split; [cbn; in_list|]
                     | by exists Example.question3; split; [cbn; in_list|]
                     | by exists Example.question4; split; [cbn; in_list|]]|]).
      by apply elem_of_nil in Ha.
    + intros t Ht. by apply elem_of_nil in Ht.
  - intros row Hrow. by apply elem_of_nil in Hrow.
  - split; [|split].
    + intros q Hq. cbn in Hq.
      repeat (apply elem_of_cons in Hq as [->|Hq]; [done|]).
      by apply elem_of_nil in Hq.
    + intros q Hq. cbn in Hq.
      repeat (apply elem_of_cons in Hq as [->|Hq]; [done|]).
      by apply elem_of_nil in Hq.
    + intros a Ha. cbn in Ha. unfold Example.allAnswers in Ha.
      repeat (apply elem_of_cons in Ha as [->|Ha]; [done|]).
      by apply elem_of_nil in Ha.
Qed.

Lemma store0_referential : referential Example.store0.
Proof. intros row Hrow. by apply elem_of_nil in Hrow. Qed.

(** The token of user 7, an instructor, opens the guarded routes. *)
Lemma teacher_authorized :
  authorized Sample.verify Sample.users (Some "Bearer teacher").
Proof.
  exists (User.Build 7 instructor). split; [|split; [reflexivity | by left]].
  by exists "Bearer teacher", "teacher".
Qed.

(** The token of user 8, a student, does not. *)
Lemma pupil_not_authorized :
  ~ authorized Sample.verify Sample.users (Some "Bearer pupil").
Proof.
  intros (user & (authHeader & token & [= <-] & _ & Htoken & Hverify) & Hfind & Hrole).
  vm_compute in Htoken. injection Htoken as <-.
  vm_compute in Hverify. injection Hverify as Hid.
  destruct user as [id role]. cbn in Hid, Hfind, Hrole. subst id.
  vm_compute in Hfind. injection Hfind as <-. by destruct Hrole.
Qed.

(** An instructor deletes through the route as through the handler; a
    student who posts a quiz is refused. *)
Lemma write_routes_guarded_witness :
  delete_mocktest Sample.verify Example.schema Sample.users (Some "Bearer teacher")
                  Example.store0 2
  = deleteMockTest Example.schema Example.store0 2
  /\ refused Example.store0
       (post_quiz Sample.verify Sample.users Sample.lessons (Some "Bearer pupil")
                  Example.store0 Sample.body).
Proof.
  split.
  - apply (proj1 (write_routes_guarded Sample.verify Example.schema Sample.users
                    Sample.lessons (Some "Bearer teacher") Example.store0 2
                    Sample.body Sample.update) teacher_authorized).
  - apply (proj2 (write_routes_guarded Sample.verify Example.schema Sample.users
                    Sample.lessons (Some "Bearer pupil") Example.store0 2
                    Sample.body Sample.update) pupil_not_authorized).
Defined.

(** [optionalAuth] on the token of the instructor, and on a header that
    is not a bearer token. *)
Lemma optionalAuth_agrees_witness :
  optionalAuth Sample.verify Sample.users (Some "Bearer teacher")
  = {| userId := Some 7; userRole := Some instructor |}
  /\ userRole (optionalAuth Sample.verify Sample.users (Some "Basic teacher")) = None.
Proof.
  split.
  - by apply (proj1 (optionalAuth_agrees Sample.verify Sample.users
                       (Some "Bearer teacher"))).
  - apply (proj2 (proj2 (optionalAuth_agrees Sample.verify Sample.users
                           (Some "Basic teacher")))).
    by intros id (authHeader & token & [= <-] & Hstarts & _).
Defined.

(** The sample quiz is created under the key 3 and deleted again. *)
Lemma create_then_delete_witness :
  consistent Example.store0 /\ referential Example.store0
  /\ exists data db',
      createQuiz Sample.lessons Example.store0 Sample.body
      = (Success 201 ("Quiz created successfully", data), db')
      /\ deleteQuiz Example.schema db' 3
         = (Success 200 "Quiz deleted successfully", Example.store0).
Proof.
  split; [apply store0_sound|]. split; [apply store0_referential|].
  pose proof (create_then_delete Example.schema Sample.lessons Example.store0
                Sample.body (proj1 store0_sound) store0_referential) as [H _].
  revert H. destruct (createQuiz Sample.lessons Example.store0 Sample.body)
    as [[status [message [[quiz rows]|]]|status message] db'] eqn:Hrun;
    [intros H | done | by vm_compute in Hrun].
  vm_compute in Hrun. injection Hrun as <- <- <- <- <-.
  eexists _, _. split; [reflexivity | exact H].
Defined.

(** The sample quiz is served by the quiz view and not by the mock-test
    view. *)
Lemma created_quiz_is_served_witness :
  consistent Example.store0
  /\ exists view,
      getQuizById (createQuiz Sample.lessons Example.store0 Sample.body).2
                  (Example.plain 3)
      = Success 200 view
      /\ getMockTestById (createQuiz Sample.lessons Example.store0 Sample.body).2
                         (Example.plain 3)
         = Failure 404 "Mock test not found".
Proof.
  split; [apply store0_sound|].
  pose proof (created_quiz_is_served Sample.lessons Example.store0 Sample.body
                (proj1 store0_sound)) as [H _].
  revert H. destruct (createQuiz Sample.lessons Example.store0 Sample.body)
    as [[status [message [[quiz rows]|]]|status message] db'] eqn:Hrun;
    [intros [_ H] | done | by vm_compute in Hrun].
  assert (Quiz.id quiz = 3) as Hid by (vm_compute in Hrun; by injection Hrun as _ _ <- _ _).
  destruct (H (Example.plain 3) (eq_sym Hid) ltac:(done)) as [(view & Hview & _) Hmock].
  exists view. cbn [snd]. by split.
Defined.

(** Quiz 1 belongs to a lesson: the mock-test handlers answer 404 for it. *)
Lemma mock_test_handlers_skip_lesson_quizzes_witness :
  deleteMockTest Example.schema Example.store0 1
  = (Failure 404 "Mock test not found", Example.store0)
  /\ updateMockTest Example.store0 1 Sample.update
     = (Failure 404 "Mock test not found", Example.store0).
Proof.
  assert (forall q, q ∈ quizzes Example.store0 -> Quiz.id q = 1 ->
                    Quiz.lessonId q <> None) as Hbound.
  { intros q Hq Hid. cbn in Hq.
    apply elem_of_cons in Hq as [->|Hq]; [done|].
    apply elem_of_cons in Hq as [->|Hq]; [done|].
    by apply elem_of_nil in Hq. }
  split.
  - apply (proj1 (proj2 (mock_test_handlers_skip_lesson_quizzes
                           Example.schema Sample.users Example.store0 1 Hbound))).
  - apply (proj1 (mock_test_handlers_skip_lesson_quizzes
                    Example.schema Sample.users Example.store0 1 Hbound)).
Defined.

(** The attempt of user 8 is shown to user 8 and not to a request
    without a header. *)
Lemma owned_attempts_are_private_witness :
  (exists view,
     get_quiz_attempt Sample.verify Sample.users (Some "Bearer pupil") Sample.store8 1
     = Success 200 view
     /\ QuizAttempt.id (view_attempt view) = 1)
  /\ get_quiz_attempt Sample.verify Sample.users None Sample.store8 1
     = Failure 403 "Not authorized to view this attempt".
Proof.
  split; [|reflexivity].
  eexists. split; [vm_compute; reflexivity|].
  apply (proj1 (owned_attempts_are_private Sample.verify Sample.users
                  (Some "Bearer pupil") Sample.store8 1) 200).
  left. vm_compute. reflexivity.
Defined.

(** The sample submission of user 5 is read back with its score. *)
Lemma submitted_attempt_is_served_witness :
  attributed Example.store0
  /\ exists view,
      getQuizAttempt
        (submitQuizAttempt Example.schema Sample.users Example.store0 2000
                           Example.submission).2
        {| attempt_params_id := 1; attempt_userId := Some 5;
           attempt_userRole := Some student |} = Success 200 view
      /\ QuizAttempt.score (view_attempt view) = Some 29.
Proof.
  split; [apply store0_sound|].
  pose proof (submitted_attempt_is_served Example.schema Sample.users
                Example.store0 2000 Example.submission
                (proj1 (proj2 store0_sound))) as [H _].
  revert H.
  destruct (submitQuizAttempt Example.schema Sample.users Example.store0 2000
                              Example.submission)
    as [[status r|status message] db'] eqn:Hrun; [|by vm_compute in Hrun].
  intros (attempt & view & Hlast & Hget & Hview & Hscore & _).
  assert (QuizAttempt.id attempt = 1 /\ result_score r = 29) as [Hid Hr].
  { vm_compute in Hrun. injection Hrun as _ <- <-. vm_compute in Hlast.
    injection Hlast as <-. by split. }
  exists view. specialize (Hget (Some student)). rewrite Hid in Hget.
  split; [exact Hget|]. by rewrite Hview, Hscore, Hr.
Defined.

(** The example store stays sound under a creation, a deletion and a
    submission. *)
Lemma handlers_keep_the_store_sound_witness :
  sound Example.store0
  /\ sound (createQuiz Sample.lessons Example.store0 Sample.body).2
  /\ sound (deleteMockTest Example.schema Example.store0 2).2
  /\ sound (submitQuizAttempt Example.schema Sample.users Example.store0 2000
                              Example.submission).2.
Proof.
  pose proof (handlers_keep_the_store_sound Example.schema Sample.users
                Sample.lessons Example.store0 store0_sound)
    as (Hcreate & _ & _ & _ & _ & Hdelete & Hsubmit & _).
  split; [apply store0_sound|]. split; [apply Hcreate|].
  split; [apply Hdelete | apply Hsubmit].
Defined.

(** A shuffle on a seed whose hash is negative. *)
Lemma shuffle_keeps_length_witness :
  exists out st',
    (let* g := createSeededRandom "1-5-default" in shuffleArray [1; 2; 3] g) []
    = Some (out, st')
    /\ length out = 3%nat.
Proof.
  apply (shuffle_keeps_length "1-5-default" [1; 2; 3] []). by vm_compute.
Defined.

(** The randomized view of quiz 1 returns its two questions. *)
Lemma views_are_counted_witness :
  counted Example.shuffled 2 (getQuizById Example.store0 Example.shuffled).
Proof.
  apply (proj1 (views_are_counted Example.store0 Example.shuffled
                  ltac:(by vm_compute))).
Defined.

(** The answer with the key 10, sent as a string, is graded correct for
    question 1, and is an answer of that question marked correct. *)
Lemma choice_needs_own_correct_answer_witness :
  judge Sample.sum Sample.four = true
  /\ exists a,
      a ∈ quiz_answers Example.store0
      /\ QuizAnswer.questionId a = 1
      /\ parseInt (answerId Sample.four) = Some (QuizAnswer.id a)
      /\ QuizAnswer.isCorrect a = true.
Proof.
  split; [by vm_compute|].
  apply (proj1 (choice_needs_own_correct_answer Example.store0 1 Sample.sum
                  Sample.four
                  ltac:(vm_compute; apply list_elem_of_here) ltac:(done))).
  by vm_compute.
Defined.

(** The randomized view of quiz 1 re-orders its questions. *)
Lemma randomized_view_reorders_witness :
  -5 <= seedHash (seedOf Example.shuffled)
  /\ reorders Example.store0 (questionsOf Example.store0 1)
       (getQuizById Example.store0 Example.shuffled).
Proof.
  split; [by vm_compute|].
  apply (proj1 (randomized_view_reorders Example.store0 Example.shuffled
                  ltac:(by vm_compute) ltac:(by vm_compute) eq_refl
                  ltac:(by vm_compute))).
Defined.
